(** * XrdCl::ParallelOperation: execution policies, the handler gate, RunImpl

    A shallow embedding of [src/XrdCl/XrdClParallelOperation.hh].

    - [size_t] counters are integers in [Z] with the wrap-around of
      [std::atomic<size_t>] written out ([fetch_sub], [fetch_add]).
    - Each policy struct is a module with its state record, its constructor
      [new] and its [Examine] method; [PolicyExecutor] is the sum of the
      four, and [PolicyExecutor_Examine] is the virtual call.
    - [Ctx] is the RAII helper: the atomic handler slot and the policy.  The
      calls of [PipelineHandler::HandleResponse] it makes are returned as a
      list, in the order in which they are made.
    - [RunImpl], together with the continuations it hands to the pipelines,
      is a transition system, in two grains.  In [ParallelOperation.exec] an
      event is the next action of the thread inside [RunImpl] or the whole
      continuation of a pipeline that finishes; the events come in any
      order.  In [Threads.exec] an event is one atomic operation of one
      thread, so that continuations overlap.  The [std::shared_ptr<Ctx>] is
      the [use_count] field of the state: the local [ctx] of [RunImpl] and
      the closure of every started pipeline own one share each, and the last
      owner to go runs [~Ctx].
    - The theorems come after the definitions: the gate, the owners of the
      gate, the launch loop, the four policies, the empty operation, and
      the threads. *)

From Stdlib Require Import ZArith List String Bool Arith Lia.
Import ListNotations.
Open Scope Z_scope.

(** ** Machine integers *)

Definition size_t_modulus : Z := 2 ^ 64.

Definition to_size_t (z : Z) : Z := z mod size_t_modulus.

Definition is_size_t (z : Z) : Prop := 0 <= z < size_t_modulus.

(** [std::atomic<size_t>::fetch_sub]: the value held before, and the value
    stored. *)
Definition fetch_sub (v d : Z) : Z * Z := (v, to_size_t (v - d)).

(** [std::atomic<size_t>::fetch_add]. *)
Definition fetch_add (v d : Z) : Z * Z := (v, to_size_t (v + d)).

(** ** Collaborators declared outside this header *)

(** Modelled from the spec: [XRootDStatus] is declared in a header that is
    not part of the sources.  The spec describes it as a success/failure tag
    with an optional error description, constructible as a default success
    value and as a failure value carrying a message. *)
Inductive StatusTag : Type := stOK | stError.

Record XRootDStatus : Type := mkStatus {
  status  : StatusTag;
  message : string
}.

(** [XRootDStatus()] *)
Definition XRootDStatus_default : XRootDStatus := mkStatus stOK EmptyString.

Definition IsOK (st : XRootDStatus) : bool :=
  match status st with
  | stOK => true
  | stError => false
  end.

(** [PipelineHandler*]: the identity of a handler object; a null pointer is
    [None] at the places that hold one. *)
Definition PipelineHandler : Type := nat.

(** One call [hdlr->HandleResponse( new XRootDStatus( st ), nullptr )]. *)
Record Call : Type := HandleResponse {
  callee   : PipelineHandler;
  response : XRootDStatus
}.

(** Modelled from the spec: [Pipeline] is declared in a header that is not
    part of the sources.  [Run( timeout, final )] either starts the pipeline,
    which then calls [final] exactly once when it finishes, or fails
    synchronously by throwing before anything was started. *)
Inductive RunBehaviour : Type :=
| Starts
| ThrowsPipelineException (err : XRootDStatus)
| ThrowsException (what : string).

Record Pipeline : Type := mkPipeline {
  Pipeline_ToString : string;
  Pipeline_Run      : RunBehaviour
}.

(** ** Execution policies *)

Module AllPolicy.

Definition Examine (status : XRootDStatus) : bool :=
  if IsOK status then false
  else true.

End AllPolicy.

Module AnyPolicy.

Record t : Type := mk { cnt : Z }.

Definition new (size : Z) : t := {| cnt := size |}.

Definition Examine (p : t) (status : XRootDStatus) : bool * t :=
  let (nb, cnt') := fetch_sub (cnt p) 1 in
  let p' := {| cnt := cnt' |} in
  if IsOK status then (true, p')
  else if nb =? 1 then (true, p')
  else (false, p').

End AnyPolicy.

Module SomePolicy.

Record t : Type := mk { cnt : Z; succeeded : Z; threshold : Z }.

Definition new (size threshold : Z) : t :=
  {| cnt := size; succeeded := 0; threshold := threshold |}.

Definition Examine (p : t) (status : XRootDStatus) : bool * t :=
  let (nb, cnt') := fetch_sub (cnt p) 1 in
  if IsOK status then
    let (s, succeeded') := fetch_add (succeeded p) 1 in
    let p' := {| cnt := cnt'; succeeded := succeeded';
                 threshold := threshold p |} in
    if to_size_t (s + 1) =? threshold p then (true, p')
    else (false, p')
  else
    let p' := {| cnt := cnt'; succeeded := succeeded p;
                 threshold := threshold p |} in
    if nb =? threshold p then (true, p')
    else (false, p').

End SomePolicy.

Module AtLeastPolicy.

Record t : Type := mk { cnt : Z; threshold : Z }.

Definition new (size threshold : Z) : t :=
  {| cnt := size; threshold := threshold |}.

Definition Examine (p : t) (status : XRootDStatus) : bool * t :=
  let (nb, cnt') := fetch_sub (cnt p) 1 in
  let p' := {| cnt := cnt'; threshold := threshold p |} in
  if IsOK status then (false, p')
  else if nb =? threshold p then (true, p')
  else (false, p').

End AtLeastPolicy.

(** The objects a [PolicyExecutor*] can point to. *)
Inductive PolicyExecutor : Type :=
| PAll
| PAny (p : AnyPolicy.t)
| PSome (p : SomePolicy.t)
| PAtLeast (p : AtLeastPolicy.t).

(** The virtual call [policy->Examine( status )]. *)
Definition PolicyExecutor_Examine (p : PolicyExecutor) (status : XRootDStatus)
  : bool * PolicyExecutor :=
  match p with
  | PAll => (AllPolicy.Examine status, PAll)
  | PAny q => let (b, q') := AnyPolicy.Examine q status in (b, PAny q')
  | PSome q => let (b, q') := SomePolicy.Examine q status in (b, PSome q')
  | PAtLeast q =>
      let (b, q') := AtLeastPolicy.Examine q status in (b, PAtLeast q')
  end.

(** ** The handler gate *)

Module Ctx.

Record t : Type := mk {
  handler : option PipelineHandler;
  policy  : PolicyExecutor
}.

(** [handler.exchange( nullptr )] *)
Definition exchange_handler (c : t) : option PipelineHandler * t :=
  (handler c, {| handler := None; policy := policy c |}).

Definition Handle (c : t) (st : XRootDStatus) : t * list Call :=
  let (hdlr, c') := exchange_handler c in
  match hdlr with
  | Some h => (c', [HandleResponse h st])
  | None => (c', [])
  end.

Definition Examine (c : t) (st : XRootDStatus) : t * list Call :=
  let (decided, policy') := PolicyExecutor_Examine (policy c) st in
  let c' := {| handler := handler c; policy := policy' |} in
  if decided then Handle c' st
  else (c', []).

(** [~Ctx()] *)
Definition destroy (c : t) : t * list Call :=
  Handle c XRootDStatus_default.

End Ctx.

(** ** ParallelOperation *)

Module ParallelOperation.

(** [timeout] is the member inherited from the operation base class. *)
Record t : Type := mk {
  pipelines : list Pipeline;
  policy    : option PolicyExecutor;
  timeout   : Z
}.

(** [pipelines.size()] *)
Definition size (op : t) : Z := Z.of_nat (List.length (pipelines op)).

(** The constructor from a container: the pipelines are moved out of the
    container, which is cleared.  The result is the new operation and the
    container as the constructor leaves it.  [timeout] stands for the
    value the base class gives its member. *)
Definition from_container (container : list Pipeline) (timeout : Z)
  : t * list Pipeline :=
  ({| pipelines := container; policy := None; timeout := timeout |}, []).

(** The body of the loop of [ToString], from index [i] on. *)
Fixpoint ToString_from (ps : list Pipeline) (i size : Z) : string :=
  match ps with
  | [] => EmptyString
  | p :: rest =>
      let sep := if negb (i + 1 =? size) then " && "%string
                 else EmptyString in
      String.append (Pipeline_ToString p)
        (String.append sep (ToString_from rest (i + 1) size))
  end.

Definition ToString (op : t) : string :=
  String.append "Parallel("
    (String.append (ToString_from (pipelines op) 0 (size op)) ")").

Definition All (op : t) : t :=
  {| pipelines := pipelines op; policy := Some PAll;
     timeout := timeout op |}.

Definition Any (op : t) : t :=
  {| pipelines := pipelines op;
     policy := Some (PAny (AnyPolicy.new (size op)));
     timeout := timeout op |}.

Definition AtLeast (threshold : Z) (op : t) : t :=
  {| pipelines := pipelines op;
     policy := Some (PAtLeast (AtLeastPolicy.new (size op) threshold));
     timeout := timeout op |}.

(** *** RunImpl and the continuations it installs *)

Record RunState : Type := mkRunState {
  ctx         : Ctx.t;               (* the object behind [shared_ptr<Ctx>] *)
  use_count   : nat;                 (* owners of that [shared_ptr] *)
  calls       : list Call;           (* [HandleResponse] calls made so far *)
  run_timeout : Z;                   (* the local [timeout] *)
  index       : nat;                 (* the loop variable [i] *)
  launched    : list (nat * Z);      (* [Run] calls that returned *)
  pending     : list nat;            (* started, continuation not yet run *)
  returned    : option XRootDStatus  (* the value [RunImpl] returned *)
}.

(** The state when the thread inside [RunImpl] reaches the [try] block: the
    policy of the operation, or a new `All` policy when none was selected,
    has moved into the gate, whose only owner is the local [ctx]. *)
Definition RunImpl_enter (op : t) (handler : option PipelineHandler)
    (pipelineTimeout : Z) : RunState :=
  let policy :=
    match policy op with
    | Some p => p
    | None => PAll
    end in
  {| ctx := Ctx.mk handler policy;
     use_count := 1;
     calls := [];
     run_timeout := if pipelineTimeout <? timeout op then pipelineTimeout
                    else timeout op;
     index := 0;
     launched := [];
     pending := [];
     returned := None |}.

(** One owner of the [shared_ptr<Ctx>] goes away; the last one runs
    [~Ctx]. *)
Definition release (s : RunState) : RunState :=
  match use_count s with
  | 1%nat =>
      let (c, out) := Ctx.destroy (ctx s) in
      {| ctx := c; use_count := 0; calls := calls s ++ out;
         run_timeout := run_timeout s; index := index s;
         launched := launched s; pending := pending s;
         returned := returned s |}
  | n =>
      {| ctx := ctx s; use_count := Nat.pred n; calls := calls s;
         run_timeout := run_timeout s; index := index s;
         launched := launched s; pending := pending s;
         returned := returned s |}
  end.

(** [return st;] from [RunImpl]: the local [ctx] is destroyed. *)
Definition RunImpl_return (st : XRootDStatus) (s : RunState) : RunState :=
  release
    {| ctx := ctx s; use_count := use_count s; calls := calls s;
       run_timeout := run_timeout s; index := index s;
       launched := launched s; pending := pending s;
       returned := Some st |}.

(** The next action of the thread inside [RunImpl]: one iteration of the
    loop, or leaving the function.  The closure built for [Run] owns a copy
    of [ctx]; when [Run] throws, that closure is destroyed during
    unwinding, so the count is what it was. *)
Definition RunImpl_step (op : t) (s : RunState) : option RunState :=
  match returned s with
  | Some _ => None
  | None =>
      match nth_error (pipelines op) (index s) with
      | Some p =>
          match Pipeline_Run p with
          | Starts =>
              Some {| ctx := ctx s; use_count := S (use_count s);
                      calls := calls s; run_timeout := run_timeout s;
                      index := S (index s);
                      launched := launched s ++ [(index s, run_timeout s)];
                      pending := pending s ++ [index s];
                      returned := None |}
          | ThrowsPipelineException err => Some (RunImpl_return err s)
          | ThrowsException what =>
              Some (RunImpl_return (mkStatus stError what) s)
          end
      | None => Some (RunImpl_return XRootDStatus_default s)
      end
  end.

Fixpoint remove_one (j : nat) (l : list nat) : list nat :=
  match l with
  | [] => []
  | x :: rest => if Nat.eqb j x then rest else x :: remove_one j rest
  end.

(** The continuation [[ctx]( const XRootDStatus &st ){ ctx->Examine( st ); }]
    of started pipeline [j] runs with [st], and is destroyed. *)
Definition continuation (j : nat) (st : XRootDStatus) (s : RunState)
  : option RunState :=
  if existsb (Nat.eqb j) (pending s) then
    let (c, out) := Ctx.Examine (ctx s) st in
    Some (release
            {| ctx := c; use_count := use_count s; calls := calls s ++ out;
               run_timeout := run_timeout s; index := index s;
               launched := launched s;
               pending := remove_one j (pending s);
               returned := returned s |})
  else None.

Inductive Event : Type :=
| Advance                                  (* the thread inside [RunImpl] *)
| Complete (j : nat) (st : XRootDStatus).  (* pipeline [j] finishes *)

Definition step (op : t) (e : Event) (s : RunState) : option RunState :=
  match e with
  | Advance => RunImpl_step op s
  | Complete j st => continuation j st s
  end.

Fixpoint exec (op : t) (es : list Event) (s : RunState)
  : option RunState :=
  match es with
  | [] => Some s
  | e :: rest =>
      match step op e s with
      | Some s' => exec op rest s'
      | None => None
      end
  end.

(** [RunImpl] has returned and every started pipeline has finished. *)
Definition quiescent (s : RunState) : Prop :=
  returned s <> None /\ pending s = [].

(** Set policy to `Some`. *)
Definition Some (threshold : Z) (op : t) : t :=
  {| pipelines := pipelines op;
     policy :=
       Datatypes.Some (PSome (SomePolicy.new (size op) threshold));
     timeout := timeout op |}.

End ParallelOperation.

Module PO := ParallelOperation.

(** [Parallel( container )] *)
Definition Parallel (container : list Pipeline) (timeout : Z)
  : ParallelOperation.t * list Pipeline :=
  ParallelOperation.from_container container timeout.

(** ** Runs of the gate and of a policy over a list of outcomes *)

(** [ctx->Examine( st )] for each outcome in turn: the gate afterwards and
    the [HandleResponse] calls made. *)
Fixpoint examine_all (c : Ctx.t) (sts : list XRootDStatus)
  : Ctx.t * list Call :=
  match sts with
  | [] => (c, [])
  | st :: rest =>
      let (c1, out1) := Ctx.Examine c st in
      let (c2, out2) := examine_all c1 rest in
      (c2, out1 ++ out2)
  end.

(** Every [HandleResponse] call made when the continuations run with [sts],
    in that order, and the last owner of the gate then lets go of it. *)
Definition delivered (c : Ctx.t) (sts : list XRootDStatus) : list Call :=
  let (c', out) := examine_all c sts in
  out ++ snd (Ctx.destroy c').

(** The values [policy->Examine] returns for the outcomes in turn. *)
Fixpoint decisions (p : PolicyExecutor) (sts : list XRootDStatus)
  : list bool :=
  match sts with
  | [] => []
  | st :: rest =>
      let (b, p') := PolicyExecutor_Examine p st in
      b :: decisions p' rest
  end.

(** The policy object after it examined [sts]. *)
Fixpoint policy_after (p : PolicyExecutor) (sts : list XRootDStatus)
  : PolicyExecutor :=
  match sts with
  | [] => p
  | st :: rest => policy_after (snd (PolicyExecutor_Examine p st)) rest
  end.

Definition successes (sts : list XRootDStatus) : Z :=
  Z.of_nat (List.length (filter IsOK sts)).

Definition failures (sts : list XRootDStatus) : Z :=
  Z.of_nat (List.length (filter (fun st => negb (IsOK st)) sts)).

Definition all_fail (sts : list XRootDStatus) : bool :=
  forallb (fun st => negb (IsOK st)) sts.

(** The outcomes of the [Complete] events of a schedule, in order. *)
Fixpoint completions (es : list ParallelOperation.Event)
  : list XRootDStatus :=
  match es with
  | [] => []
  | ParallelOperation.Advance :: rest => completions rest
  | ParallelOperation.Complete _ st :: rest => st :: completions rest
  end.

(** Every pipeline of the operation starts when it is run. *)
Definition all_start (ps : list Pipeline) : bool :=
  forallb (fun p => match Pipeline_Run p with Starts => true | _ => false end)
          ps.

(** The gate [RunImpl] builds. *)
Definition gate_of (op : ParallelOperation.t) (h : PipelineHandler) : Ctx.t :=
  ParallelOperation.ctx (ParallelOperation.RunImpl_enter op (Some h) 0).

(** *** What the documentation of the policies asks for *)

(** After the outcomes [seen], out of [n] operations, can [k] of them still
    succeed?  The operations not seen yet may all succeed. *)
Definition still_reachable (n k : Z) (seen : list XRootDStatus) : bool :=
  k <=? n - failures seen.

(** `All`: all operations need to succeed. *)
Definition all_succeeded (sts : list XRootDStatus) : bool := forallb IsOK sts.

(** ** Invariants of an activation *)

(** The owners of the gate are the thread inside [RunImpl], until it
    returns, and the continuation of every pipeline that is running. *)
Definition owners_inv (s : ParallelOperation.RunState) : Prop :=
  ParallelOperation.use_count s =
    ((match ParallelOperation.returned s with
      | None => 1
      | Some _ => 0
      end) + List.length (ParallelOperation.pending s))%nat.

(** Either the handler is still in its slot, nothing was delivered and the
    gate is alive, or the slot is empty and exactly one call was made. *)
Definition slot_inv (h : PipelineHandler) (s : ParallelOperation.RunState)
  : Prop :=
  match Ctx.handler (ParallelOperation.ctx s) with
  | Some h' =>
      h' = h /\ ParallelOperation.calls s = []
      /\ ParallelOperation.use_count s <> 0%nat
  | None => exists st, ParallelOperation.calls s = [HandleResponse h st]
  end.

(** The slot and the calls before an owner lets go: as [slot_inv], without
    the part about the gate being alive. *)
Definition slot_pre (h : PipelineHandler) (c : Ctx.t) (cs : list Call)
  : Prop :=
  match Ctx.handler c with
  | Some h' => h' = h /\ cs = []
  | None => exists st, cs = [HandleResponse h st]
  end.


(** The outcome on which the policy first answers [true], if any. *)
Fixpoint first_decided (p : PolicyExecutor) (sts : list XRootDStatus)
  : option XRootDStatus :=
  match sts with
  | [] => None
  | st :: rest =>
      let (b, p') := PolicyExecutor_Examine p st in
      if b then Some st else first_decided p' rest
  end.

(** The status the handler ends up with: the outcome the policy decided on,
    or the default status of the destructor. *)
Definition aggregate (p : PolicyExecutor) (sts : list XRootDStatus)
  : XRootDStatus :=
  match first_decided p sts with
  | Some st => st
  | None => XRootDStatus_default
  end.

(** ** Sample values *)

Definition failure (msg : string) : XRootDStatus := mkStatus stError msg.

Definition starting (name : string) : Pipeline := mkPipeline name Starts.

Definition throwing (name : string) (err : XRootDStatus) : Pipeline :=
  mkPipeline name (ThrowsPipelineException err).

(** Three pipelines under `Some( 2 )`, and a schedule in which the second
    one fails while the third is not launched yet. *)
Definition sample_op : ParallelOperation.t :=
  ParallelOperation.Some 2
    (fst (Parallel [starting "a"; starting "b"; starting "c"] 30)).

Definition sample_schedule : list ParallelOperation.Event :=
  [ParallelOperation.Advance; ParallelOperation.Advance;
   ParallelOperation.Complete 1 (failure "x"); ParallelOperation.Advance;
   ParallelOperation.Complete 0 XRootDStatus_default;
   ParallelOperation.Advance;
   ParallelOperation.Complete 2 XRootDStatus_default].

(** The state that schedule ends in. *)
Definition sample_final : ParallelOperation.RunState :=
  Eval vm_compute in
    match
      ParallelOperation.exec sample_op sample_schedule
        (ParallelOperation.RunImpl_enter sample_op (Some 7%nat) 10)
    with
    | Some s => s
    | None => ParallelOperation.RunImpl_enter sample_op (Some 7%nat) 10
    end.

(** ** What the launch loop does with a list of pipelines *)

(** The number of pipelines at the front of the list that start. *)
Fixpoint first_throw (ps : list Pipeline) : nat :=
  match ps with
  | [] => 0%nat
  | p :: rest =>
      match Pipeline_Run p with
      | Starts => S (first_throw rest)
      | _ => 0%nat
      end
  end.

(** The status of the first pipeline that throws, as the [catch] clauses
    build it, or the default status when none does. *)
Fixpoint launch_status (ps : list Pipeline) : XRootDStatus :=
  match ps with
  | [] => XRootDStatus_default
  | p :: rest =>
      match Pipeline_Run p with
      | Starts => launch_status rest
      | ThrowsPipelineException err => err
      | ThrowsException what => mkStatus stError what
      end
  end.

Definition launch_inv (op : ParallelOperation.t) (pipelineTimeout : Z)
    (es : list ParallelOperation.Event) (s : ParallelOperation.RunState)
  : Prop :=
  ParallelOperation.run_timeout s =
    (if pipelineTimeout <? ParallelOperation.timeout op then pipelineTimeout
     else ParallelOperation.timeout op)
  /\ (ParallelOperation.index s
      <= first_throw (ParallelOperation.pipelines op))%nat
  /\ ParallelOperation.launched s =
       map (fun i => (i, ParallelOperation.run_timeout s))
           (seq 0 (ParallelOperation.index s))
  /\ (List.length (completions es)
      + List.length (ParallelOperation.pending s)
      = ParallelOperation.index s)%nat
  /\ (forall st,
        ParallelOperation.returned s = Some st ->
        ParallelOperation.index s
          = first_throw (ParallelOperation.pipelines op)
        /\ st = launch_status (ParallelOperation.pipelines op)).

(** Three pipelines under the default policy. *)
Definition three_op : ParallelOperation.t :=
  fst (Parallel [starting "a"; starting "b"; starting "c"] 30).

(** The second pipeline fails, the others succeed; the third finishes after
    [RunImpl] has returned. *)
Definition second_fails_schedule : list ParallelOperation.Event :=
  [ParallelOperation.Advance; ParallelOperation.Advance;
   ParallelOperation.Advance;
   ParallelOperation.Complete 0 XRootDStatus_default;
   ParallelOperation.Complete 1 (failure "x");
   ParallelOperation.Advance;
   ParallelOperation.Complete 2 XRootDStatus_default].

Definition second_fails_final : ParallelOperation.RunState :=
  Eval vm_compute in
    match
      ParallelOperation.exec three_op second_fails_schedule
        (ParallelOperation.RunImpl_enter three_op (Some 7%nat) 10)
    with
    | Some s => s
    | None => ParallelOperation.RunImpl_enter three_op (Some 7%nat) 10
    end.

(** All three pipelines succeed, after [RunImpl] has returned. *)
Definition all_succeed_schedule : list ParallelOperation.Event :=
  [ParallelOperation.Advance; ParallelOperation.Advance;
   ParallelOperation.Advance; ParallelOperation.Advance;
   ParallelOperation.Complete 1 XRootDStatus_default;
   ParallelOperation.Complete 0 XRootDStatus_default;
   ParallelOperation.Complete 2 XRootDStatus_default].

Definition all_succeed_final : ParallelOperation.RunState :=
  Eval vm_compute in
    match
      ParallelOperation.exec three_op all_succeed_schedule
        (ParallelOperation.RunImpl_enter three_op (Some 7%nat) 10)
    with
    | Some s => s
    | None => ParallelOperation.RunImpl_enter three_op (Some 7%nat) 10
    end.

(** ** Thresholds *)

(** The threshold a policy object holds, when it has one. *)
Definition threshold_of (p : PolicyExecutor) : option Z :=
  match p with
  | PAll => None
  | PAny _ => None
  | PSome q => Some (SomePolicy.threshold q)
  | PAtLeast q => Some (AtLeastPolicy.threshold q)
  end.

(** The spec's range for a threshold: [0 < k <= taskCount]. *)
Definition threshold_in_range (k : Z) (op : ParallelOperation.t) : Prop :=
  0 < k <= ParallelOperation.size op.

(** Following the spec's words: the activation is rejected, it does not
    proceed to run.  No pipeline is started and the immediate status, once
    there is one, is a failure. *)
Definition rejected (op : ParallelOperation.t) : Prop :=
  forall (h : option PipelineHandler) (pipelineTimeout : Z)
         (es : list ParallelOperation.Event) (s : ParallelOperation.RunState),
    ParallelOperation.exec op es
      (ParallelOperation.RunImpl_enter op h pipelineTimeout) = Some s ->
    ParallelOperation.launched s = []
    /\ (forall st, ParallelOperation.returned s = Some st -> IsOK st = false).

(** [RunImpl] runs to its [return] without any pipeline finishing
    meanwhile. *)
Definition launch_all_schedule (op : ParallelOperation.t)
  : list ParallelOperation.Event :=
  repeat ParallelOperation.Advance
         (S (first_throw (ParallelOperation.pipelines op))).

Definition out_of_range_final : ParallelOperation.RunState :=
  Eval vm_compute in
    match
      ParallelOperation.exec (ParallelOperation.Some 5 three_op)
        (launch_all_schedule (ParallelOperation.Some 5 three_op))
        (ParallelOperation.RunImpl_enter (ParallelOperation.Some 5 three_op)
           (Some 7%nat) 10)
    with
    | Some s => s
    | None =>
        ParallelOperation.RunImpl_enter (ParallelOperation.Some 5 three_op)
          (Some 7%nat) 10
    end.

(** ** Progress of an activation *)

(** A bound on the number of events an activation can still take. *)
Definition remaining_events (op : ParallelOperation.t)
    (s : ParallelOperation.RunState) : nat :=
  (match ParallelOperation.returned s with
   | None =>
       S (2 * (List.length (ParallelOperation.pipelines op)
               - ParallelOperation.index s))
   | Some _ => 0
   end + List.length (ParallelOperation.pending s))%nat.

(** ** The activation, one atomic operation at a time *)

(** [ParallelOperation.continuation] lets a continuation run from its call
    to the destruction of its closure in one piece.  Here the threads take
    turns at every access to shared data: the [fetch_sub] and [fetch_add] of
    a policy, the [exchange] on the handler slot, the call of the handler,
    and the decrement of the owner count of the [shared_ptr]. *)
Module Threads.

(** Where a thread stands.  The thread inside [RunImpl] is [Running] while
    it is in the loop; the continuation of a pipeline is [Running] until the
    pipeline finishes. *)
Inductive Pc : Type :=
| Running
| Examining (st : XRootDStatus)      (* entering [policy->Examine( st )] *)
| Counting (st : XRootDStatus)       (* `Some`, before [succeeded.fetch_add] *)
| Handling (st : XRootDStatus)       (* entering [Handle( st )] *)
| Calling (hdlr : PipelineHandler) (st : XRootDStatus)
                                     (* after [exchange], before the call *)
| Releasing                          (* about to give up its owner share *)
| Destroying                         (* last owner, entering [~Ctx] *)
| DestroyCalling (hdlr : PipelineHandler)
| Finished.

(** What is left of [policy->Examine] after its first shared access. *)
Inductive Next : Type :=
| Decided (b : bool)
| CountSuccess.

(** [policy->Examine( st )] up to and including its first access to a
    counter.  Only `Some`, on a success, has a second one to make. *)
Definition Examine_first (p : PolicyExecutor) (st : XRootDStatus)
  : Next * PolicyExecutor :=
  match p with
  | PAll => (Decided (AllPolicy.Examine st), PAll)
  | PAny q => let (b, q') := AnyPolicy.Examine q st in (Decided b, PAny q')
  | PSome q =>
      let (nb, cnt') := fetch_sub (SomePolicy.cnt q) 1 in
      let q' := {| SomePolicy.cnt := cnt';
                   SomePolicy.succeeded := SomePolicy.succeeded q;
                   SomePolicy.threshold := SomePolicy.threshold q |} in
      if IsOK st then (CountSuccess, PSome q')
      else if nb =? SomePolicy.threshold q then (Decided true, PSome q')
      else (Decided false, PSome q')
  | PAtLeast q =>
      let (b, q') := AtLeastPolicy.Examine q st in (Decided b, PAtLeast q')
  end.

(** The rest of [SomePolicy::Examine] on a success: [succeeded.fetch_add]
    and the test against the threshold. *)
Definition Examine_second (p : PolicyExecutor) : bool * PolicyExecutor :=
  match p with
  | PSome q =>
      let (s, succeeded') := fetch_add (SomePolicy.succeeded q) 1 in
      let q' := {| SomePolicy.cnt := SomePolicy.cnt q;
                   SomePolicy.succeeded := succeeded';
                   SomePolicy.threshold := SomePolicy.threshold q |} in
      if to_size_t (s + 1) =? SomePolicy.threshold q then (true, PSome q')
      else (false, PSome q')
  | _ => (false, p)
  end.

(** What the threads share. *)
Record Shared : Type := mkShared {
  ctx       : Ctx.t;
  use_count : nat;
  calls     : list Call
}.

(** The next atomic operation of a thread that is past [Running]. *)
Definition advance (pc : Pc) (sh : Shared) : option (Pc * Shared) :=
  match pc with
  | Running => None
  | Examining st =>
      let (next, policy') := Examine_first (Ctx.policy (ctx sh)) st in
      let sh' := {| ctx := Ctx.mk (Ctx.handler (ctx sh)) policy';
                    use_count := use_count sh; calls := calls sh |} in
      match next with
      | Decided true => Some (Handling st, sh')
      | Decided false => Some (Releasing, sh')
      | CountSuccess => Some (Counting st, sh')
      end
  | Counting st =>
      let (decided, policy') := Examine_second (Ctx.policy (ctx sh)) in
      let sh' := {| ctx := Ctx.mk (Ctx.handler (ctx sh)) policy';
                    use_count := use_count sh; calls := calls sh |} in
      Some (if decided then Handling st else Releasing, sh')
  | Handling st =>
      let (hdlr, c') := Ctx.exchange_handler (ctx sh) in
      let sh' := {| ctx := c'; use_count := use_count sh;
                    calls := calls sh |} in
      match hdlr with
      | Some h => Some (Calling h st, sh')
      | None => Some (Releasing, sh')
      end
  | Calling h st =>
      Some (Releasing,
            {| ctx := ctx sh; use_count := use_count sh;
               calls := calls sh ++ [HandleResponse h st] |})
  | Releasing =>
      match use_count sh with
      | 1%nat =>
          Some (Destroying,
                {| ctx := ctx sh; use_count := 0; calls := calls sh |})
      | n =>
          Some (Finished,
                {| ctx := ctx sh; use_count := Nat.pred n;
                   calls := calls sh |})
      end
  | Destroying =>
      let (hdlr, c') := Ctx.exchange_handler (ctx sh) in
      let sh' := {| ctx := c'; use_count := use_count sh;
                    calls := calls sh |} in
      match hdlr with
      | Some h => Some (DestroyCalling h, sh')
      | None => Some (Finished, sh')
      end
  | DestroyCalling h =>
      Some (Finished,
            {| ctx := ctx sh; use_count := use_count sh;
               calls := calls sh ++ [HandleResponse h XRootDStatus_default] |})
  | Finished => None
  end.

Record State : Type := mkState {
  shared   : Shared;
  index    : nat;                    (* the loop variable [i] of [RunImpl] *)
  returned : option XRootDStatus;    (* the value of the [return] reached *)
  main     : Pc;                     (* the thread inside [RunImpl] *)
  tasks    : list Pc                 (* the continuations, by pipeline *)
}.

Definition enter (op : ParallelOperation.t)
    (handler : option PipelineHandler) (pipelineTimeout : Z) : State :=
  {| shared :=
       {| ctx := ParallelOperation.ctx
                   (ParallelOperation.RunImpl_enter op handler
                      pipelineTimeout);
          use_count := 1; calls := [] |};
     index := 0; returned := None; main := Running; tasks := [] |}.

Fixpoint set_nth (j : nat) (pc : Pc) (l : list Pc) : list Pc :=
  match l, j with
  | [], _ => []
  | _ :: rest, O => pc :: rest
  | x :: rest, S j' => x :: set_nth j' pc rest
  end.

(** The thread inside [RunImpl]: an iteration of the loop, the [return]
    reached, or the next operation of the destruction of the local [ctx]. *)
Definition main_step (op : ParallelOperation.t) (s : State) : option State :=
  match main s with
  | Running =>
      match nth_error (ParallelOperation.pipelines op) (index s) with
      | Some p =>
          match Pipeline_Run p with
          | Starts =>
              Some {| shared :=
                        {| ctx := ctx (shared s);
                           use_count := S (use_count (shared s));
                           calls := calls (shared s) |};
                      index := S (index s); returned := None;
                      main := Running; tasks := tasks s ++ [Running] |}
          | ThrowsPipelineException err =>
              Some {| shared := shared s; index := index s;
                      returned := Some err; main := Releasing;
                      tasks := tasks s |}
          | ThrowsException what =>
              Some {| shared := shared s; index := index s;
                      returned := Some (mkStatus stError what);
                      main := Releasing; tasks := tasks s |}
          end
      | None =>
          Some {| shared := shared s; index := index s;
                  returned := Some XRootDStatus_default; main := Releasing;
                  tasks := tasks s |}
      end
  | pc =>
      match advance pc (shared s) with
      | Some (pc', sh') =>
          Some {| shared := sh'; index := index s; returned := returned s;
                  main := pc'; tasks := tasks s |}
      | None => None
      end
  end.

(** Pipeline [j] finishes with [st]: its continuation is called. *)
Definition finish (j : nat) (st : XRootDStatus) (s : State) : option State :=
  match nth_error (tasks s) j with
  | Some Running =>
      Some {| shared := shared s; index := index s; returned := returned s;
              main := main s; tasks := set_nth j (Examining st) (tasks s) |}
  | _ => None
  end.

(** The next atomic operation of the continuation of pipeline [j]. *)
Definition task_step (j : nat) (s : State) : option State :=
  match nth_error (tasks s) j with
  | Some pc =>
      match advance pc (shared s) with
      | Some (pc', sh') =>
          Some {| shared := sh'; index := index s; returned := returned s;
                  main := main s; tasks := set_nth j pc' (tasks s) |}
      | None => None
      end
  | None => None
  end.

Inductive Event : Type :=
| Main
| Finish (j : nat) (st : XRootDStatus)
| Thread (j : nat).

Definition step (op : ParallelOperation.t) (e : Event) (s : State)
  : option State :=
  match e with
  | Main => main_step op s
  | Finish j st => finish j st s
  | Thread j => task_step j s
  end.

Fixpoint exec (op : ParallelOperation.t) (es : list Event) (s : State)
  : option State :=
  match es with
  | [] => Some s
  | e :: rest =>
      match step op e s with
      | Some s' => exec op rest s'
      | None => None
      end
  end.

(** Every thread has run to its end. *)
Definition terminal (s : State) : Prop :=
  main s = Finished /\ Forall (fun pc => pc = Finished) (tasks s).

(** The threads that own a share of the gate. *)
Definition owns (pc : Pc) : bool :=
  match pc with
  | Running | Examining _ | Counting _ | Handling _ | Calling _ _
  | Releasing => true
  | Destroying | DestroyCalling _ | Finished => false
  end.

(** The threads that took the handler out of the slot and have not called it
    yet. *)
Definition holds (pc : Pc) : bool :=
  match pc with
  | Calling _ _ | DestroyCalling _ => true
  | _ => false
  end.

Definition destroys (pc : Pc) : bool :=
  match pc with
  | Destroying => true
  | _ => false
  end.

(** The handler a thread holds, if any, is [h]. *)
Definition holds_only (h : PipelineHandler) (pc : Pc) : Prop :=
  match pc with
  | Calling h' _ | DestroyCalling h' => h' = h
  | _ => True
  end.

Definition count (f : Pc -> bool) (l : list Pc) : nat :=
  List.length (filter f l).

(** The invariant, on what is shared and on how many threads own, hold and
    destroy. *)
Definition shared_inv (h : PipelineHandler) (sh : Shared)
    (owners holders destroyers : nat) : Prop :=
  use_count sh = owners
  /\ match Ctx.handler (ctx sh) with
     | Some h' => h' = h /\ calls sh = [] /\ holders = 0%nat
     | None =>
         (holders = 1%nat /\ calls sh = [])
         \/ (holders = 0%nat /\ exists st, calls sh = [HandleResponse h st])
     end
  /\ (owners = 0%nat ->
      Ctx.handler (ctx sh) = None \/ (1 <= destroyers)%nat).

Definition threads (s : State) : list Pc := main s :: tasks s.

Definition inv (h : PipelineHandler) (s : State) : Prop :=
  shared_inv h (shared s) (count owns (threads s)) (count holds (threads s))
             (count destroys (threads s))
  /\ Forall (holds_only h) (threads s).

(** A bound on the number of atomic operations a thread can still make. *)
Definition weight (pc : Pc) : nat :=
  match pc with
  | Running => 8
  | Examining _ => 7
  | Counting _ => 6
  | Handling _ => 5
  | Calling _ _ => 4
  | Releasing => 3
  | Destroying => 2
  | DestroyCalling _ => 1
  | Finished => 0
  end.

Definition remaining (op : ParallelOperation.t) (s : State) : nat :=
  (match main s with
   | Running =>
       4 + 9 * (List.length (ParallelOperation.pipelines op) - index s)
   | pc => weight pc
   end + list_sum (map weight (tasks s)))%nat.

End Threads.

(** ** The two views of an activation *)

(** A thread makes some of its atomic operations in a row. *)
Inductive advances : Threads.Pc -> Threads.Shared ->
                     Threads.Pc -> Threads.Shared -> Prop :=
| advances_refl (pc : Threads.Pc) (sh : Threads.Shared) :
    advances pc sh pc sh
| advances_step (pc pc1 pc2 : Threads.Pc) (sh sh1 sh2 : Threads.Shared) :
    Threads.advance pc sh = Some (pc1, sh1) ->
    advances pc1 sh1 pc2 sh2 ->
    advances pc sh pc2 sh2.

(** What the threads share in a state of [ParallelOperation.exec]. *)
Definition shared_of (s : ParallelOperation.RunState) : Threads.Shared :=
  {| Threads.ctx := ParallelOperation.ctx s;
     Threads.use_count := ParallelOperation.use_count s;
     Threads.calls := ParallelOperation.calls s |}.

(** Where the continuation of pipeline [j] stands when no continuation is
    under way: waiting for its pipeline, or at its end. *)
Definition task_pc (pending : list nat) (j : nat) : Threads.Pc :=
  if existsb (Nat.eqb j) pending then Threads.Running else Threads.Finished.

(** A state of the threads in which no continuation and no destruction is
    under way, and the state of [ParallelOperation.exec] it stands for. *)
Definition abstracts (s : ParallelOperation.RunState) (t : Threads.State)
  : Prop :=
  Threads.shared t = shared_of s
  /\ Threads.index t = ParallelOperation.index s
  /\ Threads.returned t = ParallelOperation.returned s
  /\ Threads.main t =
       match ParallelOperation.returned s with
       | None => Threads.Running
       | Some _ => Threads.Finished
       end
  /\ Threads.tasks t =
       map (task_pc (ParallelOperation.pending s))
           (seq 0 (ParallelOperation.index s))
  /\ NoDup (ParallelOperation.pending s)
  /\ Forall (fun j => (j < ParallelOperation.index s)%nat)
            (ParallelOperation.pending s).

(** [sample_op] again, with two continuations under way at the same time:
    both decrement the counter before either counts its success, and the
    second one to count reaches the threshold. *)
Definition sample_interleaving : list Threads.Event :=
  [Threads.Main; Threads.Main;
   Threads.Finish 0 XRootDStatus_default;
   Threads.Finish 1 XRootDStatus_default;
   Threads.Thread 0; Threads.Thread 1; Threads.Thread 1; Threads.Thread 0;
   Threads.Main; Threads.Main;
   Threads.Thread 0; Threads.Main;
   Threads.Finish 2 (failure "x");
   Threads.Thread 2; Threads.Thread 2; Threads.Thread 1;
   Threads.Thread 0; Threads.Thread 0; Threads.Thread 0].

Definition sample_interleaving_final : Threads.State :=
  Eval vm_compute in
    match
      Threads.exec sample_op sample_interleaving
        (Threads.enter sample_op (Some 7%nat) 10)
    with
    | Some s => s
    | None => Threads.enter sample_op (Some 7%nat) 10
    end.

(** ** The factory functions *)

(** [Operation<HasHndl>] and the constructor of [Pipeline] from an operation
    are declared in a header that is not part of the sources: the type of
    operations and that constructor are the variables of this section.  The
    boolean is the template argument [HasHndl]. *)
Section Aggregation.

Variable Operation : Type.
Variable Pipeline_of : bool -> Operation -> Pipeline.

(** One argument of the variadic [Parallel( operations... )]. *)
Inductive Argument : Type :=
| OperationArg (HasHndl : bool) (operation : Operation)
| PipelineArg (pipeline : Pipeline).

(** [PipesToVec( v, operations... )]: the vector [v] afterwards. *)
Fixpoint PipesToVec (v : list Pipeline) (operations : list Argument)
  : list Pipeline :=
  match operations with
  | [] => v
  | OperationArg HasHndl operation :: others =>
      PipesToVec (v ++ [Pipeline_of HasHndl operation]) others
  | PipelineArg pipeline :: others =>
      PipesToVec (v ++ [pipeline]) others
  end.

(** [Parallel( operations... )]: the operation, and the local vector as
    [Parallel( v )] leaves it. *)
Definition Parallel_of (operations : list Argument) (timeout : Z)
  : ParallelOperation.t * list Pipeline :=
  let v := PipesToVec [] operations in
  Parallel v timeout.

End Aggregation.

Arguments OperationArg {Operation} HasHndl operation.
Arguments PipelineArg {Operation} pipeline.
Arguments PipesToVec {Operation} Pipeline_of v operations.
Arguments Parallel_of {Operation} Pipeline_of operations timeout.

(** ** Sample outcomes *)

(** Four outcomes in the order in which the pipelines finish: the second and
    the fourth succeed. *)
Definition four_outcomes : list XRootDStatus :=
  [failure "a"; XRootDStatus_default; failure "c"; XRootDStatus_default].

(** A pipeline that throws behind two that start. *)
Definition faulty_op : ParallelOperation.t :=
  ParallelOperation.Any
    (fst (Parallel [starting "a"; starting "b";
                    throwing "c" (failure "no")] 30)).

(** The two pipelines are started, the first finishes, and [RunImpl] meets
    the third. *)
Definition faulty_schedule : list ParallelOperation.Event :=
  [ParallelOperation.Advance; ParallelOperation.Advance;
   ParallelOperation.Complete 0 (failure "x")].

Definition faulty_state : ParallelOperation.RunState :=
  Eval vm_compute in
    match
      ParallelOperation.exec faulty_op faulty_schedule
        (ParallelOperation.RunImpl_enter faulty_op (Some 7%nat) 10)
    with
    | Some s => s
    | None => ParallelOperation.RunImpl_enter faulty_op (Some 7%nat) 10
    end.

Definition faulty_next : ParallelOperation.RunState :=
  Eval vm_compute in
    match ParallelOperation.step faulty_op ParallelOperation.Advance
            faulty_state with
    | Some s => s
    | None => faulty_state
    end.

(** [sample_op] run with a null handler. *)
Definition null_handler_final : ParallelOperation.RunState :=
  Eval vm_compute in
    match
      ParallelOperation.exec sample_op sample_schedule
        (ParallelOperation.RunImpl_enter sample_op None 10)
    with
    | Some s => s
    | None => ParallelOperation.RunImpl_enter sample_op None 10
    end.

(** ** Two continuations that overlap *)

(** Two pipelines under `Any`. *)
Definition two_op : ParallelOperation.t :=
  ParallelOperation.Any (fst (Parallel [starting "a"; starting "b"] 30)).

(** The first pipeline finishes with [st1] and the second with [st2]; both
    continuations come back from [policy->Examine] before either enters
    [Handle], and the second is the first to reach the [exchange]. *)
Definition overtaking (st1 st2 : XRootDStatus) : list Threads.Event :=
  [Threads.Main; Threads.Main;
   Threads.Finish 0 st1; Threads.Finish 1 st2;
   Threads.Thread 0; Threads.Thread 1;
   Threads.Thread 1; Threads.Thread 1;
   Threads.Thread 0;
   Threads.Main; Threads.Main;
   Threads.Thread 0; Threads.Thread 1; Threads.Thread 1].

(** The outcomes with which the pipelines finish in a schedule of the
    threads, in order. *)
Fixpoint finished (es : list Threads.Event) : list XRootDStatus :=
  match es with
  | [] => []
  | Threads.Finish _ st :: rest => st :: finished rest
  | _ :: rest => finished rest
  end.

(** ** The threads under `All` *)

(** The continuations that have a failure to hand over and have not reached
    the [exchange] yet. *)
Definition wants (pc : Threads.Pc) : bool :=
  match pc with
  | Threads.Examining st | Threads.Handling st => negb (IsOK st)
  | _ => false
  end.

Definition calling (pc : Threads.Pc) : bool :=
  match pc with
  | Threads.Calling _ _ => true
  | _ => false
  end.

Definition destroy_calling (pc : Threads.Pc) : bool :=
  match pc with
  | Threads.DestroyCalling _ => true
  | _ => false
  end.

(** Under `All` no continuation counts successes, and only failures get to
    [Handle]. *)
Definition all_pc (pc : Threads.Pc) : Prop :=
  match pc with
  | Threads.Counting _ => False
  | Threads.Handling st | Threads.Calling _ st => IsOK st = false
  | _ => True
  end.

(** The invariant of the threads under `All`, with [nfail] the number of
    pipelines that finished with a failure: while the handler is in its slot,
    every one of them is still on its way to the [exchange]; once the slot
    is empty, either a failure took the handler, or the destructor did and
    no pipeline failed.  A thread is in the destructor only when no owner
    is left. *)
Definition all_inv (nfail : nat) (sh : Threads.Shared)
    (thr : list Threads.Pc) : Prop :=
  Ctx.policy (Threads.ctx sh) = PAll
  /\ Forall all_pc thr
  /\ Threads.use_count sh = Threads.count Threads.owns thr
  /\ ((1 <= Threads.count Threads.destroys thr)%nat ->
      Threads.use_count sh = 0%nat)
  /\ match Ctx.handler (Threads.ctx sh) with
     | Some _ =>
         Threads.count wants thr = nfail
         /\ Threads.count calling thr = 0%nat
         /\ Threads.count destroy_calling thr = 0%nat
         /\ Threads.calls sh = []
     | None =>
         ((1 <= nfail)%nat
          /\ Forall (fun c => IsOK (response c) = false) (Threads.calls sh)
          /\ Threads.count destroy_calling thr = 0%nat)
         \/ (nfail = 0%nat
             /\ Threads.use_count sh = 0%nat
             /\ Forall (fun c => response c = XRootDStatus_default)
                       (Threads.calls sh)
             /\ Threads.count calling thr = 0%nat)
     end.

(** Counts over a list of threads split at one thread, by the lemma [split]
    for [Threads.count], and the thread's own share computed. *)
Ltac all_counts split :=
  rewrite !split in *;
  cbn [wants calling destroy_calling Threads.owns Threads.destroys Nat.b2n
       negb Threads.ctx Threads.use_count Threads.calls Ctx.handler
       Ctx.policy] in *.

(** The number of failures in a list of outcomes. *)
Definition count_failures (sts : list XRootDStatus) : nat :=
  List.length (filter (fun st => negb (IsOK st)) sts).

(** [three_op], under the default policy, with the second pipeline failing:
    the continuations overlap, and the third pipeline finishes while the
    failure is on its way to the handler. *)
Definition all_interleaving : list Threads.Event :=
  [Threads.Main; Threads.Main; Threads.Main; Threads.Main;
   Threads.Finish 0 XRootDStatus_default; Threads.Finish 1 (failure "x");
   Threads.Thread 0; Threads.Thread 1;
   Threads.Finish 2 XRootDStatus_default; Threads.Thread 2;
   Threads.Thread 1; Threads.Main;
   Threads.Thread 0; Threads.Thread 2;
   Threads.Thread 1; Threads.Thread 1; Threads.Thread 1].

Definition all_interleaving_final : Threads.State :=
  Eval vm_compute in
    match
      Threads.exec three_op all_interleaving
        (Threads.enter three_op (Some 7%nat) 10)
    with
    | Some s => s
    | None => Threads.enter three_op (Some 7%nat) 10
    end.

(** [faulty_op] to its end: the second pipeline fails as well. *)
Definition faulty_end_schedule : list ParallelOperation.Event :=
  [ParallelOperation.Advance; ParallelOperation.Advance;
   ParallelOperation.Complete 0 (failure "x");
   ParallelOperation.Advance;
   ParallelOperation.Complete 1 (failure "y")].

Definition faulty_end : ParallelOperation.RunState :=
  Eval vm_compute in
    match
      ParallelOperation.exec faulty_op faulty_end_schedule
        (ParallelOperation.RunImpl_enter faulty_op (Some 7%nat) 10)
    with
    | Some s => s
    | None => ParallelOperation.RunImpl_enter faulty_op (Some 7%nat) 10
    end.

(** * Properties *)

(** ** Machine integers *)

Lemma to_size_t_small (z : Z) : is_size_t z -> to_size_t z = z.
Proof.
  unfold is_size_t, to_size_t. intros H. apply Z.mod_small. exact H.
Qed.

Lemma is_size_t_intro (z : Z) :
  (0 <=? z) && (z <? size_t_modulus) = true -> is_size_t z.
Proof.
  unfold is_size_t. intros H. apply andb_true_iff in H. destruct H as [H1 H2].
  apply Z.leb_le in H1. apply Z.ltb_lt in H2. auto.
Qed.

(** ** The gate *)

Lemma Handle_eq (c : Ctx.t) (st : XRootDStatus) :
  Ctx.Handle c st =
    (Ctx.mk None (Ctx.policy c),
     match Ctx.handler c with
     | Some h => [HandleResponse h st]
     | None => []
     end).
Proof.
  unfold Ctx.Handle, Ctx.exchange_handler.
  destruct (Ctx.handler c); reflexivity.
Qed.

Lemma Examine_eq (c : Ctx.t) (st : XRootDStatus) :
  Ctx.Examine c st =
    (Ctx.mk (if fst (PolicyExecutor_Examine (Ctx.policy c) st) then None
             else Ctx.handler c)
            (snd (PolicyExecutor_Examine (Ctx.policy c) st)),
     if fst (PolicyExecutor_Examine (Ctx.policy c) st) then
       match Ctx.handler c with
       | Some h => [HandleResponse h st]
       | None => []
       end
     else []).
Proof.
  unfold Ctx.Examine.
  destruct (PolicyExecutor_Examine (Ctx.policy c) st) as [b p'].
  destruct b; cbn [fst snd].
  - rewrite Handle_eq. reflexivity.
  - reflexivity.
Qed.

(** [Examine] leaves an empty slot empty and makes no call then. *)
Lemma Examine_empty_slot (c : Ctx.t) (st : XRootDStatus) :
  Ctx.handler c = None ->
  Ctx.handler (fst (Ctx.Examine c st)) = None /\ snd (Ctx.Examine c st) = [].
Proof.
  intros H. rewrite Examine_eq. cbn [fst snd Ctx.handler]. rewrite H.
  destruct (fst (PolicyExecutor_Examine (Ctx.policy c) st)); auto.
Qed.

(** With the handler in the slot, [Examine] either keeps it there and is
    silent, or takes it and calls it with the outcome examined. *)
Lemma Examine_full_slot (c : Ctx.t) (st : XRootDStatus) (h : PipelineHandler) :
  Ctx.handler c = Some h ->
  (Ctx.handler (fst (Ctx.Examine c st)) = Some h
   /\ snd (Ctx.Examine c st) = [])
  \/ (Ctx.handler (fst (Ctx.Examine c st)) = None
      /\ snd (Ctx.Examine c st) = [HandleResponse h st]).
Proof.
  intros H. rewrite Examine_eq. cbn [fst snd Ctx.handler]. rewrite H.
  destruct (fst (PolicyExecutor_Examine (Ctx.policy c) st)); auto.
Qed.

Lemma examine_all_app (sts1 sts2 : list XRootDStatus) (c : Ctx.t) :
  examine_all c (sts1 ++ sts2) =
    (fst (examine_all (fst (examine_all c sts1)) sts2),
     snd (examine_all c sts1)
     ++ snd (examine_all (fst (examine_all c sts1)) sts2)).
Proof.
  revert c. induction sts1 as [|st sts1 IH]; intros c; cbn [examine_all app].
  - cbn [fst snd app]. destruct (examine_all c sts2); reflexivity.
  - destruct (Ctx.Examine c st) as [c1 out1].
    rewrite IH.
    destruct (examine_all c1 sts1) as [c2 out2]. cbn [fst snd].
    destruct (examine_all c2 sts2) as [c3 out3]. cbn [fst snd].
    rewrite app_assoc. reflexivity.
Qed.

Lemma examine_all_empty_slot (sts : list XRootDStatus) (c : Ctx.t) :
  Ctx.handler c = None ->
  Ctx.handler (fst (examine_all c sts)) = None
  /\ snd (examine_all c sts) = [].
Proof.
  revert c. induction sts as [|st sts IH]; intros c H; cbn [examine_all].
  - auto.
  - destruct (Examine_empty_slot c st H) as [H1 H2].
    destruct (Ctx.Examine c st) as [c1 out1]. cbn [fst snd] in H1, H2.
    specialize (IH c1 H1). destruct (examine_all c1 sts) as [c2 out2].
    cbn [fst snd] in *. destruct IH as [IH1 IH2]. subst. auto.
Qed.

Lemma examine_all_full_slot (sts : list XRootDStatus) (c : Ctx.t)
    (h : PipelineHandler) :
  Ctx.handler c = Some h ->
  (Ctx.handler (fst (examine_all c sts)) = Some h
   /\ snd (examine_all c sts) = [])
  \/ (Ctx.handler (fst (examine_all c sts)) = None
      /\ exists st, In st sts
                    /\ snd (examine_all c sts) = [HandleResponse h st]).
Proof.
  revert c. induction sts as [|st sts IH]; intros c H; cbn [examine_all].
  - auto.
  - destruct (Examine_full_slot c st h H) as [[H1 H2]|[H1 H2]];
      destruct (Ctx.Examine c st) as [c1 out1]; cbn [fst snd] in H1, H2.
    + specialize (IH c1 H1). destruct (examine_all c1 sts) as [c2 out2].
      cbn [fst snd] in *. subst out1.
      destruct IH as [[IH1 IH2]|[IH1 [st' [Hin IH2]]]].
      * left. auto.
      * right. split; [exact IH1|]. exists st'. split; [right; exact Hin|].
        exact IH2.
    + pose proof (examine_all_empty_slot sts c1 H1) as [E1 E2].
      destruct (examine_all c1 sts) as [c2 out2]. cbn [fst snd] in *.
      right. split; [exact E1|]. exists st. split; [left; reflexivity|].
      subst. reflexivity.
Qed.

(** The calls [delivered] lists are exactly one call of the handler. *)
Lemma delivered_once (sts : list XRootDStatus) (c : Ctx.t)
    (h : PipelineHandler) :
  Ctx.handler c = Some h ->
  exists st, delivered c sts = [HandleResponse h st].
Proof.
  intros H. unfold delivered.
  destruct (examine_all_full_slot sts c h H) as [[H1 H2]|[H1 [st [_ H2]]]];
    destruct (examine_all c sts) as [c' out]; cbn [fst snd] in H1, H2;
    unfold Ctx.destroy; rewrite Handle_eq; cbn [snd]; rewrite H1, H2.
  - exists XRootDStatus_default. reflexivity.
  - exists st. reflexivity.
Qed.

(** ** The owners of the gate *)


Lemma release_fields (s : PO.RunState) :
  PO.use_count (PO.release s) = Nat.pred (PO.use_count s)
  /\ PO.pending (PO.release s) = PO.pending s
  /\ PO.returned (PO.release s) = PO.returned s
  /\ PO.launched (PO.release s) = PO.launched s
  /\ PO.index (PO.release s) = PO.index s
  /\ PO.run_timeout (PO.release s) = PO.run_timeout s.
Proof.
  unfold PO.release. destruct (PO.use_count s) as [|[|n]].
  - cbn. repeat split.
  - destruct (Ctx.destroy (PO.ctx s)). cbn. repeat split.
  - cbn. repeat split.
Qed.

(** While another owner is left, [PO.release] touches neither the gate nor the
    handler. *)
Lemma release_not_last (s : PO.RunState) :
  PO.use_count s <> 1%nat ->
  PO.ctx (PO.release s) = PO.ctx s /\ PO.calls (PO.release s) = PO.calls s.
Proof.
  unfold PO.release. intros H. destruct (PO.use_count s) as [|[|n]].
  - cbn. auto.
  - congruence.
  - cbn. auto.
Qed.

(** The last owner runs the destructor. *)
Lemma release_last (s : PO.RunState) :
  PO.use_count s = 1%nat ->
  PO.ctx (PO.release s) = fst (Ctx.destroy (PO.ctx s))
  /\ PO.calls (PO.release s) = PO.calls s ++ snd (Ctx.destroy (PO.ctx s)).
Proof.
  unfold PO.release. intros H. rewrite H.
  destruct (Ctx.destroy (PO.ctx s)). cbn. auto.
Qed.

Lemma remove_one_length (j : nat) (l : list nat) :
  existsb (Nat.eqb j) l = true ->
  S (List.length (PO.remove_one j l)) = List.length l.
Proof.
  induction l as [|x l IH]; cbn [existsb PO.remove_one List.length].
  - discriminate.
  - destruct (Nat.eqb j x); cbn [orb List.length].
    + reflexivity.
    + intros H. rewrite (IH H). reflexivity.
Qed.

Lemma slot_inv_pre (h : PipelineHandler) (s : PO.RunState) :
  slot_inv h s -> slot_pre h (PO.ctx s) (PO.calls s).
Proof.
  unfold slot_inv, slot_pre. destruct (Ctx.handler (PO.ctx s)).
  - intros (H1 & H2 & _). auto.
  - auto.
Qed.

Lemma release_slot_inv (h : PipelineHandler) (s : PO.RunState) :
  PO.use_count s <> 0%nat ->
  slot_pre h (PO.ctx s) (PO.calls s) ->
  slot_inv h (PO.release s).
Proof.
  intros Hc Hs. unfold slot_inv.
  destruct (Nat.eq_dec (PO.use_count s) 1) as [H1|H1].
  - destruct (release_last s H1) as [E1 E2]. rewrite E1, E2.
    unfold Ctx.destroy. rewrite Handle_eq. cbn [fst snd Ctx.handler].
    unfold slot_pre in Hs. destruct (Ctx.handler (PO.ctx s)).
    + destruct Hs as [-> ->]. exists XRootDStatus_default. reflexivity.
    + destruct Hs as [st ->]. exists st. apply app_nil_r.
  - destruct (release_not_last s H1) as [E1 E2]. rewrite E1, E2.
    unfold slot_pre in Hs. destruct (Ctx.handler (PO.ctx s)).
    + destruct Hs as [-> ->]. repeat split.
      destruct (release_fields s) as [E _]. rewrite E.
      destruct (PO.use_count s) as [|[|n]]; cbn; congruence.
    + exact Hs.
Qed.

Lemma Examine_slot_pre (h : PipelineHandler) (c : Ctx.t) (cs : list Call)
    (st : XRootDStatus) :
  slot_pre h c cs ->
  slot_pre h (fst (Ctx.Examine c st)) (cs ++ snd (Ctx.Examine c st)).
Proof.
  unfold slot_pre. intros H.
  destruct (Ctx.handler c) as [h'|] eqn:E.
  - destruct H as [-> ->].
    destruct (Examine_full_slot c st h E) as [[H1 H2]|[H1 H2]];
      rewrite H1, H2; cbn [app]; eauto.
  - destruct (Examine_empty_slot c st E) as [H1 H2]. rewrite H1, H2.
    rewrite app_nil_r. exact H.
Qed.

Lemma enter_inv (op : PO.t) (h : PipelineHandler) (pipelineTimeout : Z) :
  owners_inv (PO.RunImpl_enter op (Some h) pipelineTimeout)
  /\ slot_inv h (PO.RunImpl_enter op (Some h) pipelineTimeout).
Proof.
  unfold owners_inv, slot_inv, PO.RunImpl_enter. cbn.
  repeat split. discriminate.
Qed.

Lemma step_inv (op : PO.t) (h : PipelineHandler) (e : PO.Event)
    (s s' : PO.RunState) :
  owners_inv s -> slot_inv h s -> PO.step op e s = Some s' ->
  owners_inv s' /\ slot_inv h s'.
Proof.
  intros Ho Hs Hstep. unfold owners_inv in Ho.
  assert (return_case : forall st,
    PO.returned s = None ->
    owners_inv (PO.RunImpl_return st s) /\ slot_inv h (PO.RunImpl_return st s)).
  { intros st Hr. unfold PO.RunImpl_return. split.
    - unfold owners_inv.
      match goal with |- context [PO.release ?x] =>
        destruct (release_fields x) as (E1 & E2 & E3 & _) end.
      rewrite E1, E2, E3. cbn. rewrite Ho, Hr. cbn. reflexivity.
    - apply release_slot_inv; cbn.
      + rewrite Ho, Hr. cbn. discriminate.
      + apply slot_inv_pre. exact Hs. }
  destruct e as [|j st]; cbn [PO.step] in Hstep.
  - unfold PO.RunImpl_step in Hstep.
    destruct (PO.returned s) eqn:Hr; [discriminate|].
    destruct (nth_error (PO.pipelines op) (PO.index s)) as [p|].
    + destruct (Pipeline_Run p).
      * injection Hstep as <-. split.
        -- unfold owners_inv. cbn. rewrite Ho, length_app. cbn. lia.
        -- unfold slot_inv in *. cbn.
           destruct (Ctx.handler (PO.ctx s)); [|exact Hs].
           destruct Hs as (H1 & H2 & _). repeat split; auto.
      * injection Hstep as <-. apply return_case. reflexivity.
      * injection Hstep as <-. apply return_case. reflexivity.
    + injection Hstep as <-. apply return_case. reflexivity.
  - unfold PO.continuation in Hstep.
    destruct (existsb (Nat.eqb j) (PO.pending s)) eqn:Hin; [|discriminate].
    pose proof (remove_one_length j (PO.pending s) Hin) as Hlen.
    pose proof (Examine_slot_pre h (PO.ctx s) (PO.calls s) st (slot_inv_pre h s Hs))
      as Hpre.
    destruct (Ctx.Examine (PO.ctx s) st) as [c out]. cbn [fst snd] in Hpre.
    injection Hstep as <-. split.
    + unfold owners_inv.
      match goal with |- context [PO.release ?x] =>
        destruct (release_fields x) as (E1 & E2 & E3 & _) end.
      rewrite E1, E2, E3. cbn. rewrite Ho. lia.
    + apply release_slot_inv; cbn.
      * rewrite Ho. lia.
      * exact Hpre.
Qed.

Lemma exec_inv (op : PO.t) (h : PipelineHandler) (es : list PO.Event) :
  forall s s',
    owners_inv s -> slot_inv h s -> PO.exec op es s = Some s' ->
    owners_inv s' /\ slot_inv h s'.
Proof.
  induction es as [|e es IH]; intros s s' Ho Hs Hexec; cbn [PO.exec] in Hexec.
  - injection Hexec as <-. auto.
  - destruct (PO.step op e s) as [s1|] eqn:Hstep; [|discriminate].
    destruct (step_inv op h e s s1 Ho Hs Hstep) as [Ho1 Hs1].
    exact (IH s1 s' Ho1 Hs1 Hexec).
Qed.

Lemma quiescent_released (s : PO.RunState) :
  owners_inv s -> PO.quiescent s -> PO.use_count s = 0%nat.
Proof.
  unfold owners_inv, PO.quiescent. intros Ho [Hr Hp]. rewrite Ho, Hp.
  destruct (PO.returned s); [reflexivity|congruence].
Qed.

(** Once the gate is destroyed no event is enabled. *)
Lemma step_after_release (op : PO.t) (e : PO.Event) (s : PO.RunState) :
  owners_inv s -> PO.use_count s = 0%nat -> PO.step op e s = None.
Proof.
  unfold owners_inv. intros Ho H0. rewrite H0 in Ho.
  destruct e as [|j st]; cbn [PO.step].
  - unfold PO.RunImpl_step. destruct (PO.returned s); [reflexivity|].
    cbn in Ho. discriminate.
  - unfold PO.continuation.
    destruct (PO.pending s); cbn [existsb]; [reflexivity|].
    destruct (PO.returned s); cbn in Ho; discriminate.
Qed.

Lemma delivered_nil (c : Ctx.t) : delivered c [] = snd (Ctx.destroy c).
Proof. reflexivity. Qed.

Lemma delivered_cons (c : Ctx.t) (st : XRootDStatus)
    (sts : list XRootDStatus) :
  delivered c (st :: sts) =
    snd (Ctx.Examine c st) ++ delivered (fst (Ctx.Examine c st)) sts.
Proof.
  unfold delivered. cbn [examine_all].
  destruct (Ctx.Examine c st) as [c1 out1]. cbn [fst snd].
  destruct (examine_all c1 sts) as [c2 out2].
  rewrite app_assoc. reflexivity.
Qed.

(** One event, seen from the gate: the outcomes it examined grow by the
    outcome of a [Complete] event, and the destructor runs when the last
    owner goes. *)
Lemma step_gate (op : PO.t) (e : PO.Event) (s s' : PO.RunState) :
  owners_inv s -> PO.step op e s = Some s' ->
  (PO.use_count s' <> 0%nat ->
   PO.ctx s' = fst (examine_all (PO.ctx s) (completions [e]))
   /\ PO.calls s' =
        PO.calls s ++ snd (examine_all (PO.ctx s) (completions [e])))
  /\ (PO.use_count s' = 0%nat ->
      PO.calls s' = PO.calls s ++ delivered (PO.ctx s) (completions [e])).
Proof.
  intros Ho Hstep. unfold owners_inv in Ho.
  assert (release_case : forall x : PO.RunState,
    PO.use_count x <> 0%nat ->
    (PO.use_count (PO.release x) <> 0%nat ->
     PO.ctx (PO.release x) = PO.ctx x /\ PO.calls (PO.release x) = PO.calls x)
    /\ (PO.use_count (PO.release x) = 0%nat ->
        PO.calls (PO.release x) = PO.calls x ++ snd (Ctx.destroy (PO.ctx x)))).
  { intros x Hx. destruct (release_fields x) as (E & _). rewrite E. split.
    - intros H. apply release_not_last. intros H1. rewrite H1 in H. auto.
    - intros H. apply release_last.
      destruct (PO.use_count x) as [|[|n]]; cbn in H; congruence. }
  destruct e as [|j st]; cbn [PO.step] in Hstep.
  - cbn [completions examine_all fst snd]. rewrite delivered_nil.
    unfold PO.RunImpl_step in Hstep.
    destruct (PO.returned s) eqn:Hr; [discriminate|].
    assert (Hx : forall st, PO.use_count
      {| PO.ctx := PO.ctx s; PO.use_count := PO.use_count s;
         PO.calls := PO.calls s; PO.run_timeout := PO.run_timeout s;
         PO.index := PO.index s; PO.launched := PO.launched s;
         PO.pending := PO.pending s; PO.returned := Some st |} <> 0%nat).
    { intros st. cbn. rewrite Ho. cbn. discriminate. }
    destruct (nth_error (PO.pipelines op) (PO.index s)) as [p|];
      [destruct (Pipeline_Run p)|]; injection Hstep as <-;
      try (unfold PO.RunImpl_return;
           match goal with |- context [PO.release ?x] =>
             destruct (release_case x (Hx _)) as [R1 R2] end;
           cbn in R1, R2; rewrite app_nil_r; split; assumption).
    cbn. rewrite app_nil_r. split; [auto|discriminate].
  - cbn [completions examine_all]. rewrite delivered_cons, delivered_nil.
    unfold PO.continuation in Hstep.
    destruct (existsb (Nat.eqb j) (PO.pending s)) eqn:Hin; [|discriminate].
    destruct (Ctx.Examine (PO.ctx s) st) as [c out]. cbn [fst snd].
    injection Hstep as <-.
    match goal with |- context [PO.release ?x] =>
      assert (Hx : PO.use_count x <> 0%nat) end.
    { cbn. rewrite Ho. pose proof (remove_one_length j _ Hin). lia. }
    match goal with |- context [PO.release ?x] =>
      destruct (release_case x Hx) as [R1 R2] end.
    cbn in R1, R2. rewrite app_nil_r, app_assoc. split; assumption.
Qed.

Lemma exec_gate (op : PO.t) (h : PipelineHandler) (es : list PO.Event) :
  forall s s',
    owners_inv s -> slot_inv h s -> PO.use_count s <> 0%nat ->
    PO.exec op es s = Some s' ->
    (PO.use_count s' <> 0%nat ->
     PO.ctx s' = fst (examine_all (PO.ctx s) (completions es))
     /\ PO.calls s' =
          PO.calls s ++ snd (examine_all (PO.ctx s) (completions es)))
    /\ (PO.use_count s' = 0%nat ->
        PO.calls s' = PO.calls s ++ delivered (PO.ctx s) (completions es)).
Proof.
  induction es as [|e es IH]; intros s s' Ho Hs Hc Hexec; cbn [PO.exec] in Hexec.
  - injection Hexec as <-. cbn [completions examine_all fst snd].
    rewrite app_nil_r. split; [auto|congruence].
  - destruct (PO.step op e s) as [s1|] eqn:Hstep; [|discriminate].
    destruct (step_inv op h e s s1 Ho Hs Hstep) as [Ho1 Hs1].
    destruct (step_gate op e s s1 Ho Hstep) as [G1 G2].
    assert (Hsplit : completions (e :: es) = completions [e] ++ completions es).
    { destruct e; reflexivity. }
    destruct (Nat.eq_dec (PO.use_count s1) 0) as [H0|H0].
    + destruct es as [|e' es]; cbn [PO.exec] in Hexec.
      * injection Hexec as <-. rewrite Hsplit. cbn [completions].
        rewrite app_nil_r. split; [congruence|auto].
      * rewrite (step_after_release op e' s1 Ho1 H0) in Hexec. discriminate.
    + destruct (G1 H0) as [Gc Gl].
      destruct (IH s1 s' Ho1 Hs1 H0 Hexec) as [I1 I2].
      rewrite Hsplit. split.
      * intros H. destruct (I1 H) as [Ic Il].
        rewrite examine_all_app. cbn [fst snd]. rewrite <- Gc.
        split; [exact Ic|]. rewrite Il, Gl, app_assoc. reflexivity.
      * intros H. rewrite (I2 H), Gl, <- app_assoc. f_equal.
        unfold delivered. rewrite examine_all_app, <- Gc.
        destruct (examine_all (PO.ctx s1) (completions es)) as [c2 out2].
        cbn [fst snd]. rewrite app_assoc. reflexivity.
Qed.

Lemma gate_of_enter (op : PO.t) (h : PipelineHandler) (pipelineTimeout : Z) :
  PO.ctx (PO.RunImpl_enter op (Some h) pipelineTimeout) = gate_of op h.
Proof. reflexivity. Qed.

(** What the handler has received when an activation is over is what
    [delivered] lists for the outcomes of the pipelines in the order in which
    they finished. *)
Theorem activation_delivers (op : PO.t) (h : PipelineHandler)
    (pipelineTimeout : Z) (es : list PO.Event) (s : PO.RunState) :
  PO.exec op es (PO.RunImpl_enter op (Some h) pipelineTimeout) = Some s ->
  PO.quiescent s ->
  PO.calls s = delivered (gate_of op h) (completions es).
Proof.
  intros Hexec Hq.
  destruct (enter_inv op h pipelineTimeout) as [Ho Hs].
  destruct (exec_inv op h es _ s Ho Hs Hexec) as [Ho' _].
  destruct (exec_gate op h es _ s Ho Hs (ltac:(cbn; discriminate)) Hexec)
    as [_ G].
  rewrite (G (quiescent_released s Ho' Hq)). reflexivity.
Qed.

(** While the gate has an owner, the gate and the calls made are those of
    [examine_all] on the outcomes seen so far. *)
Theorem activation_examines (op : PO.t) (h : PipelineHandler)
    (pipelineTimeout : Z) (es : list PO.Event) (s : PO.RunState) :
  PO.exec op es (PO.RunImpl_enter op (Some h) pipelineTimeout) = Some s ->
  PO.use_count s <> 0%nat ->
  examine_all (gate_of op h) (completions es) = (PO.ctx s, PO.calls s).
Proof.
  intros Hexec Hc.
  destruct (enter_inv op h pipelineTimeout) as [Ho Hs].
  destruct (exec_gate op h es _ s Ho Hs (ltac:(cbn; discriminate)) Hexec)
    as [G _].
  destruct (G Hc) as [G1 G2]. rewrite gate_of_enter in G1, G2.
  cbn [PO.calls PO.RunImpl_enter app] in G2.
  rewrite G1, G2. destruct (examine_all (gate_of op h) (completions es)).
  reflexivity.
Qed.

(** ** The aggregate status *)

Lemma examine_all_decided (sts : list XRootDStatus) (p : PolicyExecutor)
    (h : PipelineHandler) :
  snd (examine_all (Ctx.mk (Some h) p) sts) =
    match first_decided p sts with
    | Some st => [HandleResponse h st]
    | None => []
    end
  /\ Ctx.handler (fst (examine_all (Ctx.mk (Some h) p) sts)) =
       match first_decided p sts with
       | Some _ => None
       | None => Some h
       end.
Proof.
  revert p. induction sts as [|st sts IH]; intros p;
    cbn [examine_all first_decided].
  - auto.
  - rewrite Examine_eq. cbn [Ctx.policy Ctx.handler].
    destruct (PolicyExecutor_Examine p st) as [b p']. cbn [fst snd].
    destruct b.
    + pose proof (examine_all_empty_slot sts (Ctx.mk None p') eq_refl)
        as [E1 E2].
      destruct (examine_all (Ctx.mk None p') sts) as [c2 out2].
      cbn [fst snd] in *. subst. auto.
    + specialize (IH p').
      destruct (examine_all (Ctx.mk (Some h) p') sts) as [c2 out2].
      cbn [fst snd app] in *. exact IH.
Qed.

Lemma delivered_aggregate (sts : list XRootDStatus) (p : PolicyExecutor)
    (h : PipelineHandler) :
  delivered (Ctx.mk (Some h) p) sts = [HandleResponse h (aggregate p sts)].
Proof.
  unfold delivered, aggregate.
  destruct (examine_all_decided sts p h) as [E1 E2].
  destruct (examine_all (Ctx.mk (Some h) p) sts) as [c out].
  cbn [fst snd] in E1, E2. unfold Ctx.destroy. rewrite Handle_eq, E1, E2.
  cbn [snd]. destruct (first_decided p sts); reflexivity.
Qed.

Lemma first_decided_app_none (sts1 sts2 : list XRootDStatus)
    (p : PolicyExecutor) :
  first_decided p sts1 = None ->
  first_decided p (sts1 ++ sts2) = first_decided (policy_after p sts1) sts2.
Proof.
  revert p. induction sts1 as [|st sts1 IH]; intros p H;
    cbn [first_decided app policy_after] in *.
  - reflexivity.
  - destruct (PolicyExecutor_Examine p st) as [b p']. cbn [snd].
    destruct b; [discriminate|]. apply IH. exact H.
Qed.

Lemma first_decided_app_some (sts1 sts2 : list XRootDStatus)
    (p : PolicyExecutor) (st : XRootDStatus) :
  first_decided p sts1 = Some st ->
  first_decided p (sts1 ++ sts2) = Some st.
Proof.
  revert p. induction sts1 as [|st1 sts1 IH]; intros p H;
    cbn [first_decided app] in *.
  - discriminate.
  - destruct (PolicyExecutor_Examine p st1) as [b p'].
    destruct b; [exact H|]. apply IH. exact H.
Qed.

Lemma decisions_app (sts1 sts2 : list XRootDStatus) (p : PolicyExecutor) :
  decisions p (sts1 ++ sts2) =
    decisions p sts1 ++ decisions (policy_after p sts1) sts2.
Proof.
  revert p. induction sts1 as [|st sts1 IH]; intros p;
    cbn [decisions app policy_after].
  - reflexivity.
  - destruct (PolicyExecutor_Examine p st) as [b p']. cbn [snd app].
    rewrite IH. reflexivity.
Qed.

Lemma first_decided_decisions (sts : list XRootDStatus) (p : PolicyExecutor) :
  decisions p sts = repeat false (List.length sts) ->
  first_decided p sts = None.
Proof.
  revert p. induction sts as [|st sts IH]; intros p H;
    cbn [decisions first_decided List.length repeat] in *.
  - reflexivity.
  - destruct (PolicyExecutor_Examine p st) as [b p'].
    injection H as -> H. apply IH. exact H.
Qed.

(** ** The counters of the policies after a run *)

Lemma successes_cons (st : XRootDStatus) (sts : list XRootDStatus) :
  successes (st :: sts) = (if IsOK st then 1 else 0) + successes sts.
Proof.
  unfold successes. cbn [filter]. destruct (IsOK st); cbn [List.length]; lia.
Qed.

Lemma failures_cons (st : XRootDStatus) (sts : list XRootDStatus) :
  failures (st :: sts) = (if IsOK st then 0 else 1) + failures sts.
Proof.
  unfold failures. cbn [filter]. destruct (IsOK st); cbn [negb List.length]; lia.
Qed.

Lemma successes_bounds (sts : list XRootDStatus) :
  0 <= successes sts <= Z.of_nat (List.length sts).
Proof.
  induction sts as [|st sts IH].
  - cbn. lia.
  - rewrite successes_cons. cbn [List.length]. destruct (IsOK st); lia.
Qed.

Lemma successes_failures (sts : list XRootDStatus) :
  successes sts + failures sts = Z.of_nat (List.length sts).
Proof.
  induction sts as [|st sts IH].
  - reflexivity.
  - rewrite successes_cons, failures_cons. cbn [List.length].
    destruct (IsOK st); lia.
Qed.

Lemma AnyPolicy_after (sts : list XRootDStatus) (c : Z) :
  is_size_t c -> Z.of_nat (List.length sts) <= c ->
  policy_after (PAny (AnyPolicy.mk c)) sts =
    PAny (AnyPolicy.mk (c - Z.of_nat (List.length sts))).
Proof.
  revert c. induction sts as [|st sts IH]; intros c Hc Hlen;
    cbn [policy_after List.length] in *.
  - f_equal. f_equal. lia.
  - cbn [PolicyExecutor_Examine]. unfold AnyPolicy.Examine, fetch_sub.
    cbn [AnyPolicy.cnt].
    assert (E : to_size_t (c - 1) = c - 1).
    { apply to_size_t_small. unfold is_size_t in *. lia. }
    rewrite E.
    assert (R : snd (let (b, q') :=
                  if IsOK st then (true, AnyPolicy.mk (c - 1))
                  else if c =? 1 then (true, AnyPolicy.mk (c - 1))
                  else (false, AnyPolicy.mk (c - 1)) in (b, PAny q'))
                = PAny (AnyPolicy.mk (c - 1))).
    { destruct (IsOK st); [reflexivity|]. destruct (c =? 1); reflexivity. }
    rewrite R, IH.
    + f_equal. f_equal. lia.
    + unfold is_size_t in *. lia.
    + lia.
Qed.

Lemma AtLeastPolicy_after (sts : list XRootDStatus) (c k : Z) :
  is_size_t c -> Z.of_nat (List.length sts) <= c ->
  policy_after (PAtLeast (AtLeastPolicy.mk c k)) sts =
    PAtLeast (AtLeastPolicy.mk (c - Z.of_nat (List.length sts)) k).
Proof.
  revert c. induction sts as [|st sts IH]; intros c Hc Hlen;
    cbn [policy_after List.length] in *.
  - f_equal. f_equal. lia.
  - cbn [PolicyExecutor_Examine]. unfold AtLeastPolicy.Examine, fetch_sub.
    cbn [AtLeastPolicy.cnt AtLeastPolicy.threshold].
    assert (E : to_size_t (c - 1) = c - 1).
    { apply to_size_t_small. unfold is_size_t in *. lia. }
    rewrite E.
    assert (R : snd (let (b, q') :=
                  if IsOK st then (false, AtLeastPolicy.mk (c - 1) k)
                  else if c =? k then (true, AtLeastPolicy.mk (c - 1) k)
                  else (false, AtLeastPolicy.mk (c - 1) k) in (b, PAtLeast q'))
                = PAtLeast (AtLeastPolicy.mk (c - 1) k)).
    { destruct (IsOK st); [reflexivity|]. destruct (c =? k); reflexivity. }
    rewrite R, IH.
    + f_equal. f_equal. lia.
    + unfold is_size_t in *. lia.
    + lia.
Qed.

Lemma SomePolicy_after (sts : list XRootDStatus) (c s k : Z) :
  is_size_t c -> Z.of_nat (List.length sts) <= c ->
  0 <= s -> s + Z.of_nat (List.length sts) < size_t_modulus ->
  policy_after (PSome (SomePolicy.mk c s k)) sts =
    PSome (SomePolicy.mk (c - Z.of_nat (List.length sts))
                         (s + successes sts) k).
Proof.
  revert c s. induction sts as [|st sts IH]; intros c s Hc Hlen Hs Hb;
    cbn [policy_after List.length] in *.
  - unfold successes. cbn. f_equal. f_equal; lia.
  - cbn [PolicyExecutor_Examine]. unfold SomePolicy.Examine, fetch_sub, fetch_add.
    cbn [SomePolicy.cnt SomePolicy.succeeded SomePolicy.threshold].
    assert (E : to_size_t (c - 1) = c - 1).
    { apply to_size_t_small. unfold is_size_t in *. lia. }
    assert (E' : to_size_t (s + 1) = s + 1).
    { apply to_size_t_small. unfold is_size_t in *. lia. }
    rewrite E, E', successes_cons.
    destruct (IsOK st).
    + assert (R : snd (let (b, q') :=
                    if s + 1 =? k then (true, SomePolicy.mk (c - 1) (s + 1) k)
                    else (false, SomePolicy.mk (c - 1) (s + 1) k)
                    in (b, PSome q'))
                  = PSome (SomePolicy.mk (c - 1) (s + 1) k)).
      { destruct (s + 1 =? k); reflexivity. }
      rewrite R, IH; try (unfold is_size_t in *; lia).
      f_equal. f_equal; lia.
    + assert (R : snd (let (b, q') :=
                    if c =? k then (true, SomePolicy.mk (c - 1) s k)
                    else (false, SomePolicy.mk (c - 1) s k)
                    in (b, PSome q'))
                  = PSome (SomePolicy.mk (c - 1) s k)).
      { destruct (c =? k); reflexivity. }
      rewrite R, IH; try (unfold is_size_t in *; lia).
      f_equal. f_equal; lia.
Qed.

(** ** Every activation can be brought to its end *)

Lemma exec_app (op : PO.t) (es1 es2 : list PO.Event) :
  forall s,
    PO.exec op (es1 ++ es2) s =
      match PO.exec op es1 s with
      | Some s' => PO.exec op es2 s'
      | None => None
      end.
Proof.
  induction es1 as [|e es1 IH]; intros s; cbn [PO.exec app].
  - reflexivity.
  - destruct (PO.step op e s); [apply IH|reflexivity].
Qed.

(** Whatever state an activation is in, letting [RunImpl] run on and the
    running pipelines finish brings it to its end. *)
Lemma can_finish (op : PO.t) (n : nat) :
  forall s,
    (remaining_events op s <= n)%nat ->
    exists es s', PO.exec op es s = Some s' /\ PO.quiescent s'.
Proof.
  induction n as [|n IH]; intros s Hw; unfold remaining_events in Hw.
  - exists [], s. split; [reflexivity|]. unfold PO.quiescent.
    destruct (PO.returned s); [|lia].
    split; [discriminate|]. destruct (PO.pending s); [reflexivity|].
    cbn in Hw. lia.
  - destruct (PO.returned s) as [st|] eqn:Hret.
    + destruct (PO.pending s) as [|j rest] eqn:Hpend.
      * exists [], s. split; [reflexivity|]. unfold PO.quiescent.
        rewrite Hret, Hpend. split; [discriminate|reflexivity].
      * assert (Hstep : exists s1,
                  PO.step op (PO.Complete j XRootDStatus_default) s = Some s1
                  /\ (remaining_events op s1 <= n)%nat).
        { cbn [PO.step]. unfold PO.continuation. rewrite Hpend.
          cbn [existsb]. rewrite Nat.eqb_refl. cbn [orb].
          destruct (Ctx.Examine (PO.ctx s) XRootDStatus_default) as [c out].
          eexists. split; [reflexivity|]. unfold remaining_events.
          match goal with |- context [PO.release ?x] =>
            destruct (release_fields x) as (_ & E2 & E3 & _) end.
          rewrite E2, E3. cbn [PO.pending PO.returned PO.remove_one].
          rewrite Nat.eqb_refl, Hret. cbn [List.length] in Hw. lia. }
        destruct Hstep as (s1 & Hs1 & Hw1).
        destruct (IH s1 Hw1) as (es & s' & Hexec & Hq).
        exists (PO.Complete j XRootDStatus_default :: es), s'.
        cbn [PO.exec]. rewrite Hs1. auto.
    + assert (Hstep : exists s1,
                PO.step op PO.Advance s = Some s1
                /\ (remaining_events op s1 <= n)%nat).
      { cbn [PO.step]. unfold PO.RunImpl_step. rewrite Hret.
        assert (Hreturn : forall st,
                  (remaining_events op (PO.RunImpl_return st s) <= n)%nat).
        { intros st. unfold remaining_events, PO.RunImpl_return.
          match goal with |- context [PO.release ?x] =>
            destruct (release_fields x) as (_ & E2 & E3 & _) end.
          rewrite E2, E3. cbn [PO.pending PO.returned]. lia. }
        destruct (nth_error (PO.pipelines op) (PO.index s)) as [p|] eqn:Hp.
        - destruct (Pipeline_Run p); eexists; (split; [reflexivity|]);
            try apply Hreturn.
          unfold remaining_events. cbn [PO.returned PO.index PO.pending].
          rewrite length_app. cbn [List.length].
          assert (PO.index s < List.length (PO.pipelines op))%nat.
          { apply nth_error_Some. congruence. }
          lia.
        - eexists. split; [reflexivity|]. apply Hreturn. }
      destruct Hstep as (s1 & Hs1 & Hw1).
      destruct (IH s1 Hw1) as (es & s' & Hexec & Hq).
      exists (PO.Advance :: es), s'. cbn [PO.exec]. rewrite Hs1. auto.
Qed.

(** ** Exactly one call of the handler *)

(** C1.  For every activation (any pipelines, among them those with one task
    or more, any policy, selected or defaulted, any thresholds and timeouts)
    and every schedule of launches, completions and the return of [RunImpl]:
    the handler is never called more than once; once [RunImpl] has returned
    and every started pipeline has finished, so that the last owner of the
    gate has released it, the handler has been called exactly once, with one
    status; and every run can be continued to such an end. *)
Theorem handler_invoked_exactly_once (op : PO.t) (h : PipelineHandler)
    (pipelineTimeout : Z) (es : list PO.Event) (s : PO.RunState) :
  PO.exec op es (PO.RunImpl_enter op (Some h) pipelineTimeout) = Some s ->
  (List.length (PO.calls s) <= 1)%nat
  /\ (PO.quiescent s -> exists st, PO.calls s = [HandleResponse h st])
  /\ (exists es' s',
        PO.exec op (es ++ es') (PO.RunImpl_enter op (Some h) pipelineTimeout)
          = Some s'
        /\ PO.quiescent s').
Proof.
  intros Hexec.
  destruct (enter_inv op h pipelineTimeout) as [Ho Hs].
  destruct (exec_inv op h es _ s Ho Hs Hexec) as [Ho' Hs'].
  unfold slot_inv in Hs'. split; [|split].
  - destruct (Ctx.handler (PO.ctx s)).
    + destruct Hs' as (_ & -> & _). cbn. lia.
    + destruct Hs' as [st ->]. cbn. lia.
  - intros Hq. pose proof (quiescent_released s Ho' Hq) as H0.
    destruct (Ctx.handler (PO.ctx s)).
    + destruct Hs' as (_ & _ & Hn). contradiction.
    + exact Hs'.
  - destruct (can_finish op _ s (Nat.le_refl _)) as (es' & s' & He & Hq).
    exists es', s'. rewrite exec_app, Hexec. auto.
Qed.

Lemma sample_run :
  PO.exec sample_op sample_schedule
    (PO.RunImpl_enter sample_op (Some 7%nat) 10) = Some sample_final.
Proof. vm_compute. reflexivity. Qed.

Lemma sample_final_quiescent : PO.quiescent sample_final.
Proof. split; [discriminate|reflexivity]. Qed.

Lemma handler_invoked_exactly_once_witness :
  PO.exec sample_op sample_schedule
    (PO.RunImpl_enter sample_op (Some 7%nat) 10) = Some sample_final
  /\ PO.quiescent sample_final
  /\ exists st, PO.calls sample_final = [HandleResponse 7%nat st].
Proof.
  split; [exact sample_run|]. split; [exact sample_final_quiescent|].
  exact (proj1 (proj2 (handler_invoked_exactly_once sample_op 7%nat 10
                         sample_schedule sample_final sample_run))
               sample_final_quiescent).
Defined.

(** ** The launch loop *)

Lemma exec_snoc (op : PO.t) (es : list PO.Event) (e : PO.Event) :
  forall s,
    PO.exec op (es ++ [e]) s =
      match PO.exec op es s with
      | Some s' => PO.step op e s'
      | None => None
      end.
Proof.
  induction es as [|e' es IH]; intros s; cbn [PO.exec app].
  - destruct (PO.step op e s); reflexivity.
  - destruct (PO.step op e' s); [apply IH|reflexivity].
Qed.

Lemma completions_snoc (es : list PO.Event) (e : PO.Event) :
  completions (es ++ [e]) = completions es ++ completions [e].
Proof.
  induction es as [|e' es IH]; cbn [completions app].
  - destruct e; reflexivity.
  - destruct e'; cbn [completions app]; rewrite IH; reflexivity.
Qed.

Lemma before_first_throw (ps : list Pipeline) (i : nat) :
  (i < first_throw ps)%nat ->
  exists p, nth_error ps i = Some p /\ Pipeline_Run p = Starts.
Proof.
  revert i. induction ps as [|p ps IH]; intros i H; cbn [first_throw] in H.
  - lia.
  - destruct (Pipeline_Run p) eqn:E; try lia.
    destruct i as [|i]; cbn [nth_error].
    + exists p. auto.
    + apply IH. lia.
Qed.

Lemma at_first_throw (ps : list Pipeline) :
  match nth_error ps (first_throw ps) with
  | None => first_throw ps = List.length ps
            /\ launch_status ps = XRootDStatus_default
  | Some p =>
      match Pipeline_Run p with
      | Starts => False
      | ThrowsPipelineException err => launch_status ps = err
      | ThrowsException what => launch_status ps = mkStatus stError what
      end
  end.
Proof.
  induction ps as [|p ps IH]; cbn [first_throw launch_status].
  - cbn. auto.
  - destruct (Pipeline_Run p) eqn:E; cbn [nth_error].
    + destruct (nth_error ps (first_throw ps)).
      * exact IH.
      * destruct IH as [-> ->]. auto.
    + rewrite E. reflexivity.
    + rewrite E. reflexivity.
Qed.

Lemma first_throw_le (ps : list Pipeline) :
  (first_throw ps <= List.length ps)%nat.
Proof.
  induction ps as [|p ps IH]; cbn [first_throw List.length].
  - lia.
  - destruct (Pipeline_Run p); lia.
Qed.

Lemma all_start_launch (ps : list Pipeline) :
  all_start ps = true ->
  first_throw ps = List.length ps /\ launch_status ps = XRootDStatus_default.
Proof.
  unfold all_start.
  induction ps as [|p ps IH]; cbn [forallb first_throw launch_status List.length].
  - auto.
  - destruct (Pipeline_Run p); cbn [andb]; try discriminate.
    intros H. destruct (IH H) as [-> ->]. auto.
Qed.

Lemma release_launch_fields (s : PO.RunState) :
  PO.run_timeout (PO.release s) = PO.run_timeout s
  /\ PO.index (PO.release s) = PO.index s
  /\ PO.launched (PO.release s) = PO.launched s
  /\ PO.pending (PO.release s) = PO.pending s
  /\ PO.returned (PO.release s) = PO.returned s.
Proof.
  destruct (release_fields s) as (_ & E2 & E3 & E4 & E5 & E6). auto.
Qed.

Lemma step_launch_inv (op : PO.t) (pipelineTimeout : Z)
    (es : list PO.Event) (e : PO.Event) (s s' : PO.RunState) :
  launch_inv op pipelineTimeout es s -> PO.step op e s = Some s' ->
  launch_inv op pipelineTimeout (es ++ [e]) s'.
Proof.
  unfold launch_inv. intros (Ht & Hi & Hl & Hc & Hr) Hstep.
  rewrite completions_snoc, length_app.
  assert (return_case : forall st,
    PO.returned s = None ->
    PO.index s = first_throw (PO.pipelines op) ->
    st = launch_status (PO.pipelines op) ->
    let s1 := PO.RunImpl_return st s in
    PO.run_timeout s1 =
      (if pipelineTimeout <? PO.timeout op then pipelineTimeout
       else PO.timeout op)
    /\ (PO.index s1 <= first_throw (PO.pipelines op))%nat
    /\ PO.launched s1 =
         map (fun i => (i, PO.run_timeout s1)) (seq 0 (PO.index s1))
    /\ (List.length (completions es) + 0 + List.length (PO.pending s1)
        = PO.index s1)%nat
    /\ (forall st',
          PO.returned s1 = Some st' ->
          PO.index s1 = first_throw (PO.pipelines op)
          /\ st' = launch_status (PO.pipelines op))).
  { intros st Hnone Hidx Hst. unfold PO.RunImpl_return. cbn zeta.
    match goal with |- context [PO.release ?x] =>
      destruct (release_launch_fields x) as (E1 & E2 & E3 & E4 & E5) end.
    rewrite E1, E2, E3, E4, E5. cbn.
    repeat split; try assumption; try lia.
    congruence. }
  destruct e as [|j st]; cbn [PO.step completions List.length] in *.
  - unfold PO.RunImpl_step in Hstep.
    destruct (PO.returned s) eqn:Hret; [discriminate|].
    destruct (Nat.eq_dec (PO.index s) (first_throw (PO.pipelines op)))
      as [Heq|Hne].
    + pose proof (at_first_throw (PO.pipelines op)) as Hat.
      rewrite <- Heq in Hat.
      destruct (nth_error (PO.pipelines op) (PO.index s)) as [p|].
      * destruct (Pipeline_Run p); [contradiction| |];
          injection Hstep as <-; apply return_case; auto.
      * destruct Hat as [_ Hat]. injection Hstep as <-.
        apply return_case; auto.
    + destruct (before_first_throw (PO.pipelines op) (PO.index s))
        as (p & Hp & Hrun); [lia|].
      rewrite Hp, Hrun in Hstep. injection Hstep as <-.
      cbn [PO.run_timeout PO.index PO.launched PO.pending PO.returned
           List.length].
      repeat split; try assumption; try lia.
      * rewrite Hl, seq_S, map_app. reflexivity.
      * rewrite length_app. cbn. lia.
      * discriminate.
      * discriminate.
  - unfold PO.continuation in Hstep.
    destruct (existsb (Nat.eqb j) (PO.pending s)) eqn:Hin; [|discriminate].
    pose proof (remove_one_length j _ Hin) as Hlen.
    destruct (Ctx.Examine (PO.ctx s) st) as [c out].
    injection Hstep as <-.
    match goal with |- context [PO.release ?x] =>
      destruct (release_launch_fields x) as (E1 & E2 & E3 & E4 & E5) end.
    rewrite E1, E2, E3, E4, E5. cbn.
    split; [assumption|]. split; [assumption|]. split; [assumption|].
    split; [lia|]. exact Hr.
Qed.

Lemma exec_launch_inv (op : PO.t) (h : option PipelineHandler)
    (pipelineTimeout : Z) (es : list PO.Event) :
  forall s,
    PO.exec op es (PO.RunImpl_enter op h pipelineTimeout) = Some s ->
    launch_inv op pipelineTimeout es s.
Proof.
  induction es as [|e es IH] using rev_ind; intros s Hexec.
  - cbn in Hexec. injection Hexec as <-. unfold launch_inv. cbn.
    repeat split; try lia. discriminate. discriminate.
  - rewrite exec_snoc in Hexec.
    destruct (PO.exec op es (PO.RunImpl_enter op h pipelineTimeout))
      as [s1|] eqn:E; [|discriminate].
    exact (step_launch_inv op pipelineTimeout es e s1 s (IH s1 eq_refl) Hexec).
Qed.

(** ** The `Some` policy *)

Lemma successes_app (sts1 sts2 : list XRootDStatus) :
  successes (sts1 ++ sts2) = successes sts1 + successes sts2.
Proof.
  unfold successes. rewrite filter_app, length_app. lia.
Qed.

(** C5.  A `Some` policy made for [n] pipelines with threshold [k] has, when
    [pre] lists the outcomes it examined so far, [n - |pre|] in its counter
    of pipelines still pending and the number of successes among [pre] in
    its success counter.  Its next [Examine] answers, for a success, whether
    the success counter has just reached [k] (this is the [k]-th success),
    and, for a failure, whether the number of pipelines still pending before
    the decrement of this call is [k]. *)
Theorem SomePolicy_Examine_decision (n k : Z) (pre : list XRootDStatus)
    (st : XRootDStatus) :
  is_size_t n -> Z.of_nat (List.length pre) < n ->
  policy_after (PSome (SomePolicy.new n k)) pre =
    PSome (SomePolicy.mk (n - Z.of_nat (List.length pre)) (successes pre) k)
  /\ SomePolicy.Examine
       (SomePolicy.mk (n - Z.of_nat (List.length pre)) (successes pre) k) st =
     (if IsOK st then successes pre + 1 =? k
      else n - Z.of_nat (List.length pre) =? k,
      SomePolicy.mk (n - Z.of_nat (List.length pre) - 1)
                    (successes (pre ++ [st])) k).
Proof.
  intros Hn Hlen. pose proof (successes_bounds pre) as Hs.
  unfold is_size_t in Hn. split.
  - unfold SomePolicy.new. rewrite SomePolicy_after; try lia.
    + reflexivity.
    + exact Hn.
  - unfold SomePolicy.Examine, fetch_sub, fetch_add.
    cbn [SomePolicy.cnt SomePolicy.succeeded SomePolicy.threshold].
    rewrite successes_app, successes_cons.
    change (successes []) with 0.
    rewrite !to_size_t_small by (unfold is_size_t; lia).
    destruct (IsOK st); rewrite ?Z.add_0_r.
    + destruct (successes pre + 1 =? k); reflexivity.
    + destruct (n - Z.of_nat (List.length pre) =? k); reflexivity.
Qed.

Lemma SomePolicy_Examine_decision_witness :
  policy_after (PSome (SomePolicy.new 4 2))
               [failure "a"; XRootDStatus_default] =
    PSome (SomePolicy.mk 2 1 2)
  /\ SomePolicy.Examine (SomePolicy.mk 2 1 2) XRootDStatus_default =
       (true, SomePolicy.mk 1 2 2).
Proof.
  exact (SomePolicy_Examine_decision 4 2 [failure "a"; XRootDStatus_default]
           XRootDStatus_default
           (is_size_t_intro 4 eq_refl) eq_refl).
Defined.

(** ** The `Any` policy *)

Lemma AnyPolicy_Examine_eq (c : Z) (st : XRootDStatus) :
  is_size_t c -> 0 < c ->
  AnyPolicy.Examine (AnyPolicy.mk c) st =
    (IsOK st || (c =? 1), AnyPolicy.mk (c - 1)).
Proof.
  intros Hc Hpos. unfold AnyPolicy.Examine, fetch_sub. cbn [AnyPolicy.cnt].
  rewrite to_size_t_small by (unfold is_size_t in *; lia).
  destruct (IsOK st); [reflexivity|]. destruct (c =? 1); reflexivity.
Qed.

Lemma AnyPolicy_decisions_fail (sts : list XRootDStatus) (c : Z) :
  all_fail sts = true -> is_size_t c -> Z.of_nat (List.length sts) < c ->
  decisions (PAny (AnyPolicy.mk c)) sts = repeat false (List.length sts).
Proof.
  unfold all_fail. revert c.
  induction sts as [|st sts IH]; intros c Hf Hc Hlen;
    cbn [decisions forallb List.length repeat] in *.
  - reflexivity.
  - apply andb_true_iff in Hf. destruct Hf as [Hst Hf].
    apply negb_true_iff in Hst.
    cbn [PolicyExecutor_Examine].
    rewrite AnyPolicy_Examine_eq by (unfold is_size_t in *; lia).
    rewrite Hst. cbn [orb].
    assert (E : (c =? 1) = false) by (apply Z.eqb_neq; lia).
    rewrite E. f_equal. apply IH; [exact Hf| |]; unfold is_size_t in *; lia.
Qed.

(** When all [n] pipelines fail, `Any` decides on the last outcome only, and
    the handler receives that outcome. *)
Lemma AnyPolicy_all_fail (n : Z) (pre : list XRootDStatus) (st : XRootDStatus)
    (h : PipelineHandler) :
  is_size_t n -> all_fail (pre ++ [st]) = true ->
  Z.of_nat (List.length pre) + 1 = n ->
  decisions (PAny (AnyPolicy.new n)) (pre ++ [st]) =
    repeat false (List.length pre) ++ [true]
  /\ delivered (Ctx.mk (Some h) (PAny (AnyPolicy.new n))) (pre ++ [st]) =
       [HandleResponse h st].
Proof.
  intros Hn Hf Hlen. unfold all_fail in Hf. rewrite forallb_app in Hf.
  apply andb_true_iff in Hf. destruct Hf as [Hpre Hst].
  cbn [forallb] in Hst. rewrite andb_true_r in Hst.
  apply negb_true_iff in Hst. unfold AnyPolicy.new.
  assert (Hd : decisions (PAny (AnyPolicy.mk n)) pre =
               repeat false (List.length pre)).
  { apply AnyPolicy_decisions_fail; [exact Hpre|exact Hn|lia]. }
  assert (Hlast : PolicyExecutor_Examine
                    (policy_after (PAny (AnyPolicy.mk n)) pre) st =
                  (true, PAny (AnyPolicy.mk 0))).
  { rewrite AnyPolicy_after by (try exact Hn; lia).
    cbn [PolicyExecutor_Examine].
    replace (n - Z.of_nat (List.length pre)) with 1 by lia.
    rewrite AnyPolicy_Examine_eq by (try apply is_size_t_intro; reflexivity).
    rewrite Hst. reflexivity. }
  split.
  - rewrite decisions_app, Hd. cbn [decisions]. rewrite Hlast. reflexivity.
  - rewrite delivered_aggregate. unfold aggregate.
    rewrite first_decided_app_none by (apply first_decided_decisions; exact Hd).
    cbn [first_decided]. rewrite Hlast. reflexivity.
Qed.

(** C6.  An `Any` policy made for [n] pipelines has [n - |pre|] in its
    counter when [pre] lists the outcomes it examined so far.  Its next
    [Examine] answers [true] for every success, and for a failure exactly
    when the counter before the decrement is 1, that is when this is the last
    pipeline.  When all [n] pipelines fail the only [true] is the answer to
    the last failure and the handler receives that failure; with three
    pipelines that is the third call. *)
Theorem AnyPolicy_Examine_decision (n : Z) (pre : list XRootDStatus)
    (st : XRootDStatus) (h : PipelineHandler) :
  is_size_t n -> Z.of_nat (List.length pre) < n ->
  policy_after (PAny (AnyPolicy.new n)) pre =
    PAny (AnyPolicy.mk (n - Z.of_nat (List.length pre)))
  /\ AnyPolicy.Examine (AnyPolicy.mk (n - Z.of_nat (List.length pre))) st =
       (IsOK st || (n - Z.of_nat (List.length pre) =? 1),
        AnyPolicy.mk (n - Z.of_nat (List.length pre) - 1))
  /\ (all_fail (pre ++ [st]) = true ->
      Z.of_nat (List.length pre) + 1 = n ->
      decisions (PAny (AnyPolicy.new n)) (pre ++ [st]) =
        repeat false (List.length pre) ++ [true]
      /\ delivered (Ctx.mk (Some h) (PAny (AnyPolicy.new n))) (pre ++ [st]) =
           [HandleResponse h st])
  /\ (forall f1 f2 f3 : XRootDStatus,
        all_fail [f1; f2; f3] = true ->
        decisions (PAny (AnyPolicy.new 3)) [f1; f2; f3] = [false; false; true]
        /\ delivered (Ctx.mk (Some h) (PAny (AnyPolicy.new 3))) [f1; f2; f3] =
             [HandleResponse h f3]).
Proof.
  intros Hn Hlen. split; [|split; [|split]].
  - unfold AnyPolicy.new. apply AnyPolicy_after; [exact Hn|lia].
  - apply AnyPolicy_Examine_eq; unfold is_size_t in *; lia.
  - intros Hf Hlast. apply AnyPolicy_all_fail; assumption.
  - intros f1 f2 f3 Hf.
    exact (AnyPolicy_all_fail 3 [f1; f2] f3 h (is_size_t_intro 3 eq_refl)
             Hf eq_refl).
Qed.

Lemma AnyPolicy_Examine_decision_witness :
  AnyPolicy.Examine (AnyPolicy.mk 1) (failure "c") = (true, AnyPolicy.mk 0)
  /\ decisions (PAny (AnyPolicy.new 3))
               [failure "a"; failure "b"; failure "c"] =
       [false; false; true]
  /\ delivered (Ctx.mk (Some 7%nat) (PAny (AnyPolicy.new 3)))
               [failure "a"; failure "b"; failure "c"] =
       [HandleResponse 7%nat (failure "c")].
Proof.
  pose proof (AnyPolicy_Examine_decision 3 [failure "a"; failure "b"]
                (failure "c") 7%nat (is_size_t_intro 3 eq_refl) eq_refl)
    as (_ & H2 & H3 & _).
  split; [exact H2|]. exact (H3 eq_refl eq_refl).
Defined.

(** ** The `All` policy *)

Lemma AllPolicy_Examine_eq (st : XRootDStatus) :
  AllPolicy.Examine st = negb (IsOK st).
Proof. unfold AllPolicy.Examine. destruct (IsOK st); reflexivity. Qed.

Lemma AllPolicy_first_decided (pre post : list XRootDStatus)
    (f : XRootDStatus) :
  all_succeeded pre = true -> IsOK f = false ->
  first_decided PAll pre = None
  /\ first_decided PAll (pre ++ f :: post) = Some f.
Proof.
  unfold all_succeeded. intros Hpre Hf.
  induction pre as [|st pre IH]; cbn [first_decided app forallb] in *.
  - cbn [PolicyExecutor_Examine]. rewrite AllPolicy_Examine_eq, Hf. auto.
  - apply andb_true_iff in Hpre. destruct Hpre as [Hst Hpre].
    cbn [PolicyExecutor_Examine]. rewrite AllPolicy_Examine_eq, Hst.
    cbn [negb]. exact (IH Hpre).
Qed.

Lemma AllPolicy_all_succeeded (sts : list XRootDStatus) :
  all_succeeded sts = true -> first_decided PAll sts = None.
Proof.
  unfold all_succeeded. intros H.
  induction sts as [|st sts IH]; cbn [first_decided forallb] in *.
  - reflexivity.
  - apply andb_true_iff in H. destruct H as [Hst H].
    cbn [PolicyExecutor_Examine]. rewrite AllPolicy_Examine_eq, Hst.
    cbn [negb]. exact (IH H).
Qed.

Lemma gate_of_All (op : PO.t) (h : PipelineHandler) :
  PO.policy op = None \/ PO.policy op = Some PAll ->
  gate_of op h = Ctx.mk (Some h) PAll.
Proof.
  unfold gate_of, PO.RunImpl_enter. cbn [PO.ctx].
  intros [H|H]; rewrite H; reflexivity.
Qed.

(** In every state an activation reaches, the calls made are those of
    [examine_all] while the gate is alive and those of [delivered] once it is
    destroyed. *)
Lemma reachable_calls (op : PO.t) (h : PipelineHandler) (pipelineTimeout : Z)
    (es : list PO.Event) (s : PO.RunState) :
  PO.exec op es (PO.RunImpl_enter op (Some h) pipelineTimeout) = Some s ->
  (PO.use_count s <> 0%nat /\ ~ PO.quiescent s
   /\ PO.calls s = snd (examine_all (gate_of op h) (completions es)))
  \/ (PO.use_count s = 0%nat /\ PO.quiescent s
      /\ PO.calls s = delivered (gate_of op h) (completions es)).
Proof.
  intros Hexec.
  destruct (enter_inv op h pipelineTimeout) as [Ho Hs].
  destruct (exec_inv op h es _ s Ho Hs Hexec) as [Ho' _].
  destruct (Nat.eq_dec (PO.use_count s) 0) as [H0|H0].
  - right. assert (Hq : PO.quiescent s).
    { unfold owners_inv in Ho'. rewrite H0 in Ho'. unfold PO.quiescent.
      destruct (PO.returned s); cbn in Ho'; [|discriminate].
      split; [discriminate|]. destruct (PO.pending s); [reflexivity|].
      discriminate. }
    split; [exact H0|]. split; [exact Hq|].
    exact (activation_delivers op h pipelineTimeout es s Hexec Hq).
  - left. split; [exact H0|]. split.
    + intros Hq. apply H0. exact (quiescent_released s Ho' Hq).
    + rewrite (activation_examines op h pipelineTimeout es s Hexec H0).
      reflexivity.
Qed.

(** C8.  `All` answers [false] for every success and [true] for every
    failure.  So in an activation under `All`, selected or defaulted, from
    the moment the gate has examined a first failure [f], after the successes
    [pre], the handler has been called exactly once, with [f], whatever
    completions [post] follow and whether or not the gate is destroyed
    already: the later completions are no-ops. *)
Theorem AllPolicy_first_failure :
  (forall st : XRootDStatus, AllPolicy.Examine st = negb (IsOK st))
  /\ (forall (op : PO.t) (h : PipelineHandler) (pipelineTimeout : Z)
        (es : list PO.Event) (s : PO.RunState)
        (pre post : list XRootDStatus) (f : XRootDStatus),
        PO.policy op = None \/ PO.policy op = Some PAll ->
        PO.exec op es (PO.RunImpl_enter op (Some h) pipelineTimeout)
          = Some s ->
        completions es = pre ++ f :: post ->
        all_succeeded pre = true -> IsOK f = false ->
        PO.calls s = [HandleResponse h f]).
Proof.
  split; [exact AllPolicy_Examine_eq|].
  intros op h pt es s pre post f Hpol Hexec Hc Hpre Hf.
  destruct (AllPolicy_first_decided pre post f Hpre Hf) as [_ Hd].
  destruct (reachable_calls op h pt es s Hexec)
    as [(_ & _ & ->)|(_ & _ & ->)];
    rewrite (gate_of_All op h Hpol), Hc.
  - destruct (examine_all_decided (pre ++ f :: post) PAll h) as [E _].
    rewrite E, Hd. reflexivity.
  - rewrite delivered_aggregate. unfold aggregate. rewrite Hd. reflexivity.
Qed.

Lemma second_fails_run :
  PO.exec three_op second_fails_schedule
    (PO.RunImpl_enter three_op (Some 7%nat) 10) = Some second_fails_final.
Proof. vm_compute. reflexivity. Qed.

Lemma AllPolicy_first_failure_witness :
  AllPolicy.Examine (failure "x") = true
  /\ AllPolicy.Examine XRootDStatus_default = false
  /\ PO.calls second_fails_final = [HandleResponse 7%nat (failure "x")].
Proof.
  split; [exact (proj1 AllPolicy_first_failure (failure "x"))|].
  split; [exact (proj1 AllPolicy_first_failure XRootDStatus_default)|].
  exact (proj2 AllPolicy_first_failure three_op 7%nat 10
           second_fails_schedule second_fails_final
           [XRootDStatus_default] [XRootDStatus_default] (failure "x")
           (or_introl eq_refl) second_fails_run eq_refl eq_refl eq_refl).
Defined.

(** ** The destructor of the gate *)

(** C7.  When the last owner of the gate lets go of it while the handler is
    still in its slot, the handler is called with the default status, which
    is a success.  In particular, in an activation under `All`, selected or
    defaulted, whose pipelines all start and all succeed, the handler has not
    been called as long as [RunImpl] has not returned or a pipeline is still
    running; once the activation is over it has been called with the default
    success status, and by then every pipeline has finished. *)
Theorem implicit_finalize_success :
  (forall (s : PO.RunState) (h : PipelineHandler),
      PO.use_count s = 1%nat -> Ctx.handler (PO.ctx s) = Some h ->
      PO.calls (PO.release s) =
        PO.calls s ++ [HandleResponse h XRootDStatus_default]
      /\ IsOK XRootDStatus_default = true)
  /\ (forall (op : PO.t) (h : PipelineHandler) (pipelineTimeout : Z)
        (es : list PO.Event) (s : PO.RunState),
        PO.policy op = None \/ PO.policy op = Some PAll ->
        all_start (PO.pipelines op) = true ->
        PO.exec op es (PO.RunImpl_enter op (Some h) pipelineTimeout)
          = Some s ->
        all_succeeded (completions es) = true ->
        (~ PO.quiescent s -> PO.calls s = [])
        /\ (PO.quiescent s ->
            PO.calls s = [HandleResponse h XRootDStatus_default]
            /\ List.length (completions es) = List.length (PO.pipelines op))).
Proof.
  split.
  - intros s h H1 Hh. destruct (release_last s H1) as [_ E]. rewrite E.
    unfold Ctx.destroy. rewrite Handle_eq, Hh. cbn [snd]. auto.
  - intros op h pt es s Hpol Hstart Hexec Hok.
    pose proof (AllPolicy_all_succeeded _ Hok) as Hd.
    destruct (reachable_calls op h pt es s Hexec)
      as [(_ & Hnq & E)|(_ & Hq & E)];
      rewrite (gate_of_All op h Hpol) in E.
    + split; [|contradiction]. intros _. rewrite E.
      destruct (examine_all_decided (completions es) PAll h) as [E1 _].
      rewrite E1, Hd. reflexivity.
    + split; [contradiction|]. intros _. split.
      * rewrite E, delivered_aggregate. unfold aggregate. rewrite Hd.
        reflexivity.
      * destruct (exec_launch_inv op (Some h) pt es s Hexec)
          as (_ & _ & _ & Hc & Hr).
        destruct Hq as [Hret Hpend].
        destruct (PO.returned s) as [st|] eqn:Est; [|congruence].
        destruct (Hr st eq_refl) as [Hi _].
        destruct (all_start_launch _ Hstart) as [Hft _].
        rewrite Hpend in Hc. cbn [List.length] in Hc. lia.
Qed.

Lemma all_succeed_run :
  PO.exec three_op all_succeed_schedule
    (PO.RunImpl_enter three_op (Some 7%nat) 10) = Some all_succeed_final.
Proof. vm_compute. reflexivity. Qed.

Lemma all_succeed_final_quiescent : PO.quiescent all_succeed_final.
Proof. split; [discriminate|reflexivity]. Qed.

Lemma implicit_finalize_success_witness :
  PO.calls all_succeed_final = [HandleResponse 7%nat XRootDStatus_default]
  /\ List.length (completions all_succeed_schedule) = 3%nat.
Proof.
  exact (proj2 (proj2 implicit_finalize_success three_op 7%nat 10
                  all_succeed_schedule all_succeed_final
                  (or_introl eq_refl) eq_refl all_succeed_run eq_refl)
               all_succeed_final_quiescent).
Defined.

(** ** `Some` and `AtLeast` compare the threshold with the pending count *)

(** `Some` with threshold 1 decides as `Any` does, on every list of outcomes
    and from every value of the counter. *)
Lemma SomePolicy_one_first_decided (sts : list XRootDStatus) (c : Z) :
  first_decided (PSome (SomePolicy.mk c 0 1)) sts =
    first_decided (PAny (AnyPolicy.mk c)) sts.
Proof.
  revert c. induction sts as [|st sts IH]; intros c; cbn [first_decided].
  - reflexivity.
  - cbn [PolicyExecutor_Examine].
    unfold SomePolicy.Examine, AnyPolicy.Examine, fetch_sub, fetch_add.
    cbn [SomePolicy.cnt SomePolicy.succeeded SomePolicy.threshold
         AnyPolicy.cnt].
    destruct (IsOK st).
    + reflexivity.
    + destruct (c =? 1); [reflexivity|]. apply IH.
Qed.

(** X2.  `Some` with threshold 1 delivers to the handler what `Any`
    delivers, for every number of pipelines and every list of outcomes. *)
Theorem SomePolicy_one_is_Any (n : Z) (sts : list XRootDStatus)
    (h : PipelineHandler) :
  delivered (Ctx.mk (Some h) (PSome (SomePolicy.new n 1))) sts =
    delivered (Ctx.mk (Some h) (PAny (AnyPolicy.new n))) sts.
Proof.
  rewrite !delivered_aggregate. unfold aggregate, SomePolicy.new, AnyPolicy.new.
  rewrite SomePolicy_one_first_decided. reflexivity.
Qed.

(** C4.  With two pipelines, the first succeeding and the second failing,
    `Some` with threshold 2 never answers [true], so the handler receives the
    default success status of the destructor, while `All` hands it the
    failure.  `Some( n )` on [n] pipelines is therefore not `All`. *)
Theorem SomePolicy_full_threshold_is_not_All (h : PipelineHandler) :
  decisions (PSome (SomePolicy.new 2 2)) [XRootDStatus_default; failure "x"] =
    [false; false]
  /\ delivered (Ctx.mk (Some h) (PSome (SomePolicy.new 2 2)))
               [XRootDStatus_default; failure "x"] =
       [HandleResponse h XRootDStatus_default]
  /\ delivered (Ctx.mk (Some h) PAll) [XRootDStatus_default; failure "x"] =
       [HandleResponse h (failure "x")]
  /\ IsOK XRootDStatus_default <> IsOK (failure "x").
Proof.
  split; [vm_compute; reflexivity|].
  rewrite !delivered_aggregate.
  split; [vm_compute; reflexivity|].
  split; [vm_compute; reflexivity|].
  discriminate.
Qed.

(** C3.  `AtLeast` with threshold 2 on four pipelines answers [true] to a
    failure that comes after two successes, although two successes are there
    already, and the handler receives that failure.  With threshold 3, after
    a failure and a success, it answers [false] to the second failure, which
    makes three successes impossible, and to everything after it, and the
    handler receives the default success status. *)
Theorem AtLeastPolicy_compares_pending_count (h : PipelineHandler) :
  (decisions (PAtLeast (AtLeastPolicy.new 4 2))
             [XRootDStatus_default; XRootDStatus_default; failure "x"] =
     [false; false; true]
   /\ still_reachable 4 2
        [XRootDStatus_default; XRootDStatus_default; failure "x"] = true
   /\ delivered (Ctx.mk (Some h) (PAtLeast (AtLeastPolicy.new 4 2)))
                [XRootDStatus_default; XRootDStatus_default; failure "x";
                 XRootDStatus_default] =
        [HandleResponse h (failure "x")])
  /\ (decisions (PAtLeast (AtLeastPolicy.new 4 3))
                [failure "x"; XRootDStatus_default; failure "y";
                 failure "z"] =
        [false; false; false; false]
      /\ still_reachable 4 3 [failure "x"; XRootDStatus_default] = true
      /\ still_reachable 4 3
           [failure "x"; XRootDStatus_default; failure "y"] = false
      /\ delivered (Ctx.mk (Some h) (PAtLeast (AtLeastPolicy.new 4 3)))
                   [failure "x"; XRootDStatus_default; failure "y";
                    failure "z"] =
           [HandleResponse h XRootDStatus_default]).
Proof.
  rewrite !delivered_aggregate.
  repeat split; vm_compute; reflexivity.
Qed.

(** ** A pipeline that throws when it is launched *)

(** [RunImpl] returns the status of the first pipeline that throws, or the
    default status when all start; the pipelines before that one are the ones
    launched, in order, with the smaller of the two timeouts. *)
Lemma returned_launch_status (op : PO.t)
    (h : option PipelineHandler) (pipelineTimeout : Z) (es : list PO.Event)
    (s : PO.RunState) (st : XRootDStatus) :
  PO.exec op es (PO.RunImpl_enter op h pipelineTimeout) = Some s ->
  PO.returned s = Some st ->
  st = launch_status (PO.pipelines op)
  /\ PO.launched s =
       map (fun i => (i, Z.min pipelineTimeout (PO.timeout op)))
           (seq 0 (first_throw (PO.pipelines op))).
Proof.
  intros Hexec Hret.
  destruct (exec_launch_inv op h pipelineTimeout es s Hexec)
    as (Ht & _ & Hl & _ & Hr).
  destruct (Hr st Hret) as [Hi ->]. split; [reflexivity|].
  rewrite Hl, Ht, Hi. f_equal.
  assert (E : (if pipelineTimeout <? PO.timeout op then pipelineTimeout
               else PO.timeout op) = Z.min pipelineTimeout (PO.timeout op)).
  { destruct (Z.ltb_spec pipelineTimeout (PO.timeout op)); lia. }
  rewrite E. reflexivity.
Qed.

(** X3.  In every state of an activation the pipelines launched so far are
    the first ones of the list, in order, each with the smaller of the
    timeout passed in and the timeout of the operation; none is launched
    behind one that throws; and once [RunImpl] has returned, its status is
    that of the first pipeline that throws, or the default status when every
    pipeline was started. *)
Theorem RunImpl_launches_in_order (op : PO.t)
    (h : option PipelineHandler) (pipelineTimeout : Z) (es : list PO.Event)
    (s : PO.RunState) :
  PO.exec op es (PO.RunImpl_enter op h pipelineTimeout) = Some s ->
  PO.launched s =
    map (fun i => (i, Z.min pipelineTimeout (PO.timeout op)))
        (seq 0 (PO.index s))
  /\ (PO.index s <= first_throw (PO.pipelines op))%nat
  /\ (forall st,
        PO.returned s = Some st ->
        st = launch_status (PO.pipelines op)
        /\ PO.index s = first_throw (PO.pipelines op)).
Proof.
  intros Hexec.
  destruct (exec_launch_inv op h pipelineTimeout es s Hexec)
    as (Ht & Hi & Hl & _ & Hr).
  split; [|split; [exact Hi|]].
  - rewrite Hl, Ht.
    assert (E : (if pipelineTimeout <? PO.timeout op then pipelineTimeout
                 else PO.timeout op) = Z.min pipelineTimeout (PO.timeout op)).
    { destruct (Z.ltb_spec pipelineTimeout (PO.timeout op)); lia. }
    rewrite E. reflexivity.
  - intros st Hret. destruct (Hr st Hret) as [E1 E2]. auto.
Qed.

Lemma RunImpl_launches_in_order_witness :
  PO.launched sample_final = [(0%nat, 10); (1%nat, 10); (2%nat, 10)]
  /\ (PO.index sample_final <= 3)%nat
  /\ (forall st,
        PO.returned sample_final = Some st ->
        st = XRootDStatus_default /\ PO.index sample_final = 3%nat).
Proof.
  exact (RunImpl_launches_in_order sample_op (Some 7%nat) 10 sample_schedule
           sample_final sample_run).
Defined.

(** Leaving [RunImpl] while a started pipeline is still running calls no
    handler: the local [ctx] is not the last owner of the gate. *)
Lemma return_with_running_pipelines (st : XRootDStatus) (s : PO.RunState) :
  owners_inv s -> PO.returned s = None -> PO.pending s <> [] ->
  PO.calls (PO.RunImpl_return st s) = PO.calls s
  /\ PO.ctx (PO.RunImpl_return st s) = PO.ctx s.
Proof.
  unfold owners_inv. intros Ho Hr Hp. unfold PO.RunImpl_return.
  match goal with |- context [PO.release ?x] =>
    destruct (release_not_last x) as [E1 E2] end.
  - cbn. rewrite Ho, Hr. destruct (PO.pending s); [congruence|].
    cbn. discriminate.
  - rewrite E1, E2. auto.
Qed.

(** C2.  When the first pipeline throws, [RunImpl] returns the error, no
    pipeline was launched, and the local [ctx], the only owner of the gate,
    is destroyed on the way out: the handler is called, with the default
    success status.  This holds for both kinds of exception, under every
    policy and with any pipelines behind the first. *)
Theorem launch_fault_reaches_handler (name : string) (err : XRootDStatus)
    (what : string) (rest : list Pipeline) (pol : option PolicyExecutor)
    (timeout pipelineTimeout : Z) (h : PipelineHandler) :
  (exists s,
     PO.exec (PO.mk (throwing name err :: rest) pol timeout) [PO.Advance]
       (PO.RunImpl_enter (PO.mk (throwing name err :: rest) pol timeout)
          (Some h) pipelineTimeout) = Some s
     /\ PO.returned s = Some err
     /\ PO.launched s = []
     /\ PO.quiescent s
     /\ PO.calls s = [HandleResponse h XRootDStatus_default])
  /\ (exists s,
        PO.exec (PO.mk (mkPipeline name (ThrowsException what) :: rest) pol
                       timeout) [PO.Advance]
          (PO.RunImpl_enter
             (PO.mk (mkPipeline name (ThrowsException what) :: rest) pol
                    timeout) (Some h) pipelineTimeout) = Some s
        /\ PO.returned s = Some (mkStatus stError what)
        /\ PO.launched s = []
        /\ PO.quiescent s
        /\ PO.calls s = [HandleResponse h XRootDStatus_default])
  /\ IsOK XRootDStatus_default = true.
Proof.
  split; [|split; [|reflexivity]];
    (eexists; split; [reflexivity|]; cbn; repeat split; discriminate).
Qed.

(** ** Thresholds are taken as they come *)

Lemma Examine_threshold (p : PolicyExecutor) (st : XRootDStatus) :
  threshold_of (snd (PolicyExecutor_Examine p st)) = threshold_of p.
Proof.
  destruct p as [|q|q|q]; cbn [PolicyExecutor_Examine].
  - reflexivity.
  - destruct (AnyPolicy.Examine q st). reflexivity.
  - unfold SomePolicy.Examine, fetch_sub, fetch_add.
    destruct (IsOK st);
      match goal with |- context [if ?b then _ else _] => destruct b end;
      reflexivity.
  - unfold AtLeastPolicy.Examine, fetch_sub.
    destruct (IsOK st); [reflexivity|].
    match goal with |- context [if ?b then _ else _] => destruct b end;
      reflexivity.
Qed.

Lemma release_threshold (s : PO.RunState) :
  threshold_of (Ctx.policy (PO.ctx (PO.release s))) =
    threshold_of (Ctx.policy (PO.ctx s)).
Proof.
  unfold PO.release. destruct (PO.use_count s) as [|[|n]]; try reflexivity.
  unfold Ctx.destroy. rewrite Handle_eq. reflexivity.
Qed.

Lemma step_threshold (op : PO.t) (e : PO.Event) (s s' : PO.RunState) :
  PO.step op e s = Some s' ->
  threshold_of (Ctx.policy (PO.ctx s')) = threshold_of (Ctx.policy (PO.ctx s)).
Proof.
  destruct e as [|j st]; cbn [PO.step].
  - unfold PO.RunImpl_step, PO.RunImpl_return.
    destruct (PO.returned s); [discriminate|].
    destruct (nth_error (PO.pipelines op) (PO.index s)) as [p|];
      [destruct (Pipeline_Run p)|];
      intros H; injection H as <-; rewrite ?release_threshold; reflexivity.
  - unfold PO.continuation.
    destruct (existsb (Nat.eqb j) (PO.pending s)); [|discriminate].
    rewrite Examine_eq. intros H. injection H as <-.
    rewrite release_threshold. cbn [PO.ctx Ctx.policy].
    apply Examine_threshold.
Qed.

Lemma exec_threshold (op : PO.t) (es : list PO.Event) :
  forall s s',
    PO.exec op es s = Some s' ->
    threshold_of (Ctx.policy (PO.ctx s')) =
      threshold_of (Ctx.policy (PO.ctx s)).
Proof.
  induction es as [|e es IH]; intros s s' H; cbn [PO.exec] in H.
  - injection H as <-. reflexivity.
  - destruct (PO.step op e s) as [s1|] eqn:E; [|discriminate].
    rewrite (IH s1 s' H). exact (step_threshold op e s s1 E).
Qed.

Lemma out_of_range_run :
  PO.exec (PO.Some 5 three_op) (launch_all_schedule (PO.Some 5 three_op))
    (PO.RunImpl_enter (PO.Some 5 three_op) (Some 7%nat) 10)
  = Some out_of_range_final.
Proof. vm_compute. reflexivity. Qed.

(** C9, as the spec has it, fails: `Some( 5 )` on three pipelines is not
    rejected.  The operation that comes back holds a `Some` policy with
    threshold 5, and [RunImpl] on it launches the three pipelines and returns
    the default success status. *)
Lemma out_of_range_threshold_not_rejected :
  ~ threshold_in_range 5 three_op
  /\ PO.policy (PO.Some 5 three_op) = Some (PSome (SomePolicy.mk 3 0 5))
  /\ PO.exec (PO.Some 5 three_op)
       [PO.Advance; PO.Advance; PO.Advance; PO.Advance]
       (PO.RunImpl_enter (PO.Some 5 three_op) (Some 7%nat) 10)
     = Some out_of_range_final
  /\ PO.launched out_of_range_final = [(0%nat, 10); (1%nat, 10); (2%nat, 10)]
  /\ PO.returned out_of_range_final = Some XRootDStatus_default
  /\ ~ rejected (PO.Some 5 three_op).
Proof.
  split; [|split; [|split; [|split; [|split]]]]; try reflexivity.
  - unfold threshold_in_range. cbn. lia.
  - intros H.
    destruct (H (Some 7%nat) 10 _ _ out_of_range_run) as [Hl _].
    discriminate Hl.
Qed.

(** C9, amended.  `Some( k )` and `AtLeast( k )` accept every threshold: the
    operation that comes back holds a policy made for the number of pipelines
    with [k] as its threshold, in the range or not.  [RunImpl] on it does not
    look at the threshold: when every pipeline starts, then once it has
    returned it has launched all of them, its status is the default success,
    and the gate holds the policy with threshold [k]. *)
Theorem threshold_not_validated (op : PO.t) (k : Z) (h : PipelineHandler)
    (pipelineTimeout : Z) (es : list PO.Event) (s : PO.RunState)
    (st : XRootDStatus) (op' : PO.t) :
  all_start (PO.pipelines op) = true ->
  op' = PO.Some k op \/ op' = PO.AtLeast k op ->
  PO.exec op' es (PO.RunImpl_enter op' (Some h) pipelineTimeout) = Some s ->
  PO.returned s = Some st ->
  PO.policy (PO.Some k op) = Some (PSome (SomePolicy.mk (PO.size op) 0 k))
  /\ PO.policy (PO.AtLeast k op) =
       Some (PAtLeast (AtLeastPolicy.mk (PO.size op) k))
  /\ st = XRootDStatus_default
  /\ map fst (PO.launched s) = seq 0 (List.length (PO.pipelines op))
  /\ threshold_of (Ctx.policy (PO.ctx s)) = Some k.
Proof.
  intros Hstart Hop Hexec Hret.
  split; [reflexivity|]. split; [reflexivity|].
  assert (Hps : PO.pipelines op' = PO.pipelines op).
  { destruct Hop as [->| ->]; reflexivity. }
  destruct (all_start_launch _ Hstart) as [Hft Hls].
  destruct (returned_launch_status op' (Some h) pipelineTimeout es s st
              Hexec Hret) as [E1 E2].
  rewrite Hps in E1, E2. rewrite Hls in E1. rewrite Hft in E2.
  split; [exact E1|]. split.
  - rewrite E2, map_map. cbn [fst]. apply map_id.
  - rewrite (exec_threshold op' es _ s Hexec).
    destruct Hop as [->| ->]; reflexivity.
Qed.

Lemma threshold_not_validated_witness :
  PO.policy (PO.Some 5 three_op) = Some (PSome (SomePolicy.mk 3 0 5))
  /\ PO.policy (PO.AtLeast 5 three_op) =
       Some (PAtLeast (AtLeastPolicy.mk 3 5))
  /\ XRootDStatus_default = XRootDStatus_default
  /\ map fst (PO.launched out_of_range_final) = [0; 1; 2]%nat
  /\ threshold_of (Ctx.policy (PO.ctx out_of_range_final)) = Some 5.
Proof.
  exact (threshold_not_validated three_op 5 7%nat 10
           (launch_all_schedule (PO.Some 5 three_op)) out_of_range_final
           XRootDStatus_default (PO.Some 5 three_op)
           eq_refl (or_introl eq_refl) out_of_range_run eq_refl).
Defined.

(** ** An operation without pipelines *)

(** C10.  The constructor takes an empty container: the operation has no
    pipeline and the container is left empty.  [ToString] gives
    ["Parallel()"].  Under every selection of a policy, [RunImpl] on it
    leaves its loop at once and returns the default success status; no
    pipeline was launched, and the destructor of the local [ctx], the only
    owner of the gate, calls the handler, once, with the default success
    status.  The activation has no other run. *)
Theorem empty_parallel_operation (timeout pipelineTimeout : Z)
    (pol : option PolicyExecutor) (h : PipelineHandler) :
  Parallel [] timeout = (PO.mk [] None timeout, [])
  /\ PO.ToString (fst (Parallel [] timeout)) = "Parallel()"%string
  /\ IsOK XRootDStatus_default = true
  /\ (exists s,
        PO.exec (PO.mk [] pol timeout) [PO.Advance]
          (PO.RunImpl_enter (PO.mk [] pol timeout) (Some h) pipelineTimeout)
        = Some s
        /\ PO.returned s = Some XRootDStatus_default
        /\ PO.launched s = []
        /\ PO.quiescent s
        /\ PO.calls s = [HandleResponse h XRootDStatus_default])
  /\ (forall (es : list PO.Event) (s : PO.RunState),
        PO.exec (PO.mk [] pol timeout) es
          (PO.RunImpl_enter (PO.mk [] pol timeout) (Some h) pipelineTimeout)
        = Some s ->
        (es = [] /\ PO.calls s = [])
        \/ (es = [PO.Advance]
            /\ PO.calls s = [HandleResponse h XRootDStatus_default])).
Proof.
  split; [reflexivity|]. split; [reflexivity|]. split; [reflexivity|]. split.
  - eexists. split; [reflexivity|]. cbn. repeat split. discriminate.
  - intros es s Hexec. destruct es as [|e es].
    + left. cbn in Hexec. injection Hexec as <-. auto.
    + right. destruct e as [|j st]; [|discriminate Hexec].
      destruct es as [|e es].
      * cbn in Hexec. injection Hexec as <-. auto.
      * destruct e; discriminate Hexec.
Qed.

(** ** The runs the documentation of the policies describes *)

Example Any_first_success :
  decisions (PAny (AnyPolicy.new 3))
            [XRootDStatus_default; failure "b"; XRootDStatus_default] =
    [true; false; true]
  /\ delivered (Ctx.mk (Some 7%nat) (PAny (AnyPolicy.new 3)))
               [XRootDStatus_default; failure "b"; XRootDStatus_default] =
       [HandleResponse 7%nat XRootDStatus_default].
Proof. split; vm_compute; reflexivity. Qed.

Example Some_two_of_four_reached :
  decisions (PSome (SomePolicy.new 4 2))
            [failure "a"; XRootDStatus_default; XRootDStatus_default;
             failure "d"] =
    [false; false; true; false]
  /\ delivered (Ctx.mk (Some 7%nat) (PSome (SomePolicy.new 4 2)))
               [failure "a"; XRootDStatus_default; XRootDStatus_default;
                failure "d"] =
       [HandleResponse 7%nat XRootDStatus_default].
Proof. split; vm_compute; reflexivity. Qed.

Example Some_two_of_four_three_failures :
  decisions (PSome (SomePolicy.new 4 2))
            [failure "a"; failure "b"; failure "c"] =
    [false; false; true]
  /\ delivered (Ctx.mk (Some 7%nat) (PSome (SomePolicy.new 4 2)))
               [failure "a"; failure "b"; failure "c"; XRootDStatus_default] =
       [HandleResponse 7%nat (failure "c")].
Proof. split; vm_compute; reflexivity. Qed.

Example AtLeast_two_of_four_failures_first :
  decisions (PAtLeast (AtLeastPolicy.new 4 2))
            [failure "a"; failure "b"; XRootDStatus_default;
             XRootDStatus_default] =
    [false; false; false; false]
  /\ delivered (Ctx.mk (Some 7%nat) (PAtLeast (AtLeastPolicy.new 4 2)))
               [failure "a"; failure "b"; XRootDStatus_default;
                XRootDStatus_default] =
       [HandleResponse 7%nat XRootDStatus_default].
Proof. split; vm_compute; reflexivity. Qed.

Example AtLeast_two_of_four_three_failures :
  decisions (PAtLeast (AtLeastPolicy.new 4 2))
            [failure "a"; failure "b"; failure "c"] =
    [false; false; true]
  /\ delivered (Ctx.mk (Some 7%nat) (PAtLeast (AtLeastPolicy.new 4 2)))
               [failure "a"; failure "b"; failure "c"; XRootDStatus_default] =
       [HandleResponse 7%nat (failure "c")].
Proof. split; vm_compute; reflexivity. Qed.

Example ToString_three :
  PO.ToString three_op = "Parallel(a && b && c)"%string.
Proof. reflexivity. Qed.

(** ** The `AtLeast` policy, as written *)

(** An `AtLeast` policy made for [n] pipelines has [n - |pre|] in its counter
    when [pre] lists the outcomes it examined so far.  Its next [Examine]
    answers [false] for a success, and for a failure it answers whether the
    counter before the decrement, the number of pipelines that have not
    finished before this one, is the threshold. *)
Lemma AtLeastPolicy_Examine_decision (n k : Z) (pre : list XRootDStatus)
    (st : XRootDStatus) :
  is_size_t n -> Z.of_nat (List.length pre) < n ->
  policy_after (PAtLeast (AtLeastPolicy.new n k)) pre =
    PAtLeast (AtLeastPolicy.mk (n - Z.of_nat (List.length pre)) k)
  /\ AtLeastPolicy.Examine
       (AtLeastPolicy.mk (n - Z.of_nat (List.length pre)) k) st =
     (negb (IsOK st) && (n - Z.of_nat (List.length pre) =? k),
      AtLeastPolicy.mk (n - Z.of_nat (List.length pre) - 1) k).
Proof.
  intros Hn Hlen. unfold is_size_t in Hn. split.
  - unfold AtLeastPolicy.new. apply AtLeastPolicy_after; [exact Hn|lia].
  - unfold AtLeastPolicy.Examine, fetch_sub.
    cbn [AtLeastPolicy.cnt AtLeastPolicy.threshold].
    rewrite to_size_t_small by (unfold is_size_t; lia).
    destruct (IsOK st); [reflexivity|].
    destruct (n - Z.of_nat (List.length pre) =? k); reflexivity.
Qed.

(** On a failure that comes after [pre], the answer of `AtLeast` is the
    loss of reachability exactly when no success came before. *)
Lemma AtLeastPolicy_agrees_without_successes (n k : Z)
    (pre : list XRootDStatus) (st : XRootDStatus) :
  IsOK st = false -> successes pre = 0 ->
  (n - Z.of_nat (List.length pre) =? k) =
    still_reachable n k pre && negb (still_reachable n k (pre ++ [st])).
Proof.
  intros Hst Hs. unfold still_reachable, failures.
  rewrite filter_app, length_app. cbn [filter]. rewrite Hst.
  cbn [negb List.length].
  pose proof (successes_failures pre) as Hsf. unfold failures in Hsf.
  rewrite Hs in Hsf.
  destruct (Z.eqb_spec (n - Z.of_nat (List.length pre)) k);
    destruct (Z.leb_spec k
                (n - Z.of_nat
                       (List.length
                          (filter (fun st0 => negb (IsOK st0)) pre))));
    destruct (Z.leb_spec k
                (n - Z.of_nat
                       (List.length
                          (filter (fun st0 => negb (IsOK st0)) pre) + 1)));
    cbn [andb negb]; try reflexivity; lia.
Qed.

(** ** The activation, one atomic operation at a time *)

(** The two halves of [policy->Examine] make up the whole. *)
Lemma threads_Examine_split (p : PolicyExecutor) (st : XRootDStatus) :
  PolicyExecutor_Examine p st =
    match Threads.Examine_first p st with
    | (Threads.Decided b, p') => (b, p')
    | (Threads.CountSuccess, p') => Threads.Examine_second p'
    end.
Proof.
  destruct p as [|q|q|q];
    cbn [PolicyExecutor_Examine Threads.Examine_first].
  - reflexivity.
  - destruct (AnyPolicy.Examine q st). reflexivity.
  - unfold SomePolicy.Examine, fetch_sub, fetch_add.
    destruct (IsOK st).
    + cbn [Threads.Examine_second SomePolicy.cnt SomePolicy.succeeded
           SomePolicy.threshold]. unfold fetch_add.
      destruct (to_size_t (SomePolicy.succeeded q + 1)
                =? SomePolicy.threshold q); reflexivity.
    + destruct (SomePolicy.cnt q =? SomePolicy.threshold q); reflexivity.
  - destruct (AtLeastPolicy.Examine q st). reflexivity.
Qed.

Lemma threads_advance_inv (h : PipelineHandler) (pc pc' : Threads.Pc)
    (sh sh' : Threads.Shared) (no nh nd : nat) :
  Threads.shared_inv h sh (Nat.b2n (Threads.owns pc) + no)
    (Nat.b2n (Threads.holds pc) + nh) (Nat.b2n (Threads.destroys pc) + nd) ->
  Threads.holds_only h pc ->
  Threads.advance pc sh = Some (pc', sh') ->
  Threads.shared_inv h sh' (Nat.b2n (Threads.owns pc') + no)
    (Nat.b2n (Threads.holds pc') + nh) (Nat.b2n (Threads.destroys pc') + nd)
  /\ Threads.holds_only h pc'.
Proof.
  unfold Threads.shared_inv. intros (Hu & Hslot & Hd) Hh Hadv.
  destruct pc as [|st|st|st|h' st| | |h'|]; cbn [Threads.advance] in Hadv;
    cbn [Threads.owns Threads.holds Threads.destroys Nat.b2n] in *.
  - discriminate.
  - destruct (Threads.Examine_first (Ctx.policy (Threads.ctx sh)) st)
      as [[[|]|] p']; injection Hadv as <- <-;
      cbn [Threads.owns Threads.holds Threads.destroys Nat.b2n
           Threads.ctx Threads.use_count Threads.calls Ctx.handler
           Threads.holds_only];
      (split; [|exact I]); (split; [exact Hu|]); (split; [exact Hslot|]);
      intros; lia.
  - destruct (Threads.Examine_second (Ctx.policy (Threads.ctx sh)))
      as [[|] p']; injection Hadv as <- <-;
      cbn [Threads.owns Threads.holds Threads.destroys Nat.b2n
           Threads.ctx Threads.use_count Threads.calls Ctx.handler
           Threads.holds_only];
      (split; [|exact I]); (split; [exact Hu|]); (split; [exact Hslot|]);
      intros; lia.
  - unfold Ctx.exchange_handler in Hadv.
    destruct (Ctx.handler (Threads.ctx sh)) as [h0|] eqn:Eh;
      injection Hadv as <- <-;
      cbn [Threads.owns Threads.holds Threads.destroys Nat.b2n
           Threads.ctx Threads.use_count Threads.calls Ctx.handler
           Threads.holds_only].
    + destruct Hslot as (-> & Hc & Hn). split; [|reflexivity].
      split; [exact Hu|]. split; [left; split; [lia|exact Hc]|].
      intros; lia.
    + split; [|exact I]. split; [exact Hu|]. split; [exact Hslot|].
      intros; lia.
  - injection Hadv as <- <-.
    cbn [Threads.owns Threads.holds Threads.destroys Nat.b2n
         Threads.ctx Threads.use_count Threads.calls Ctx.handler
         Threads.holds_only] in *.
    split; [|exact I]. split; [exact Hu|]. split; [|intros; lia].
    destruct (Ctx.handler (Threads.ctx sh)).
    + destruct Hslot as (_ & _ & Hn). lia.
    + destruct Hslot as [[Hn Hc]|[Hn _]]; [|lia].
      right. split; [lia|]. exists st. rewrite Hc, Hh. reflexivity.
  - destruct (Threads.use_count sh) as [|[|n]] eqn:Eu;
      injection Hadv as <- <-;
      cbn [Threads.owns Threads.holds Threads.destroys Nat.b2n
           Threads.ctx Threads.use_count Threads.calls Ctx.handler
           Threads.holds_only Nat.pred];
      (split; [|exact I]).
    + lia.
    + split; [lia|]. split; [exact Hslot|]. intros; right; lia.
    + split; [lia|]. split; [exact Hslot|]. intros; lia.
  - unfold Ctx.exchange_handler in Hadv.
    destruct (Ctx.handler (Threads.ctx sh)) as [h0|] eqn:Eh;
      injection Hadv as <- <-;
      cbn [Threads.owns Threads.holds Threads.destroys Nat.b2n
           Threads.ctx Threads.use_count Threads.calls Ctx.handler
           Threads.holds_only].
    + destruct Hslot as (-> & Hc & Hn). split; [|reflexivity].
      split; [exact Hu|]. split; [left; split; [lia|exact Hc]|].
      intros; left; reflexivity.
    + split; [|exact I]. split; [exact Hu|]. split; [exact Hslot|].
      intros; left; reflexivity.
  - injection Hadv as <- <-.
    cbn [Threads.owns Threads.holds Threads.destroys Nat.b2n
         Threads.ctx Threads.use_count Threads.calls Ctx.handler
         Threads.holds_only] in *.
    split; [|exact I]. split; [exact Hu|].
    destruct (Ctx.handler (Threads.ctx sh)).
    + destruct Hslot as (_ & _ & Hn). lia.
    + split; [|intros; left; reflexivity].
      destruct Hslot as [[Hn Hc]|[Hn _]]; [|lia].
      right. split; [lia|]. exists XRootDStatus_default.
      rewrite Hc, Hh. reflexivity.
  - discriminate.
Qed.

Lemma threads_count_cons (f : Threads.Pc -> bool) (pc : Threads.Pc)
    (l : list Threads.Pc) :
  Threads.count f (pc :: l) = (Nat.b2n (f pc) + Threads.count f l)%nat.
Proof.
  unfold Threads.count. cbn [filter]. destruct (f pc); reflexivity.
Qed.

Lemma threads_count_app (f : Threads.Pc -> bool) (l1 l2 : list Threads.Pc) :
  Threads.count f (l1 ++ l2) = (Threads.count f l1 + Threads.count f l2)%nat.
Proof.
  unfold Threads.count. rewrite filter_app, length_app. reflexivity.
Qed.

Lemma threads_count_split (f : Threads.Pc -> bool) (pc : Threads.Pc)
    (l1 l2 : list Threads.Pc) :
  Threads.count f (l1 ++ pc :: l2) =
    (Nat.b2n (f pc) + (Threads.count f l1 + Threads.count f l2))%nat.
Proof.
  rewrite threads_count_app, threads_count_cons. lia.
Qed.

Lemma threads_set_nth_split (l : list Threads.Pc) :
  forall (j : nat) (pc : Threads.Pc),
    nth_error l j = Some pc ->
    exists l1 l2,
      l = l1 ++ pc :: l2
      /\ forall pc', Threads.set_nth j pc' l = l1 ++ pc' :: l2.
Proof.
  induction l as [|x l IH]; intros j pc H.
  - destruct j; discriminate.
  - destruct j as [|j]; cbn [nth_error] in H.
    + injection H as ->. exists [], l. split; reflexivity.
    + destruct (IH j pc H) as (l1 & l2 & -> & Hset).
      exists (x :: l1), l2. split; [reflexivity|].
      intros pc'. cbn [Threads.set_nth app]. rewrite Hset. reflexivity.
Qed.

Lemma threads_enter_inv (op : PO.t) (h : PipelineHandler)
    (pipelineTimeout : Z) :
  Threads.inv h (Threads.enter op (Some h) pipelineTimeout).
Proof.
  unfold Threads.inv, Threads.shared_inv, Threads.threads, Threads.enter.
  cbn. split.
  - repeat split. discriminate.
  - repeat constructor.
Qed.

(** A thread of the list takes a step of [advance]. *)
Lemma threads_advance_in_list (h : PipelineHandler) (sh sh' : Threads.Shared)
    (l1 l2 : list Threads.Pc) (pc pc' : Threads.Pc) :
  Threads.shared_inv h sh (Threads.count Threads.owns (l1 ++ pc :: l2))
    (Threads.count Threads.holds (l1 ++ pc :: l2))
    (Threads.count Threads.destroys (l1 ++ pc :: l2)) ->
  Forall (Threads.holds_only h) (l1 ++ pc :: l2) ->
  Threads.advance pc sh = Some (pc', sh') ->
  Threads.shared_inv h sh' (Threads.count Threads.owns (l1 ++ pc' :: l2))
    (Threads.count Threads.holds (l1 ++ pc' :: l2))
    (Threads.count Threads.destroys (l1 ++ pc' :: l2))
  /\ Forall (Threads.holds_only h) (l1 ++ pc' :: l2).
Proof.
  rewrite !threads_count_split. intros Hinv Hall Hadv.
  assert (Hpc : Threads.holds_only h pc).
  { apply Forall_app in Hall. destruct Hall as [_ Hall].
    inversion Hall. assumption. }
  destruct (threads_advance_inv h pc pc' sh sh' _ _ _ Hinv Hpc Hadv)
    as [Hinv' Hpc'].
  split; [exact Hinv'|].
  apply Forall_app in Hall. destruct Hall as [H1 H2].
  apply Forall_app. split; [exact H1|].
  inversion H2; subst. constructor; assumption.
Qed.

Lemma threads_step_inv (op : PO.t) (h : PipelineHandler) (e : Threads.Event)
    (s s' : Threads.State) :
  Threads.inv h s -> Threads.step op e s = Some s' -> Threads.inv h s'.
Proof.
  unfold Threads.inv, Threads.threads. intros [Hinv Hall] Hstep.
  destruct e as [|j st|j]; cbn [Threads.step] in Hstep.
  - unfold Threads.main_step in Hstep.
    destruct (Threads.main s) eqn:Em;
      try (destruct (Threads.advance (Threads.main s) (Threads.shared s))
             as [[pc' sh']|] eqn:Ea; rewrite Em in Ea; rewrite Ea in Hstep;
           [|discriminate]; injection Hstep as <-;
           cbn [Threads.shared Threads.main Threads.tasks];
           exact (threads_advance_in_list h _ sh' [] _ _ pc' Hinv Hall Ea)).
    assert (Hret :
      Threads.shared_inv h (Threads.shared s)
        (Threads.count Threads.owns (Threads.Releasing :: Threads.tasks s))
        (Threads.count Threads.holds (Threads.Releasing :: Threads.tasks s))
        (Threads.count Threads.destroys
           (Threads.Releasing :: Threads.tasks s))
      /\ Forall (Threads.holds_only h)
                (Threads.Releasing :: Threads.tasks s)).
    { rewrite !threads_count_cons in *. split; [exact Hinv|].
      inversion Hall; subst. constructor; [exact I|assumption]. }
    destruct (nth_error (PO.pipelines op) (Threads.index s)) as [p|];
      [destruct (Pipeline_Run p)|]; injection Hstep as <-;
      cbn [Threads.shared Threads.main Threads.tasks];
      try exact Hret.
    split.
    + rewrite !threads_count_cons, !threads_count_app in *.
      rewrite !threads_count_cons in *.
      unfold Threads.shared_inv in *.
      cbn [Threads.ctx Threads.use_count Threads.calls Threads.owns
           Threads.holds Threads.destroys Nat.b2n Threads.count filter
           List.length] in *.
      destruct Hinv as (Hu & Hslot & Hd).
      split; [lia|]. split; [|intros; lia].
      replace (0 + (Threads.count Threads.holds (Threads.tasks s) + (0 + 0)))%nat
        with (0 + Threads.count Threads.holds (Threads.tasks s))%nat by lia.
      exact Hslot.
    + inversion Hall; subst. constructor; [exact I|].
      apply Forall_app. split; [assumption|]. repeat constructor.
  - unfold Threads.finish in Hstep.
    destruct (nth_error (Threads.tasks s) j) as [pc|] eqn:Ej; [|discriminate].
    destruct pc; try discriminate. injection Hstep as <-.
    cbn [Threads.shared Threads.main Threads.tasks].
    destruct (threads_set_nth_split _ j _ Ej) as (l1 & l2 & El & Hset).
    rewrite Hset. rewrite El in Hinv, Hall.
    rewrite !threads_count_cons, !threads_count_split in *.
    split; [exact Hinv|].
    inversion Hall as [|? ? Hm Ht]; subst. constructor; [exact Hm|].
    apply Forall_app in Ht. destruct Ht as [H1 H2].
    apply Forall_app. split; [exact H1|].
    inversion H2; subst. constructor; [exact I|assumption].
  - unfold Threads.task_step in Hstep.
    destruct (nth_error (Threads.tasks s) j) as [pc|] eqn:Ej; [|discriminate].
    destruct (Threads.advance pc (Threads.shared s)) as [[pc' sh']|] eqn:Ea;
      [|discriminate].
    injection Hstep as <-. cbn [Threads.shared Threads.main Threads.tasks].
    destruct (threads_set_nth_split _ j _ Ej) as (l1 & l2 & El & Hset).
    rewrite Hset. rewrite El in Hinv, Hall.
    exact (threads_advance_in_list h _ sh' (Threads.main s :: l1) l2 pc pc'
             Hinv Hall Ea).
Qed.

Lemma threads_exec_inv (op : PO.t) (h : PipelineHandler)
    (es : list Threads.Event) :
  forall s s',
    Threads.inv h s -> Threads.exec op es s = Some s' -> Threads.inv h s'.
Proof.
  induction es as [|e es IH]; intros s s' Hinv Hexec;
    cbn [Threads.exec] in Hexec.
  - injection Hexec as <-. exact Hinv.
  - destruct (Threads.step op e s) as [s1|] eqn:Hstep; [|discriminate].
    exact (IH s1 s' (threads_step_inv op h e s s1 Hinv Hstep) Hexec).
Qed.

Lemma threads_count_finished (f : Threads.Pc -> bool) (l : list Threads.Pc) :
  f Threads.Finished = false ->
  Forall (fun pc => pc = Threads.Finished) l ->
  Threads.count f l = 0%nat.
Proof.
  intros Hf Hall. induction Hall as [|pc l Hpc _ IH].
  - reflexivity.
  - rewrite threads_count_cons, IH, Hpc, Hf. reflexivity.
Qed.

Lemma threads_advance_progress (pc : Threads.Pc) (sh : Threads.Shared) :
  pc <> Threads.Running -> pc <> Threads.Finished ->
  exists pc' sh',
    Threads.advance pc sh = Some (pc', sh')
    /\ pc' <> Threads.Running
    /\ (Threads.weight pc' < Threads.weight pc)%nat.
Proof.
  intros Hr Hf. destruct pc as [|st|st|st|h' st| | |h'|];
    try congruence; cbn [Threads.advance].
  - destruct (Threads.Examine_first (Ctx.policy (Threads.ctx sh)) st)
      as [[[|]|] p']; eexists _, _; (split; [reflexivity|]);
      (split; [discriminate|cbn; lia]).
  - destruct (Threads.Examine_second (Ctx.policy (Threads.ctx sh)))
      as [[|] p']; eexists _, _; (split; [reflexivity|]);
      (split; [discriminate|cbn; lia]).
  - unfold Ctx.exchange_handler.
    destruct (Ctx.handler (Threads.ctx sh)); eexists _, _;
      (split; [reflexivity|]); (split; [discriminate|cbn; lia]).
  - eexists _, _. split; [reflexivity|]. split; [discriminate|cbn; lia].
  - destruct (Threads.use_count sh) as [|[|n]]; eexists _, _;
      (split; [reflexivity|]); (split; [discriminate|cbn; lia]).
  - unfold Ctx.exchange_handler.
    destruct (Ctx.handler (Threads.ctx sh)); eexists _, _;
      (split; [reflexivity|]); (split; [discriminate|cbn; lia]).
  - eexists _, _. split; [reflexivity|]. split; [discriminate|cbn; lia].
Qed.

Lemma threads_unfinished (l : list Threads.Pc) :
  Forall (fun pc => pc = Threads.Finished) l
  \/ exists j pc, nth_error l j = Some pc /\ pc <> Threads.Finished.
Proof.
  induction l as [|x l [IH|(j & pc & Hj & Hpc)]].
  - left. constructor.
  - assert (Hx : x = Threads.Finished \/ x <> Threads.Finished).
    { destruct x; (left; reflexivity) || (right; discriminate). }
    destruct Hx as [Hx|Hx].
    + left. constructor; assumption.
    + right. exists 0%nat, x. split; [reflexivity|exact Hx].
  - right. exists (S j), pc. split; assumption.
Qed.

Lemma list_sum_cons (x : nat) (l : list nat) :
  list_sum (x :: l) = (x + list_sum l)%nat.
Proof. reflexivity. Qed.

Lemma threads_weight_split (l1 l2 : list Threads.Pc) (pc : Threads.Pc) :
  list_sum (map Threads.weight (l1 ++ pc :: l2)) =
    (Threads.weight pc
     + (list_sum (map Threads.weight l1)
        + list_sum (map Threads.weight l2)))%nat.
Proof.
  rewrite map_app, list_sum_app. cbn [map]. rewrite list_sum_cons. lia.
Qed.

Lemma threads_remaining_main (op : PO.t) (s : Threads.State) :
  Threads.main s <> Threads.Running ->
  Threads.remaining op s =
    (Threads.weight (Threads.main s)
     + list_sum (map Threads.weight (Threads.tasks s)))%nat.
Proof.
  unfold Threads.remaining. destruct (Threads.main s); congruence.
Qed.

(** Whatever state the threads are in, they can all run to their end. *)
Lemma threads_can_finish (op : PO.t) (n : nat) :
  forall s,
    (Threads.remaining op s <= n)%nat ->
    exists es s', Threads.exec op es s = Some s' /\ Threads.terminal s'.
Proof.
  induction n as [|n IH]; intros s Hw.
  - exists [], s. split; [reflexivity|]. unfold Threads.remaining in Hw.
    unfold Threads.terminal.
    assert (Hsum : forall l,
              list_sum (map Threads.weight l) = 0%nat ->
              Forall (fun pc => pc = Threads.Finished) l).
    { induction l as [|x l IHl]; cbn [map]; rewrite ?list_sum_cons;
        intros H.
      - constructor.
      - constructor.
        + destruct x; cbn in H; try lia. reflexivity.
        + apply IHl. lia. }
    destruct (Threads.main s); cbn [Threads.weight] in Hw; try lia.
    split; [reflexivity|]. apply Hsum. lia.
  - assert (Hnext :
      Threads.terminal s
      \/ exists e s1,
           Threads.step op e s = Some s1
           /\ (Threads.remaining op s1 <= n)%nat).
    { destruct (Threads.main s) eqn:Em.
      1: { right. exists Threads.Main. cbn [Threads.step].
           unfold Threads.main_step. rewrite Em.
           unfold Threads.remaining in Hw. rewrite Em in Hw.
           destruct (nth_error (PO.pipelines op) (Threads.index s))
             as [p|] eqn:Hp.
           - assert (Threads.index s < List.length (PO.pipelines op))%nat.
             { apply nth_error_Some. congruence. }
             destruct (Pipeline_Run p); eexists; (split; [reflexivity|]);
               unfold Threads.remaining;
               cbn [Threads.main Threads.tasks Threads.index Threads.weight];
               rewrite ?map_app, ?list_sum_app; cbn [map];
               rewrite ?list_sum_cons; cbn [Threads.weight list_sum fold_right];
               lia.
           - eexists. split; [reflexivity|]. unfold Threads.remaining.
             cbn [Threads.main Threads.tasks Threads.index Threads.weight].
             lia. }
      8: { destruct (threads_unfinished (Threads.tasks s))
             as [Hall|(j & pc & Hj & Hpc)].
           - left. split; assumption.
           - right.
             destruct (threads_set_nth_split _ j pc Hj)
               as (l1 & l2 & El & Hset).
             rewrite threads_remaining_main in Hw by congruence.
             rewrite Em, El, threads_weight_split in Hw.
             cbn [Threads.weight] in Hw.
             assert (Hpc' : pc = Threads.Running \/ pc <> Threads.Running).
             { destruct pc; (left; reflexivity) || (right; discriminate). }
             destruct Hpc' as [->|Hrun].
             + exists (Threads.Finish j XRootDStatus_default).
               cbn [Threads.step]. unfold Threads.finish. rewrite Hj.
               eexists. split; [reflexivity|].
               rewrite threads_remaining_main
                 by (cbn [Threads.main]; congruence).
               cbn [Threads.main Threads.tasks].
               rewrite Em, Hset, threads_weight_split.
               cbn [Threads.weight] in *. lia.
             + destruct (threads_advance_progress pc (Threads.shared s)
                           Hrun Hpc) as (pc' & sh' & Ha & _ & Hlt).
               exists (Threads.Thread j). cbn [Threads.step].
               unfold Threads.task_step. rewrite Hj, Ha.
               eexists. split; [reflexivity|].
               rewrite threads_remaining_main
                 by (cbn [Threads.main]; congruence).
               cbn [Threads.main Threads.tasks].
               rewrite Em, Hset, threads_weight_split.
               cbn [Threads.weight]. lia. }
      all: right; exists Threads.Main; cbn [Threads.step];
        unfold Threads.main_step; rewrite Em;
        match goal with |- context [Threads.advance ?pc ?sh] =>
          destruct (threads_advance_progress pc sh)
            as (pc' & sh' & Ha & Hnr & Hlt); [discriminate|discriminate|]
        end;
        rewrite Ha; eexists; (split; [reflexivity|]);
        rewrite threads_remaining_main in * by
          (cbn [Threads.main]; congruence);
        cbn [Threads.main Threads.tasks]; rewrite Em in Hw; lia. }
    destruct Hnext as [Hterm|(e & s1 & Hstep & Hw1)].
    + exists [], s. split; [reflexivity|exact Hterm].
    + destruct (IH s1 Hw1) as (es & s' & Hexec & Hterm).
      exists (e :: es), s'. cbn [Threads.exec]. rewrite Hstep. auto.
Qed.

Lemma threads_exec_app (op : PO.t) (es1 es2 : list Threads.Event) :
  forall s,
    Threads.exec op (es1 ++ es2) s =
      match Threads.exec op es1 s with
      | Some s' => Threads.exec op es2 s'
      | None => None
      end.
Proof.
  induction es1 as [|e es1 IH]; intros s; cbn [Threads.exec app].
  - reflexivity.
  - destruct (Threads.step op e s); [apply IH|reflexivity].
Qed.

(** X1.  Exactly one call of the handler, whatever way the atomic
    operations of the thread inside [RunImpl] and of the continuations
    interleave: the handler is never called more than once; when all threads
    have run to their end it has been called exactly once; and the threads
    can always run to their end. *)
Theorem threads_handler_invoked_exactly_once (op : PO.t)
    (h : PipelineHandler) (pipelineTimeout : Z) (es : list Threads.Event)
    (s : Threads.State) :
  Threads.exec op es (Threads.enter op (Some h) pipelineTimeout) = Some s ->
  (List.length (Threads.calls (Threads.shared s)) <= 1)%nat
  /\ (Threads.terminal s ->
      exists st, Threads.calls (Threads.shared s) = [HandleResponse h st])
  /\ (exists es' s',
        Threads.exec op (es ++ es')
          (Threads.enter op (Some h) pipelineTimeout) = Some s'
        /\ Threads.terminal s').
Proof.
  intros Hexec.
  pose proof (threads_exec_inv op h es _ s
                (threads_enter_inv op h pipelineTimeout) Hexec)
    as [(Hu & Hslot & Hd) _].
  split; [|split].
  - destruct (Ctx.handler (Threads.ctx (Threads.shared s))).
    + destruct Hslot as (_ & -> & _). cbn. lia.
    + destruct Hslot as [[_ ->]|[_ [st ->]]]; cbn; lia.
  - intros [Hm Ht]. unfold Threads.threads in *.
    rewrite !threads_count_cons, Hm in *.
    rewrite !(threads_count_finished _ _ eq_refl Ht) in *.
    cbn [Nat.b2n Threads.owns Threads.holds Threads.destroys Nat.add] in *.
    destruct (Ctx.handler (Threads.ctx (Threads.shared s))).
    + destruct (Hd eq_refl) as [H|H]; [discriminate|lia].
    + destruct Hslot as [[H _]|[_ H]]; [discriminate|exact H].
  - destruct (threads_can_finish op _ s (Nat.le_refl _))
      as (es' & s' & He & Hterm).
    exists es', s'. rewrite threads_exec_app, Hexec. auto.
Qed.

(** ** Continuations that are not interrupted *)

Lemma advances_trans (pc1 pc2 pc3 : Threads.Pc)
    (sh1 sh2 sh3 : Threads.Shared) :
  advances pc1 sh1 pc2 sh2 -> advances pc2 sh2 pc3 sh3 ->
  advances pc1 sh1 pc3 sh3.
Proof.
  intros H12 H23. induction H12 as [|pc pc1 pc2 sh sh1 sh2 Ha _ IH].
  - exact H23.
  - exact (advances_step _ _ _ _ _ _ Ha (IH H23)).
Qed.

(** Giving up an owner share, and destroying the gate as the last owner, is
    [ParallelOperation.release]. *)
Lemma advances_release (s : PO.RunState) :
  advances Threads.Releasing (shared_of s)
           Threads.Finished (shared_of (PO.release s)).
Proof.
  unfold PO.release, shared_of.
  destruct (PO.use_count s) as [|[|n]] eqn:Eu.
  - eapply advances_step; [cbn; reflexivity|]. cbn. apply advances_refl.
  - unfold Ctx.destroy. rewrite Handle_eq.
    cbn [PO.ctx PO.use_count PO.calls].
    eapply advances_step; [cbn; reflexivity|].
    destruct (Ctx.handler (PO.ctx s)) as [h|] eqn:Eh.
    + eapply advances_step.
      { cbn [Threads.advance Threads.ctx]. unfold Ctx.exchange_handler.
        rewrite Eh. reflexivity. }
      eapply advances_step; [cbn; reflexivity|]. apply advances_refl.
    + eapply advances_step.
      { cbn [Threads.advance Threads.ctx]. unfold Ctx.exchange_handler.
        rewrite Eh. reflexivity. }
      cbn [Threads.ctx Threads.use_count Threads.calls].
      rewrite app_nil_r. apply advances_refl.
  - eapply advances_step; [cbn; reflexivity|]. cbn. apply advances_refl.
Qed.

(** The atomic operations of [ctx->Examine( st )], in a row, are
    [Ctx.Examine]. *)
Lemma advances_Examine (sh : Threads.Shared) (st : XRootDStatus) :
  advances (Threads.Examining st) sh Threads.Releasing
    {| Threads.ctx := fst (Ctx.Examine (Threads.ctx sh) st);
       Threads.use_count := Threads.use_count sh;
       Threads.calls :=
         Threads.calls sh ++ snd (Ctx.Examine (Threads.ctx sh) st) |}.
Proof.
  rewrite Examine_eq, threads_Examine_split. cbn [fst snd].
  assert (Hhandle : forall p',
    advances (Threads.Handling st)
      {| Threads.ctx := Ctx.mk (Ctx.handler (Threads.ctx sh)) p';
         Threads.use_count := Threads.use_count sh;
         Threads.calls := Threads.calls sh |}
      Threads.Releasing
      {| Threads.ctx := Ctx.mk None p';
         Threads.use_count := Threads.use_count sh;
         Threads.calls :=
           Threads.calls sh ++
           match Ctx.handler (Threads.ctx sh) with
           | Some h => [HandleResponse h st]
           | None => []
           end |}).
  { intros p'. destruct (Ctx.handler (Threads.ctx sh)) as [h|].
    - eapply advances_step; [cbn; reflexivity|].
      eapply advances_step; [cbn; reflexivity|]. apply advances_refl.
    - eapply advances_step; [cbn; reflexivity|].
      rewrite app_nil_r. apply advances_refl. }
  destruct (Threads.Examine_first (Ctx.policy (Threads.ctx sh)) st)
    as [[[|]|] p'] eqn:E1; cbn [fst snd].
  - eapply advances_step.
    { cbn [Threads.advance]. rewrite E1. reflexivity. }
    apply Hhandle.
  - eapply advances_step.
    { cbn [Threads.advance]. rewrite E1. reflexivity. }
    rewrite app_nil_r. apply advances_refl.
  - eapply advances_step.
    { cbn [Threads.advance]. rewrite E1. reflexivity. }
    destruct (Threads.Examine_second p') as [[|] p''] eqn:E2;
      cbn [fst snd].
    + eapply advances_step.
      { cbn [Threads.advance Threads.ctx Ctx.policy Ctx.handler].
        rewrite E2. reflexivity. }
      apply Hhandle.
    + eapply advances_step.
      { cbn [Threads.advance Threads.ctx Ctx.policy Ctx.handler].
        rewrite E2. reflexivity. }
      rewrite app_nil_r. apply advances_refl.
Qed.

Lemma threads_nth_error_set_nth (l : list Threads.Pc) :
  forall (j : nat) (pc pc' : Threads.Pc),
    nth_error l j = Some pc ->
    nth_error (Threads.set_nth j pc' l) j = Some pc'.
Proof.
  induction l as [|x l IH]; intros j pc pc' H.
  - destruct j; discriminate.
  - destruct j as [|j]; cbn [Threads.set_nth nth_error] in *.
    + reflexivity.
    + exact (IH j pc pc' H).
Qed.

Lemma threads_set_nth_twice (l : list Threads.Pc) :
  forall (j : nat) (pc pc' : Threads.Pc),
    Threads.set_nth j pc' (Threads.set_nth j pc l) = Threads.set_nth j pc' l.
Proof.
  induction l as [|x l IH]; intros j pc pc'.
  - destruct j; reflexivity.
  - destruct j as [|j]; cbn [Threads.set_nth].
    + reflexivity.
    + rewrite IH. reflexivity.
Qed.

Lemma threads_set_nth_same (l : list Threads.Pc) :
  forall (j : nat) (pc : Threads.Pc),
    nth_error l j = Some pc -> Threads.set_nth j pc l = l.
Proof.
  induction l as [|x l IH]; intros j pc H.
  - destruct j; reflexivity.
  - destruct j as [|j]; cbn [Threads.set_nth nth_error] in *.
    + injection H as ->. reflexivity.
    + rewrite (IH j pc H). reflexivity.
Qed.

(** The continuation of pipeline [j] makes its operations in a row. *)
Lemma threads_run_task (op : PO.t) (j : nat) (pc pc' : Threads.Pc)
    (sh sh' : Threads.Shared) :
  advances pc sh pc' sh' ->
  forall t,
    nth_error (Threads.tasks t) j = Some pc -> Threads.shared t = sh ->
    exists es,
      Threads.exec op es t =
        Some {| Threads.shared := sh'; Threads.index := Threads.index t;
                Threads.returned := Threads.returned t;
                Threads.main := Threads.main t;
                Threads.tasks := Threads.set_nth j pc' (Threads.tasks t) |}.
Proof.
  induction 1 as [pc sh|pc pc1 pc2 sh sh1 sh2 Ha _ IH]; intros t Hj Hsh.
  - exists []. cbn [Threads.exec]. rewrite (threads_set_nth_same _ j pc Hj).
    destruct t; cbn in *. subst. reflexivity.
  - destruct (IH {| Threads.shared := sh1; Threads.index := Threads.index t;
                    Threads.returned := Threads.returned t;
                    Threads.main := Threads.main t;
                    Threads.tasks :=
                      Threads.set_nth j pc1 (Threads.tasks t) |})
      as [es Hes].
    + cbn [Threads.tasks]. exact (threads_nth_error_set_nth _ j pc pc1 Hj).
    + reflexivity.
    + exists (Threads.Thread j :: es). cbn [Threads.exec Threads.step].
      unfold Threads.task_step. rewrite Hj, Hsh, Ha, Hes.
      cbn [Threads.index Threads.returned Threads.main Threads.tasks].
      rewrite threads_set_nth_twice. reflexivity.
Qed.

(** The thread inside [RunImpl], past its [return], makes its operations in
    a row. *)
Lemma threads_run_main (op : PO.t) (pc pc' : Threads.Pc)
    (sh sh' : Threads.Shared) :
  advances pc sh pc' sh' ->
  forall t,
    Threads.main t = pc -> Threads.shared t = sh ->
    exists es,
      Threads.exec op es t =
        Some {| Threads.shared := sh'; Threads.index := Threads.index t;
                Threads.returned := Threads.returned t;
                Threads.main := pc'; Threads.tasks := Threads.tasks t |}.
Proof.
  induction 1 as [pc sh|pc pc1 pc2 sh sh1 sh2 Ha _ IH]; intros t Hm Hsh.
  - exists []. cbn [Threads.exec]. destruct t; cbn in *. subst. reflexivity.
  - destruct (IH {| Threads.shared := sh1; Threads.index := Threads.index t;
                    Threads.returned := Threads.returned t;
                    Threads.main := pc1;
                    Threads.tasks := Threads.tasks t |} eq_refl eq_refl)
      as [es Hes].
    exists (Threads.Main :: es). cbn [Threads.exec Threads.step].
    assert (Hstep : Threads.main_step op t =
              Some {| Threads.shared := sh1; Threads.index := Threads.index t;
                      Threads.returned := Threads.returned t;
                      Threads.main := pc1;
                      Threads.tasks := Threads.tasks t |}).
    { unfold Threads.main_step. rewrite Hm, Hsh.
      destruct pc; try (rewrite Ha; reflexivity). discriminate Ha. }
    rewrite Hstep. exact Hes.
Qed.

Lemma task_pc_remove (pending : list nat) (j i : nat) :
  NoDup pending ->
  task_pc (PO.remove_one j pending) i =
    if Nat.eqb i j then Threads.Finished else task_pc pending i.
Proof.
  unfold task_pc. intros Hnd.
  induction Hnd as [|x l Hx _ IH]; cbn [PO.remove_one existsb].
  - destruct (Nat.eqb i j); reflexivity.
  - destruct (Nat.eqb j x) eqn:Ejx.
    + apply Nat.eqb_eq in Ejx. subst x.
      destruct (Nat.eqb i j) eqn:Eij; cbn [orb].
      * apply Nat.eqb_eq in Eij. subst i.
        assert (E : existsb (Nat.eqb j) l = false).
        { destruct (existsb (Nat.eqb j) l) eqn:E; [|reflexivity].
          apply existsb_exists in E. destruct E as (y & Hy & Ey).
          apply Nat.eqb_eq in Ey. subst y. contradiction. }
        rewrite E. reflexivity.
      * reflexivity.
    + cbn [existsb]. destruct (Nat.eqb i x) eqn:Eix; cbn [orb].
      * apply Nat.eqb_eq in Eix. subst x.
        rewrite Nat.eqb_sym in Ejx. rewrite Ejx. reflexivity.
      * exact IH.
Qed.

Lemma threads_set_nth_map_seq (f g : nat -> Threads.Pc) (pc : Threads.Pc)
    (n : nat) :
  forall a j,
    (j < n)%nat ->
    (forall i, g i = if Nat.eqb i (a + j) then pc else f i) ->
    Threads.set_nth j pc (map f (seq a n)) = map g (seq a n).
Proof.
  induction n as [|n IH]; intros a j Hj Hg; [lia|].
  cbn [seq map]. destruct j as [|j]; cbn [Threads.set_nth].
  - rewrite (Hg a), Nat.add_0_r, Nat.eqb_refl. f_equal.
    apply map_ext_in. intros i Hi. apply in_seq in Hi.
    rewrite (Hg i), Nat.add_0_r.
    destruct (Nat.eqb_spec i a); [lia|reflexivity].
  - rewrite (Hg a). destruct (Nat.eqb_spec a (a + S j)); [lia|].
    f_equal. apply IH; [lia|]. intros i. rewrite Hg.
    replace (S a + j)%nat with (a + S j)%nat by lia. reflexivity.
Qed.

Lemma remove_one_NoDup (j : nat) (l : list nat) :
  NoDup l -> NoDup (PO.remove_one j l).
Proof.
  intros H. induction H as [|x l Hx Hl IH]; cbn [PO.remove_one].
  - constructor.
  - destruct (Nat.eqb j x); [exact Hl|]. constructor; [|exact IH].
    intros Hin. apply Hx. clear -Hin.
    induction l as [|y l IHl]; cbn [PO.remove_one] in Hin; [contradiction|].
    destruct (Nat.eqb j y); [right; exact Hin|].
    destruct Hin as [->|Hin]; [left; reflexivity|right; exact (IHl Hin)].
Qed.

Lemma remove_one_Forall (P : nat -> Prop) (j : nat) (l : list nat) :
  Forall P l -> Forall P (PO.remove_one j l).
Proof.
  intros H. induction H as [|x l Hx Hl IH]; cbn [PO.remove_one].
  - constructor.
  - destruct (Nat.eqb j x); [exact Hl|]. constructor; assumption.
Qed.

Lemma abstracts_enter (op : PO.t) (h : option PipelineHandler)
    (pipelineTimeout : Z) :
  abstracts (PO.RunImpl_enter op h pipelineTimeout)
            (Threads.enter op h pipelineTimeout).
Proof.
  unfold abstracts, Threads.enter, PO.RunImpl_enter, shared_of. cbn.
  repeat split; constructor.
Qed.

Lemma shared_of_release_fields (s : PO.RunState) :
  PO.index (PO.release s) = PO.index s
  /\ PO.returned (PO.release s) = PO.returned s
  /\ PO.pending (PO.release s) = PO.pending s.
Proof.
  destruct (release_fields s) as (_ & E2 & E3 & _ & E5 & _). auto.
Qed.

(** Every step of [ParallelOperation.exec] is a row of atomic operations of
    one thread. *)
Lemma threads_simulate_step (op : PO.t) (e : PO.Event) (s s' : PO.RunState)
    (t : Threads.State) :
  abstracts s t -> PO.step op e s = Some s' ->
  exists es t', Threads.exec op es t = Some t' /\ abstracts s' t'.
Proof.
  intros (Hsh & Hi & Hr & Hm & Ht & Hnd & Hlt) Hstep.
  destruct e as [|j st]; cbn [PO.step] in Hstep.
  - unfold PO.RunImpl_step in Hstep.
    destruct (PO.returned s) eqn:Eret; [discriminate|].
    assert (Hreturn : forall st,
      exists es t',
        Threads.exec op es
          {| Threads.shared := Threads.shared t;
             Threads.index := Threads.index t;
             Threads.returned := Some st; Threads.main := Threads.Releasing;
             Threads.tasks := Threads.tasks t |} = Some t'
        /\ abstracts (PO.RunImpl_return st s) t').
    { intros st. unfold PO.RunImpl_return.
      match goal with |- context [PO.release ?x] => set (x0 := x) end.
      destruct (threads_run_main op _ _ _ _ (advances_release x0)
                  {| Threads.shared := Threads.shared t;
                     Threads.index := Threads.index t;
                     Threads.returned := Some st;
                     Threads.main := Threads.Releasing;
                     Threads.tasks := Threads.tasks t |} eq_refl)
        as [es Hes].
      { cbn [Threads.shared]. rewrite Hsh. reflexivity. }
      eexists es, _. split; [exact Hes|].
      destruct (shared_of_release_fields x0) as (E1 & E2 & E3).
      unfold abstracts. rewrite E1, E2, E3. subst x0.
      cbn [Threads.shared Threads.index Threads.returned Threads.main
           Threads.tasks PO.index PO.returned PO.pending].
      repeat split; assumption. }
    destruct (nth_error (PO.pipelines op) (PO.index s)) as [p|] eqn:Ep;
      pose proof Ep as Ep'; rewrite <- Hi in Ep'.
    + destruct (Pipeline_Run p) eqn:Erun; injection Hstep as <-.
      * exists [Threads.Main]. eexists. split.
        { cbn [Threads.exec Threads.step]. unfold Threads.main_step.
          rewrite Hm, Ep', Erun. reflexivity. }
        unfold abstracts.
        cbn [Threads.shared Threads.index Threads.returned Threads.main
             Threads.tasks PO.index PO.returned PO.pending].
        rewrite ?Hsh, ?Hi, ?Ht. unfold shared_of.
        cbn [Threads.ctx Threads.use_count Threads.calls PO.ctx PO.use_count
             PO.calls].
        split; [reflexivity|]. split; [reflexivity|]. split; [reflexivity|].
        split; [reflexivity|]. split; [|split].
        -- rewrite seq_S, map_app. cbn [map Nat.add]. f_equal.
           ++ apply map_ext_in. intros i Hin. apply in_seq in Hin.
              unfold task_pc. rewrite existsb_app. cbn [existsb].
              destruct (Nat.eqb_spec i (PO.index s)); [lia|].
              rewrite !orb_false_r. reflexivity.
           ++ unfold task_pc. rewrite existsb_app. cbn [existsb].
              rewrite Nat.eqb_refl, orb_true_r. reflexivity.
        -- apply NoDup_app; [exact Hnd|repeat constructor; intros []|].
           intros x Hx [<-|[]]. rewrite Forall_forall in Hlt.
           specialize (Hlt _ Hx). lia.
        -- apply Forall_app. split.
           ++ eapply Forall_impl; [|exact Hlt]. cbn. intros; lia.
           ++ repeat constructor.
      * destruct (Hreturn err) as (es & t' & Hes & Ha).
        exists (Threads.Main :: es), t'. split; [|exact Ha].
        cbn [Threads.exec Threads.step]. unfold Threads.main_step at 1.
        rewrite Hm, Ep', Erun. exact Hes.
      * destruct (Hreturn (mkStatus stError what)) as (es & t' & Hes & Ha).
        exists (Threads.Main :: es), t'. split; [|exact Ha].
        cbn [Threads.exec Threads.step]. unfold Threads.main_step at 1.
        rewrite Hm, Ep', Erun. exact Hes.
    + injection Hstep as <-.
      destruct (Hreturn XRootDStatus_default) as (es & t' & Hes & Ha).
      exists (Threads.Main :: es), t'. split; [|exact Ha].
      cbn [Threads.exec Threads.step]. unfold Threads.main_step at 1.
      rewrite Hm, Ep'. exact Hes.
  - unfold PO.continuation in Hstep.
    destruct (existsb (Nat.eqb j) (PO.pending s)) eqn:Ein; [|discriminate].
    assert (Hj : (j < PO.index s)%nat).
    { apply existsb_exists in Ein. destruct Ein as (x & Hx & Ex).
      apply Nat.eqb_eq in Ex. subst x. rewrite Forall_forall in Hlt.
      exact (Hlt _ Hx). }
    assert (Hrun : nth_error (Threads.tasks t) j = Some Threads.Running).
    { rewrite Ht. rewrite nth_error_map, nth_error_seq.
      destruct (Nat.ltb_spec j (PO.index s)); [|lia].
      cbn. unfold task_pc. rewrite Ein. reflexivity. }
    pose proof (advances_Examine (shared_of s) st) as HA.
    cbn [shared_of Threads.ctx Threads.use_count Threads.calls] in HA.
    destruct (Ctx.Examine (PO.ctx s) st) as [c out] eqn:Eex.
    cbn [fst snd] in HA. injection Hstep as <-.
    match goal with |- context [PO.release ?x] => set (x0 := x) end.
    pose proof (advances_trans _ _ _ _ _ _ HA (advances_release x0)) as HB.
    destruct (threads_run_task op j _ _ _ _ HB
                {| Threads.shared := Threads.shared t;
                   Threads.index := Threads.index t;
                   Threads.returned := Threads.returned t;
                   Threads.main := Threads.main t;
                   Threads.tasks :=
                     Threads.set_nth j (Threads.Examining st)
                                     (Threads.tasks t) |})
      as [es Hes].
    { cbn [Threads.tasks]. exact (threads_nth_error_set_nth _ j _ _ Hrun). }
    { cbn [Threads.shared]. rewrite Hsh. reflexivity. }
    exists (Threads.Finish j st :: es). eexists. split.
    { cbn [Threads.exec Threads.step]. unfold Threads.finish.
      rewrite Hrun. exact Hes. }
    destruct (shared_of_release_fields x0) as (E1 & E2 & E3).
    unfold abstracts. rewrite E1, E2, E3. subst x0.
    cbn [Threads.shared Threads.index Threads.returned Threads.main
         Threads.tasks PO.index PO.returned PO.pending].
    rewrite threads_set_nth_twice.
    split; [reflexivity|]. split; [exact Hi|]. split; [exact Hr|].
    split; [exact Hm|]. split; [|split].
    + rewrite Ht. apply threads_set_nth_map_seq; [exact Hj|].
      intros i. cbn [Nat.add]. apply task_pc_remove. exact Hnd.
    + apply remove_one_NoDup. exact Hnd.
    + apply remove_one_Forall. exact Hlt.
Qed.

(** X4.  Every run of [ParallelOperation.exec] is a run of the threads, one
    in which no continuation and no destruction of the gate is
    interrupted. *)
Theorem threads_simulate (op : PO.t) (h : option PipelineHandler)
    (pipelineTimeout : Z) (es : list PO.Event) (s : PO.RunState) :
  PO.exec op es (PO.RunImpl_enter op h pipelineTimeout) = Some s ->
  exists es' t,
    Threads.exec op es' (Threads.enter op h pipelineTimeout) = Some t
    /\ abstracts s t.
Proof.
  revert s. induction es as [|e es IH] using rev_ind; intros s Hexec.
  - cbn in Hexec. injection Hexec as <-.
    exists [], (Threads.enter op h pipelineTimeout).
    split; [reflexivity|]. apply abstracts_enter.
  - rewrite exec_snoc in Hexec.
    destruct (PO.exec op es (PO.RunImpl_enter op h pipelineTimeout))
      as [s1|] eqn:E; [|discriminate].
    destruct (IH s1 eq_refl) as (es1 & t1 & Hes1 & Ha1).
    destruct (threads_simulate_step op e s1 s t1 Ha1 Hexec)
      as (es2 & t2 & Hes2 & Ha2).
    exists (es1 ++ es2), t2. rewrite threads_exec_app, Hes1. auto.
Qed.

Lemma abstracts_calls (s : PO.RunState) (t : Threads.State) :
  abstracts s t ->
  Threads.calls (Threads.shared t) = PO.calls s
  /\ (PO.quiescent s -> Threads.terminal t).
Proof.
  intros (Hsh & _ & _ & Hm & Ht & _). split.
  - rewrite Hsh. reflexivity.
  - intros [Hr Hp]. split.
    + rewrite Hm. destruct (PO.returned s); [reflexivity|congruence].
    + rewrite Ht, Hp. apply Forall_forall. intros pc Hin.
      apply in_map_iff in Hin. destruct Hin as (j & <- & _). reflexivity.
Qed.

Lemma sample_interleaving_run :
  Threads.exec sample_op sample_interleaving
    (Threads.enter sample_op (Some 7%nat) 10)
  = Some sample_interleaving_final.
Proof. vm_compute. reflexivity. Qed.

Lemma sample_interleaving_terminal :
  Threads.terminal sample_interleaving_final.
Proof. split; [reflexivity|]. repeat constructor. Qed.

Lemma threads_handler_invoked_exactly_once_witness :
  Threads.exec sample_op sample_interleaving
    (Threads.enter sample_op (Some 7%nat) 10)
  = Some sample_interleaving_final
  /\ Threads.terminal sample_interleaving_final
  /\ exists st,
       Threads.calls (Threads.shared sample_interleaving_final) =
         [HandleResponse 7%nat st].
Proof.
  split; [exact sample_interleaving_run|].
  split; [exact sample_interleaving_terminal|].
  exact (proj1 (proj2 (threads_handler_invoked_exactly_once sample_op 7%nat
                         10 sample_interleaving sample_interleaving_final
                         sample_interleaving_run))
               sample_interleaving_terminal).
Defined.

Lemma threads_simulate_witness :
  exists es' t,
    Threads.exec sample_op es' (Threads.enter sample_op (Some 7%nat) 10)
      = Some t
    /\ abstracts sample_final t.
Proof.
  exact (threads_simulate sample_op (Some 7%nat) 10 sample_schedule
           sample_final sample_run).
Defined.

Example sample_interleaving_calls :
  Threads.calls (Threads.shared sample_interleaving_final) =
    [HandleResponse 7%nat XRootDStatus_default]
  /\ Threads.use_count (Threads.shared sample_interleaving_final) = 0%nat.
Proof. split; reflexivity. Qed.

(** * Further properties *)

(** ** The calls of the handler in every state of an activation *)

Lemma gate_of_eq (op : PO.t) (h : PipelineHandler) :
  gate_of op h = Ctx.mk (Some h) (Ctx.policy (gate_of op h)).
Proof. reflexivity. Qed.

(** X5.  In every state of an activation the calls of the handler are fixed
    by the outcomes of the pipelines that have finished, in the order in
    which they finished: if the policy has answered [true] to one of them,
    the handler was called once, with the first such outcome, and this at
    once, whether or not the gate is destroyed; otherwise it was not called
    while the gate is alive, and called with the default status by the
    destructor. *)
Theorem handler_calls_in_every_state (op : PO.t) (h : PipelineHandler)
    (pipelineTimeout : Z) (es : list PO.Event) (s : PO.RunState) :
  PO.exec op es (PO.RunImpl_enter op (Some h) pipelineTimeout) = Some s ->
  PO.calls s =
    match first_decided (Ctx.policy (gate_of op h)) (completions es) with
    | Some st => [HandleResponse h st]
    | None =>
        if Nat.eqb (PO.use_count s) 0
        then [HandleResponse h XRootDStatus_default]
        else []
    end.
Proof.
  intros Hexec.
  destruct (reachable_calls op h pipelineTimeout es s Hexec)
    as [(Hu & _ & ->)|(Hu & _ & ->)]; rewrite (gate_of_eq op h).
  - destruct (examine_all_decided (completions es)
                (Ctx.policy (gate_of op h)) h) as [E _].
    rewrite E. apply Nat.eqb_neq in Hu. rewrite Hu.
    destruct (first_decided _ _); reflexivity.
  - rewrite delivered_aggregate. unfold aggregate. rewrite Hu.
    destruct (first_decided _ _); reflexivity.
Qed.

Lemma handler_calls_in_every_state_witness :
  PO.calls sample_final = [HandleResponse 7%nat XRootDStatus_default].
Proof.
  exact (handler_calls_in_every_state sample_op 7%nat 10 sample_schedule
           sample_final sample_run).
Defined.

(** ** The owners of the gate, counted *)

(** X6.  In every state of an activation the owner count of the gate is one
    for the thread inside [RunImpl], until it returns, plus one for every
    started pipeline whose continuation has not run; the pipelines launched
    are those that finished and those still running; the gate is destroyed
    exactly when [RunImpl] has returned and no pipeline is running, and by
    then as many pipelines have finished as were started. *)
Theorem gate_owner_count (op : PO.t) (h : PipelineHandler)
    (pipelineTimeout : Z) (es : list PO.Event) (s : PO.RunState) :
  PO.exec op es (PO.RunImpl_enter op (Some h) pipelineTimeout) = Some s ->
  PO.use_count s =
    ((match PO.returned s with None => 1 | Some _ => 0 end)
     + List.length (PO.pending s))%nat
  /\ (List.length (completions es) + List.length (PO.pending s)
      = PO.index s)%nat
  /\ (PO.use_count s = 0%nat <-> PO.quiescent s)
  /\ (PO.quiescent s ->
      List.length (completions es) = first_throw (PO.pipelines op)).
Proof.
  intros Hexec.
  destruct (enter_inv op h pipelineTimeout) as [Ho Hs].
  destruct (exec_inv op h es _ s Ho Hs Hexec) as [Ho' _].
  destruct (exec_launch_inv op (Some h) pipelineTimeout es s Hexec)
    as (_ & _ & _ & Hc & Hr).
  split; [exact Ho'|]. split; [exact Hc|]. split; [split|].
  - intros H0. unfold owners_inv in Ho'. rewrite H0 in Ho'.
    unfold PO.quiescent. destruct (PO.returned s); cbn in Ho'; [|discriminate].
    split; [discriminate|]. destruct (PO.pending s); [reflexivity|discriminate].
  - exact (quiescent_released s Ho').
  - intros [Hret Hp]. destruct (PO.returned s) as [st|]; [|congruence].
    destruct (Hr st eq_refl) as [Hi _]. rewrite Hp in Hc. cbn in Hc. lia.
Qed.

Lemma gate_owner_count_witness :
  PO.use_count faulty_state = 2%nat
  /\ (1 + 1 = PO.index faulty_state)%nat
  /\ (PO.use_count faulty_state = 0%nat <-> PO.quiescent faulty_state).
Proof.
  pose proof (gate_owner_count faulty_op 7%nat 10 faulty_schedule
                faulty_state eq_refl) as (H1 & H2 & H3 & _).
  split; [exact H1|]. split; [exact H2|exact H3].
Defined.

(** ** A null handler *)

Lemma null_handler_step (op : PO.t) (e : PO.Event) (s s' : PO.RunState) :
  Ctx.handler (PO.ctx s) = None /\ PO.calls s = [] ->
  PO.step op e s = Some s' ->
  Ctx.handler (PO.ctx s') = None /\ PO.calls s' = [].
Proof.
  intros [Hh Hc] Hstep.
  assert (Hrel : forall x : PO.RunState,
            Ctx.handler (PO.ctx x) = None -> PO.calls x = [] ->
            Ctx.handler (PO.ctx (PO.release x)) = None
            /\ PO.calls (PO.release x) = []).
  { intros x Hx Hcx. unfold PO.release.
    destruct (PO.use_count x) as [|[|n]].
    - cbn. auto.
    - unfold Ctx.destroy. rewrite Handle_eq, Hx, Hcx. cbn. auto.
    - cbn. auto. }
  destruct e as [|j st]; cbn [PO.step] in Hstep.
  - unfold PO.RunImpl_step, PO.RunImpl_return in Hstep.
    destruct (PO.returned s); [discriminate|].
    destruct (nth_error (PO.pipelines op) (PO.index s)) as [p|];
      [destruct (Pipeline_Run p)|]; injection Hstep as <-;
      try (apply Hrel; assumption).
    cbn. auto.
  - unfold PO.continuation in Hstep.
    destruct (existsb (Nat.eqb j) (PO.pending s)); [|discriminate].
    destruct (Examine_empty_slot (PO.ctx s) st Hh) as [E1 E2].
    destruct (Ctx.Examine (PO.ctx s) st) as [c out]. cbn [fst snd] in E1, E2.
    injection Hstep as <-. apply Hrel; cbn; [exact E1|].
    rewrite Hc, E2. reflexivity.
Qed.

(** X7.  When [RunImpl] is given a null handler, no call of a handler is
    made in any state of the activation, by a continuation or by the
    destructor. *)
Theorem null_handler_never_called (op : PO.t) (pipelineTimeout : Z)
    (es : list PO.Event) (s : PO.RunState) :
  PO.exec op es (PO.RunImpl_enter op None pipelineTimeout) = Some s ->
  PO.calls s = [] /\ Ctx.handler (PO.ctx s) = None.
Proof.
  assert (H : forall s0,
            Ctx.handler (PO.ctx s0) = None /\ PO.calls s0 = [] ->
            PO.exec op es s0 = Some s ->
            Ctx.handler (PO.ctx s) = None /\ PO.calls s = []).
  { induction es as [|e es IH]; intros s0 H0 Hexec; cbn [PO.exec] in Hexec.
    - injection Hexec as <-. exact H0.
    - destruct (PO.step op e s0) as [s1|] eqn:E; [|discriminate].
      exact (IH s1 (null_handler_step op e s0 s1 H0 E) Hexec). }
  intros Hexec.
  destruct (H (PO.RunImpl_enter op None pipelineTimeout)
              (conj eq_refl eq_refl) Hexec).
  auto.
Qed.

Lemma null_handler_run :
  PO.exec sample_op sample_schedule (PO.RunImpl_enter sample_op None 10)
  = Some null_handler_final.
Proof. vm_compute. reflexivity. Qed.

Lemma null_handler_never_called_witness :
  PO.calls null_handler_final = []
  /\ Ctx.handler (PO.ctx null_handler_final) = None.
Proof.
  exact (null_handler_never_called sample_op 10 sample_schedule
           null_handler_final null_handler_run).
Defined.

(** ** [RunImpl] and the pipelines that are running *)

(** X8.  While a started pipeline is still running, no action of the thread
    inside [RunImpl] calls the handler or touches the gate: not a launch,
    and not the [return], be it after the loop or out of a [catch] clause.
    The gate stays alive for the continuations to come. *)
Theorem RunImpl_silent_while_running (op : PO.t) (h : PipelineHandler)
    (pipelineTimeout : Z) (es : list PO.Event) (s s' : PO.RunState) :
  PO.exec op es (PO.RunImpl_enter op (Some h) pipelineTimeout) = Some s ->
  PO.pending s <> [] ->
  PO.step op PO.Advance s = Some s' ->
  PO.calls s' = PO.calls s /\ PO.ctx s' = PO.ctx s
  /\ PO.use_count s' <> 0%nat.
Proof.
  intros Hexec Hp Hstep.
  destruct (enter_inv op h pipelineTimeout) as [Ho Hs].
  destruct (exec_inv op h es _ s Ho Hs Hexec) as [Ho' _].
  cbn [PO.step] in Hstep. unfold PO.RunImpl_step in Hstep.
  destruct (PO.returned s) eqn:Hr; [discriminate|].
  assert (Hret : forall st,
            PO.calls (PO.RunImpl_return st s) = PO.calls s
            /\ PO.ctx (PO.RunImpl_return st s) = PO.ctx s
            /\ PO.use_count (PO.RunImpl_return st s) <> 0%nat).
  { intros st.
    destruct (return_with_running_pipelines st s Ho' Hr Hp) as [E1 E2].
    split; [exact E1|]. split; [exact E2|].
    unfold PO.RunImpl_return.
    match goal with |- context [PO.release ?x] =>
      destruct (release_fields x) as (E & _) end.
    rewrite E. cbn. unfold owners_inv in Ho'. rewrite Ho', Hr.
    destruct (PO.pending s); [congruence|]. cbn. discriminate. }
  destruct (nth_error (PO.pipelines op) (PO.index s)) as [p|];
    [destruct (Pipeline_Run p)|]; injection Hstep as <-; try apply Hret.
  cbn. repeat split. discriminate.
Qed.

Lemma faulty_run :
  PO.exec faulty_op faulty_schedule
    (PO.RunImpl_enter faulty_op (Some 7%nat) 10) = Some faulty_state.
Proof. vm_compute. reflexivity. Qed.

Lemma RunImpl_silent_while_running_witness :
  PO.returned faulty_next = Some (failure "no")
  /\ PO.calls faulty_next = PO.calls faulty_state
  /\ PO.ctx faulty_next = PO.ctx faulty_state
  /\ PO.use_count faulty_next <> 0%nat.
Proof.
  split; [reflexivity|].
  apply (RunImpl_silent_while_running faulty_op 7%nat 10 faulty_schedule
           faulty_state faulty_next faulty_run).
  - discriminate.
  - reflexivity.
Defined.

(** ** What each policy hands to the handler *)

Lemma AnyPolicy_first_decided (sts : list XRootDStatus) :
  forall c : Z,
    is_size_t c -> Z.of_nat (List.length sts) = c -> sts <> [] ->
    first_decided (PAny (AnyPolicy.mk c)) sts =
      Some (match find IsOK sts with
            | Some st => st
            | None => last sts XRootDStatus_default
            end).
Proof.
  induction sts as [|st rest IH]; intros c Hc Hlen Hne; [congruence|].
  cbn [first_decided PolicyExecutor_Examine find].
  cbn [List.length] in Hlen.
  rewrite AnyPolicy_Examine_eq by (unfold is_size_t in *; lia).
  destruct (IsOK st) eqn:Est; cbn [orb]; [reflexivity|].
  destruct (Z.eqb_spec c 1) as [H1|H1].
  - destruct rest; [reflexivity|]. cbn [List.length] in Hlen. lia.
  - destruct rest as [|st' rest']; [cbn in Hlen; lia|].
    rewrite IH; [|unfold is_size_t in *; lia|lia|discriminate].
    reflexivity.
Qed.

(** X9.  `Any` on [n] pipelines that all finish, [n] at least 1, always
    answers [true] before the gate is destroyed: the handler receives the
    first success in the order of completion, or the last failure when no
    pipeline succeeds.  So the status it receives is a success exactly when
    one of the pipelines succeeded. *)
Theorem AnyPolicy_delivers (n : Z) (sts : list XRootDStatus)
    (h : PipelineHandler) :
  is_size_t n -> Z.of_nat (List.length sts) = n -> sts <> [] ->
  first_decided (PAny (AnyPolicy.new n)) sts <> None
  /\ delivered (Ctx.mk (Some h) (PAny (AnyPolicy.new n))) sts =
       [HandleResponse h
          (match find IsOK sts with
           | Some st => st
           | None => last sts XRootDStatus_default
           end)]
  /\ IsOK (aggregate (PAny (AnyPolicy.new n)) sts) = existsb IsOK sts.
Proof.
  intros Hn Hlen Hne. unfold AnyPolicy.new.
  pose proof (AnyPolicy_first_decided sts n Hn Hlen Hne) as Hd.
  split; [rewrite Hd; discriminate|].
  rewrite delivered_aggregate. unfold aggregate. rewrite Hd.
  split; [reflexivity|].
  clear Hd Hlen Hn. induction sts as [|st rest IH]; [congruence|].
  cbn [find existsb]. destruct (IsOK st) eqn:Est; [exact Est|].
  cbn [orb]. destruct rest as [|st' rest'].
  - cbn. exact Est.
  - rewrite <- IH by discriminate. reflexivity.
Qed.

Lemma AnyPolicy_delivers_witness :
  first_decided (PAny (AnyPolicy.new 4)) four_outcomes <> None
  /\ delivered (Ctx.mk (Some 7%nat) (PAny (AnyPolicy.new 4))) four_outcomes =
       [HandleResponse 7%nat XRootDStatus_default]
  /\ IsOK (aggregate (PAny (AnyPolicy.new 4)) four_outcomes) = true.
Proof.
  refine (AnyPolicy_delivers 4 four_outcomes 7%nat
            (is_size_t_intro 4 eq_refl) eq_refl _).
  discriminate.
Defined.

(** X10.  `All` hands the handler the first failure in the order of
    completion, and the default success status when there is none, for any
    number of outcomes: the status the handler receives is a success exactly
    when every pipeline that finished succeeded. *)
Theorem AllPolicy_delivers (sts : list XRootDStatus) (h : PipelineHandler) :
  delivered (Ctx.mk (Some h) PAll) sts =
    [HandleResponse h
       (match find (fun st => negb (IsOK st)) sts with
        | Some f => f
        | None => XRootDStatus_default
        end)]
  /\ IsOK (aggregate PAll sts) = all_succeeded sts.
Proof.
  rewrite delivered_aggregate. unfold aggregate, all_succeeded.
  assert (Hd : first_decided PAll sts =
               find (fun st => negb (IsOK st)) sts).
  { induction sts as [|st rest IH]; cbn [first_decided find]; [reflexivity|].
    cbn [PolicyExecutor_Examine]. rewrite AllPolicy_Examine_eq.
    destruct (negb (IsOK st)); [reflexivity|exact IH]. }
  rewrite Hd. split; [reflexivity|].
  induction sts as [|st rest IH]; cbn [find forallb]; [reflexivity|].
  destruct (IsOK st) eqn:Est; cbn [negb andb].
  - apply IH. clear. induction rest as [|st' rest' IH'];
      cbn [first_decided find]; [reflexivity|].
    cbn [PolicyExecutor_Examine]. rewrite AllPolicy_Examine_eq.
    destruct (negb (IsOK st')); [reflexivity|exact IH'].
  - exact Est.
Qed.

Lemma AtLeastPolicy_Examine_eq (c k : Z) (st : XRootDStatus) :
  is_size_t c -> 0 < c ->
  AtLeastPolicy.Examine (AtLeastPolicy.mk c k) st =
    (negb (IsOK st) && (c =? k), AtLeastPolicy.mk (c - 1) k).
Proof.
  intros Hc Hpos. unfold AtLeastPolicy.Examine, fetch_sub.
  cbn [AtLeastPolicy.cnt AtLeastPolicy.threshold].
  rewrite to_size_t_small by (unfold is_size_t in *; lia).
  destruct (IsOK st); [reflexivity|]. destruct (c =? k); reflexivity.
Qed.

(** `AtLeast` cannot answer [true] when its counter is below the threshold
    already, or stays above it to the end of the list. *)
Lemma AtLeastPolicy_never (k : Z) (sts : list XRootDStatus) :
  forall c : Z,
    is_size_t c -> Z.of_nat (List.length sts) <= c ->
    c < k \/ k <= c - Z.of_nat (List.length sts) ->
    first_decided (PAtLeast (AtLeastPolicy.mk c k)) sts = None.
Proof.
  induction sts as [|st rest IH]; intros c Hc Hlen Hk; [reflexivity|].
  cbn [List.length] in Hlen, Hk. cbn [first_decided PolicyExecutor_Examine].
  rewrite AtLeastPolicy_Examine_eq by (unfold is_size_t in *; lia).
  assert (E : (c =? k) = false) by (apply Z.eqb_neq; lia).
  rewrite E, andb_false_r.
  apply IH; unfold is_size_t in *; lia.
Qed.

Lemma AtLeastPolicy_first_decided (k : Z) (sts : list XRootDStatus) :
  forall (c : Z) (d : nat),
    is_size_t c -> Z.of_nat (List.length sts) <= c ->
    c - k = Z.of_nat d ->
    first_decided (PAtLeast (AtLeastPolicy.mk c k)) sts =
      match nth_error sts d with
      | Some st => if IsOK st then None else Some st
      | None => None
      end.
Proof.
  induction sts as [|st rest IH]; intros c d Hc Hlen Hd.
  - destruct d; reflexivity.
  - cbn [List.length] in Hlen. cbn [first_decided PolicyExecutor_Examine].
    rewrite AtLeastPolicy_Examine_eq by (unfold is_size_t in *; lia).
    destruct d as [|d']; cbn [nth_error].
    + assert (E : (c =? k) = true) by (apply Z.eqb_eq; lia).
      rewrite E, andb_true_r. destruct (IsOK st); cbn [negb]; [|reflexivity].
      apply AtLeastPolicy_never; unfold is_size_t in *; lia.
    + assert (E : (c =? k) = false) by (apply Z.eqb_neq; lia).
      rewrite E, andb_false_r.
      apply IH; unfold is_size_t in *; lia.
Qed.

(** X11.  `AtLeast` with a threshold [k] in the range, on [n] pipelines that
    all finish, looks at one outcome only: the one of the pipeline that
    finishes when [k] pipelines have not finished yet, the [(n - k + 1)]-th
    in the order of completion.  If that outcome is a failure the handler
    receives it; otherwise the handler receives the default success status,
    whatever the other outcomes are. *)
Theorem AtLeastPolicy_delivers (n k : Z) (sts : list XRootDStatus)
    (h : PipelineHandler) :
  is_size_t n -> 0 < k <= n -> Z.of_nat (List.length sts) = n ->
  delivered (Ctx.mk (Some h) (PAtLeast (AtLeastPolicy.new n k))) sts =
    [HandleResponse h
       (if IsOK (nth (Z.to_nat (n - k)) sts XRootDStatus_default)
        then XRootDStatus_default
        else nth (Z.to_nat (n - k)) sts XRootDStatus_default)].
Proof.
  intros Hn Hk Hlen. rewrite delivered_aggregate.
  unfold aggregate, AtLeastPolicy.new.
  rewrite (AtLeastPolicy_first_decided k sts n (Z.to_nat (n - k)))
    by (try exact Hn; lia).
  assert (Hd : (Z.to_nat (n - k) < List.length sts)%nat) by lia.
  rewrite (nth_error_nth' sts XRootDStatus_default Hd).
  destruct (IsOK (nth (Z.to_nat (n - k)) sts XRootDStatus_default));
    reflexivity.
Qed.

Lemma in_range_intro (k n : Z) :
  (0 <? k) && (k <=? n) = true -> 0 < k <= n.
Proof.
  intros H. apply andb_true_iff in H. destruct H as [H1 H2].
  apply Z.ltb_lt in H1. apply Z.leb_le in H2. auto.
Qed.

Lemma AtLeastPolicy_delivers_witness :
  delivered (Ctx.mk (Some 7%nat) (PAtLeast (AtLeastPolicy.new 4 2)))
            four_outcomes =
    [HandleResponse 7%nat (failure "c")].
Proof.
  exact (AtLeastPolicy_delivers 4 2 four_outcomes 7%nat
           (is_size_t_intro 4 eq_refl) (in_range_intro 2 4 eq_refl) eq_refl).
Defined.

Lemma SomePolicy_Examine_eq (c s k : Z) (st : XRootDStatus) :
  is_size_t c -> 0 < c -> 0 <= s -> s + 1 < size_t_modulus ->
  SomePolicy.Examine (SomePolicy.mk c s k) st =
    (if IsOK st then s + 1 =? k else c =? k,
     SomePolicy.mk (c - 1) (if IsOK st then s + 1 else s) k).
Proof.
  intros Hc Hpos Hs Hb. unfold SomePolicy.Examine, fetch_sub, fetch_add.
  cbn [SomePolicy.cnt SomePolicy.succeeded SomePolicy.threshold].
  rewrite !to_size_t_small by (unfold is_size_t in *; lia).
  destruct (IsOK st).
  - destruct (s + 1 =? k); reflexivity.
  - destruct (c =? k); reflexivity.
Qed.

(** `Some` answers [true] to no failure when its counter is below the
    threshold already, or stays above it to the end of the list. *)
Lemma SomePolicy_no_failure (k : Z) (sts : list XRootDStatus) :
  forall c s : Z,
    is_size_t c -> Z.of_nat (List.length sts) <= c ->
    0 <= s -> s + Z.of_nat (List.length sts) < size_t_modulus ->
    c < k \/ k <= c - Z.of_nat (List.length sts) ->
    match first_decided (PSome (SomePolicy.mk c s k)) sts with
    | Some st => IsOK st = true
    | None => True
    end.
Proof.
  induction sts as [|st rest IH]; intros c s Hc Hlen Hs Hb Hk; [exact I|].
  cbn [List.length] in Hlen, Hb, Hk.
  cbn [first_decided PolicyExecutor_Examine].
  rewrite SomePolicy_Examine_eq by (unfold is_size_t in *; lia).
  destruct (IsOK st) eqn:Est.
  - destruct (s + 1 =? k); [exact Est|].
    apply IH; unfold is_size_t in *; lia.
  - assert (E : (c =? k) = false) by (apply Z.eqb_neq; lia).
    rewrite E. apply IH; unfold is_size_t in *; lia.
Qed.

(** `Some` never answers [true] when, besides, its success counter is past
    the threshold or cannot reach it. *)
Lemma SomePolicy_never (k : Z) (sts : list XRootDStatus) :
  forall c s : Z,
    is_size_t c -> Z.of_nat (List.length sts) <= c ->
    0 <= s -> s + Z.of_nat (List.length sts) < size_t_modulus ->
    c < k \/ k <= c - Z.of_nat (List.length sts) ->
    k <= s \/ s + Z.of_nat (List.length sts) < k ->
    first_decided (PSome (SomePolicy.mk c s k)) sts = None.
Proof.
  induction sts as [|st rest IH]; intros c s Hc Hlen Hs Hb Hk Hk';
    [reflexivity|].
  cbn [List.length] in Hlen, Hb, Hk, Hk'.
  cbn [first_decided PolicyExecutor_Examine].
  rewrite SomePolicy_Examine_eq by (unfold is_size_t in *; lia).
  destruct (IsOK st).
  - assert (E : (s + 1 =? k) = false) by (apply Z.eqb_neq; lia).
    rewrite E. apply IH; unfold is_size_t in *; lia.
  - assert (E : (c =? k) = false) by (apply Z.eqb_neq; lia).
    rewrite E. apply IH; unfold is_size_t in *; lia.
Qed.

Lemma SomePolicy_decided (k : Z) (sts : list XRootDStatus) :
  forall (c s : Z) (d : nat),
    is_size_t c -> Z.of_nat (List.length sts) <= c ->
    0 <= s -> s + Z.of_nat (List.length sts) < size_t_modulus ->
    s < k -> c - k = Z.of_nat d -> (d < List.length sts)%nat ->
    IsOK (aggregate (PSome (SomePolicy.mk c s k)) sts) =
      IsOK (nth d sts XRootDStatus_default)
      || (k - s <=? successes (firstn d sts))
    /\ (IsOK (aggregate (PSome (SomePolicy.mk c s k)) sts) = false ->
        aggregate (PSome (SomePolicy.mk c s k)) sts =
          nth d sts XRootDStatus_default).
Proof.
  unfold aggregate.
  induction sts as [|st rest IH]; intros c s d Hc Hlen Hs Hb Hsk Hd Hdl;
    [cbn in Hdl; lia|].
  cbn [List.length] in Hlen, Hb, Hdl.
  cbn [first_decided PolicyExecutor_Examine].
  rewrite SomePolicy_Examine_eq by (unfold is_size_t in *; lia).
  destruct d as [|d']; cbn [nth firstn].
  - assert (E : (c =? k) = true) by (apply Z.eqb_eq; lia).
    destruct (IsOK st) eqn:Est.
    + destruct (s + 1 =? k).
      * rewrite Est. split; [reflexivity|discriminate].
      * pose proof (SomePolicy_no_failure k rest (c - 1) (s + 1)) as Hnf.
        destruct (first_decided (PSome (SomePolicy.mk (c - 1) (s + 1) k))
                                rest) as [st'|].
        -- rewrite Hnf by (unfold is_size_t in *; lia).
           split; [reflexivity|discriminate].
        -- split; [reflexivity|discriminate].
    + rewrite E, Est. change (successes []) with 0.
      assert (E' : (k - s <=? 0) = false) by (apply Z.leb_gt; lia).
      rewrite E'. split; reflexivity.
  - assert (E : (c =? k) = false) by (apply Z.eqb_neq; lia).
    rewrite successes_cons.
    destruct (IsOK st) eqn:Est.
    + destruct (Z.eqb_spec (s + 1) k) as [Hk|Hk].
      * rewrite Est.
        assert (E' : (k - s <=? 1 + successes (firstn d' rest)) = true).
        { apply Z.leb_le. pose proof (successes_bounds (firstn d' rest)).
          lia. }
        rewrite E', orb_true_r. split; [reflexivity|discriminate].
      * destruct (IH (c - 1) (s + 1) d') as [I1 I2];
          try (unfold is_size_t in *; lia).
        split; [|exact I2]. rewrite I1. f_equal.
        destruct (Z.leb_spec (k - (s + 1)) (successes (firstn d' rest)));
          destruct (Z.leb_spec (k - s) (1 + successes (firstn d' rest)));
          try reflexivity; lia.
    + rewrite E.
      destruct (IH (c - 1) s d') as [I1 I2];
        try (unfold is_size_t in *; lia).
      split; [|exact I2]. rewrite I1. reflexivity.
Qed.

(** X12.  `Some` with a threshold [k] in the range, on [n] pipelines that
    all finish, hands the handler a failure in one case only: the pipeline
    that finishes when [k] pipelines have not finished yet, the
    [(n - k + 1)]-th in the order of completion, fails, and fewer than [k]
    pipelines succeeded before it.  The handler then receives that failure.
    In every other case it receives a success, whatever the outcomes of the
    pipelines that finish later. *)
Theorem SomePolicy_delivers (n k : Z) (sts : list XRootDStatus)
    (h : PipelineHandler) :
  is_size_t n -> 0 < k <= n -> Z.of_nat (List.length sts) = n ->
  delivered (Ctx.mk (Some h) (PSome (SomePolicy.new n k))) sts =
    [HandleResponse h (aggregate (PSome (SomePolicy.new n k)) sts)]
  /\ IsOK (aggregate (PSome (SomePolicy.new n k)) sts) =
       IsOK (nth (Z.to_nat (n - k)) sts XRootDStatus_default)
       || (k <=? successes (firstn (Z.to_nat (n - k)) sts))
  /\ (IsOK (aggregate (PSome (SomePolicy.new n k)) sts) = false ->
      aggregate (PSome (SomePolicy.new n k)) sts =
        nth (Z.to_nat (n - k)) sts XRootDStatus_default).
Proof.
  intros Hn Hk Hlen. split; [apply delivered_aggregate|].
  unfold SomePolicy.new.
  destruct (SomePolicy_decided k sts n 0 (Z.to_nat (n - k))) as [H1 H2];
    try (unfold is_size_t in *; lia).
  rewrite Z.sub_0_r in H1. split; assumption.
Qed.

Lemma SomePolicy_delivers_witness :
  delivered (Ctx.mk (Some 7%nat) (PSome (SomePolicy.new 4 2))) four_outcomes =
    [HandleResponse 7%nat (failure "c")]
  /\ IsOK (failure "c") = false || (2 <=? 1)
  /\ (IsOK (failure "c") = false -> failure "c" = failure "c").
Proof.
  exact (SomePolicy_delivers 4 2 four_outcomes 7%nat
           (is_size_t_intro 4 eq_refl) (in_range_intro 2 4 eq_refl) eq_refl).
Defined.

(** X13.  With a threshold outside the range, 0 or more than the number of
    pipelines, neither `Some` nor `AtLeast` ever answers [true]: whatever the
    outcomes, and even when every pipeline fails, the handler receives the
    default success status from the destructor. *)
Theorem out_of_range_threshold_delivers_success (n k : Z)
    (sts : list XRootDStatus) (h : PipelineHandler) :
  is_size_t n -> Z.of_nat (List.length sts) <= n -> k <= 0 \/ n < k ->
  delivered (Ctx.mk (Some h) (PSome (SomePolicy.new n k))) sts =
    [HandleResponse h XRootDStatus_default]
  /\ delivered (Ctx.mk (Some h) (PAtLeast (AtLeastPolicy.new n k))) sts =
       [HandleResponse h XRootDStatus_default].
Proof.
  intros Hn Hlen Hk. rewrite !delivered_aggregate. unfold aggregate.
  unfold SomePolicy.new, AtLeastPolicy.new.
  rewrite SomePolicy_never, AtLeastPolicy_never;
    try (unfold is_size_t in *; lia).
  split; reflexivity.
Qed.

Lemma out_of_range_threshold_delivers_success_witness :
  delivered (Ctx.mk (Some 7%nat) (PSome (SomePolicy.new 3 5)))
            [failure "a"; failure "b"; failure "c"] =
    [HandleResponse 7%nat XRootDStatus_default]
  /\ delivered (Ctx.mk (Some 7%nat) (PAtLeast (AtLeastPolicy.new 3 5)))
               [failure "a"; failure "b"; failure "c"] =
       [HandleResponse 7%nat XRootDStatus_default].
Proof.
  exact (out_of_range_threshold_delivers_success 3 5
           [failure "a"; failure "b"; failure "c"] 7%nat
           (is_size_t_intro 3 eq_refl)
           (proj1 (Z.leb_le 3 3) eq_refl)
           (or_intror (proj1 (Z.ltb_lt 3 5) eq_refl))).
Defined.

(** ** The description of an operation *)

Lemma append_empty_r (s : string) : String.append s EmptyString = s.
Proof.
  induction s as [|a s IH]; cbn [String.append]; [reflexivity|].
  rewrite IH. reflexivity.
Qed.

Lemma ToString_from_concat (ps : list Pipeline) :
  forall i size : Z,
    size = i + Z.of_nat (List.length ps) ->
    PO.ToString_from ps i size =
      String.concat " && " (map Pipeline_ToString ps).
Proof.
  induction ps as [|p rest IH]; intros i size Hsize; [reflexivity|].
  cbn [PO.ToString_from map List.length] in *.
  rewrite (IH (i + 1) size) by lia.
  destruct rest as [|p' rest'].
  - assert (E : (i + 1 =? size) = true) by (apply Z.eqb_eq; cbn in Hsize; lia).
    rewrite E. cbn [negb map String.concat String.append].
    apply append_empty_r.
  - assert (E : (i + 1 =? size) = false).
    { apply Z.eqb_neq. cbn [List.length] in Hsize. lia. }
    rewrite E. reflexivity.
Qed.

(** X14.  [ToString] renders an operation as ["Parallel("], the descriptions
    of its pipelines in their order joined by [" && "], and [")"]: the
    separator stands between two pipelines and nowhere else, for every
    number of pipelines. *)
Theorem ToString_joins (op : PO.t) :
  PO.ToString op =
    String.append "Parallel("
      (String.append
         (String.concat " && " (map Pipeline_ToString (PO.pipelines op)))
         ")").
Proof.
  unfold PO.ToString. rewrite (ToString_from_concat _ 0 (PO.size op)).
  - reflexivity.
  - unfold PO.size. lia.
Qed.

(** ** The factory functions *)

Lemma PipesToVec_app (Operation : Type)
    (Pipeline_of : bool -> Operation -> Pipeline)
    (operations : list (Argument Operation)) :
  forall v : list Pipeline,
    PipesToVec Pipeline_of v operations =
      v ++ map (fun a => match a with
                         | OperationArg HasHndl operation =>
                             Pipeline_of HasHndl operation
                         | PipelineArg pipeline => pipeline
                         end) operations.
Proof.
  induction operations as [|a others IH]; intros v; cbn [PipesToVec map].
  - rewrite app_nil_r. reflexivity.
  - destruct a; rewrite IH, <- app_assoc; reflexivity.
Qed.

(** X15.  [Parallel( operations... )] makes, without a policy, the operation
    whose pipelines are the arguments in the order in which they are
    written, each operation turned into a pipeline and each pipeline taken
    as it is: as many pipelines as arguments, none dropped and none
    reordered.  The local vector is left empty. *)
Theorem Parallel_of_arguments (Operation : Type)
    (Pipeline_of : bool -> Operation -> Pipeline)
    (operations : list (Argument Operation)) (timeout : Z) :
  PO.pipelines (fst (Parallel_of Pipeline_of operations timeout)) =
    map (fun a => match a with
                  | OperationArg HasHndl operation =>
                      Pipeline_of HasHndl operation
                  | PipelineArg pipeline => pipeline
                  end) operations
  /\ PO.size (fst (Parallel_of Pipeline_of operations timeout)) =
       Z.of_nat (List.length operations)
  /\ PO.policy (fst (Parallel_of Pipeline_of operations timeout)) = None
  /\ snd (Parallel_of Pipeline_of operations timeout) = [].
Proof.
  unfold Parallel_of, Parallel, PO.from_container, PO.size.
  cbn [fst snd PO.pipelines PO.policy].
  rewrite PipesToVec_app. cbn [app]. rewrite length_map.
  repeat split.
Qed.

(** ** The default policy *)

Lemma step_pipelines (op op' : PO.t) (e : PO.Event) (s : PO.RunState) :
  PO.pipelines op' = PO.pipelines op -> PO.step op' e s = PO.step op e s.
Proof.
  intros H. destruct e; cbn [PO.step]; [|reflexivity].
  unfold PO.RunImpl_step. rewrite H. reflexivity.
Qed.

Lemma exec_pipelines (op op' : PO.t) (es : list PO.Event) :
  PO.pipelines op' = PO.pipelines op ->
  forall s, PO.exec op' es s = PO.exec op es s.
Proof.
  intros H. induction es as [|e es IH]; intros s; cbn [PO.exec].
  - reflexivity.
  - rewrite (step_pipelines op op' e s H).
    destruct (PO.step op e s); [apply IH|reflexivity].
Qed.

(** X16.  An operation on which no policy was selected is activated as if
    [All()] had been called on it: [RunImpl] goes through the same states,
    under every schedule, with every handler and timeout. *)
Theorem unset_policy_is_All (op : PO.t) (h : option PipelineHandler)
    (pipelineTimeout : Z) (es : list PO.Event) :
  PO.policy op = None ->
  PO.exec op es (PO.RunImpl_enter op h pipelineTimeout) =
    PO.exec (PO.All op) es (PO.RunImpl_enter (PO.All op) h pipelineTimeout).
Proof.
  intros Hp. rewrite (exec_pipelines op (PO.All op) es eq_refl).
  unfold PO.RunImpl_enter. rewrite Hp. reflexivity.
Qed.

Lemma unset_policy_is_All_witness :
  PO.exec three_op all_succeed_schedule
    (PO.RunImpl_enter three_op (Some 7%nat) 10) =
  PO.exec (PO.All three_op) all_succeed_schedule
    (PO.RunImpl_enter (PO.All three_op) (Some 7%nat) 10).
Proof.
  exact (unset_policy_is_All three_op (Some 7%nat) 10 all_succeed_schedule
           eq_refl).
Defined.

(** ** Continuations that overlap *)

(** X17.  Under `Any` the order in which two continuations reach the handler
    slot need not be the order in which they examined their outcomes.  With
    two pipelines, the first finishing with a success and the second with a
    failure, there is an interleaving in which every thread runs to its end
    and the handler receives the failure: the second continuation, the last
    one for the counter, takes the slot while the first is between
    [policy->Examine] and [Handle].  When the continuations run one after
    the other in that order the handler receives the success. *)
Theorem AnyPolicy_overtaken_success (st1 st2 : XRootDStatus)
    (h : PipelineHandler) (pipelineTimeout : Z) :
  IsOK st1 = true -> IsOK st2 = false ->
  (exists t,
     Threads.exec two_op (overtaking st1 st2)
       (Threads.enter two_op (Some h) pipelineTimeout) = Some t
     /\ Threads.terminal t
     /\ Threads.calls (Threads.shared t) = [HandleResponse h st2])
  /\ finished (overtaking st1 st2) = [st1; st2]
  /\ delivered (gate_of two_op h) [st1; st2] = [HandleResponse h st1].
Proof.
  intros H1 H2. destruct st1 as [[|] m1]; [|discriminate H1].
  destruct st2 as [[|] m2]; [discriminate H2|].
  split; [|split; [reflexivity|]].
  - eexists. split; [vm_compute; reflexivity|]. split.
    + split; [reflexivity|]. repeat constructor.
    + reflexivity.
  - vm_compute. reflexivity.
Qed.

Lemma AnyPolicy_overtaken_success_witness :
  exists t,
    Threads.exec two_op (overtaking XRootDStatus_default (failure "b"))
      (Threads.enter two_op (Some 7%nat) 10) = Some t
    /\ Threads.terminal t
    /\ Threads.calls (Threads.shared t) = [HandleResponse 7%nat (failure "b")].
Proof.
  exact (proj1 (AnyPolicy_overtaken_success XRootDStatus_default
                  (failure "b") 7%nat 10 eq_refl eq_refl)).
Defined.

(** ** The threads under `All` *)

Lemma wants_owns (l : list Threads.Pc) :
  Threads.count Threads.owns l = 0%nat -> Threads.count wants l = 0%nat.
Proof.
  induction l as [|pc l IH]; [reflexivity|].
  rewrite !threads_count_cons. intros H.
  destruct pc; cbn [Threads.owns wants Nat.b2n] in *; try lia;
    apply IH; lia.
Qed.

Lemma Forall_split_replace (P : Threads.Pc -> Prop)
    (l1 l2 : list Threads.Pc) (pc pc' : Threads.Pc) :
  Forall P (l1 ++ pc :: l2) -> P pc' -> Forall P (l1 ++ pc' :: l2).
Proof.
  intros H Hpc'. apply Forall_app in H. destruct H as [H1 H2].
  apply Forall_app. split; [exact H1|].
  inversion H2; subst. constructor; assumption.
Qed.

Lemma Forall_split_at (P : Threads.Pc -> Prop)
    (l1 l2 : list Threads.Pc) (pc : Threads.Pc) :
  Forall P (l1 ++ pc :: l2) -> P pc.
Proof.
  intros H. apply Forall_app in H. destruct H as [_ H2].
  inversion H2. assumption.
Qed.

(** One atomic operation of one thread keeps the invariant. *)
Lemma all_inv_advance (nfail : nat) (pc pc' : Threads.Pc)
    (sh sh' : Threads.Shared) (l1 l2 : list Threads.Pc) :
  all_inv nfail sh (l1 ++ pc :: l2) ->
  Threads.advance pc sh = Some (pc', sh') ->
  all_inv nfail sh' (l1 ++ pc' :: l2).
Proof.
  unfold all_inv. intros (Hpol & Hall & Hu & Hd & Hslot) Hadv.
  pose proof (Forall_split_at _ _ _ _ Hall) as Hpc.
  destruct pc as [|st|st|st|h' st| | |h'|]; cbn [Threads.advance] in Hadv;
    cbn [all_pc] in Hpc; try discriminate; try contradiction.
  - (* Examining *)
    rewrite Hpol in Hadv. cbn [Threads.Examine_first] in Hadv.
    unfold AllPolicy.Examine in Hadv.
    destruct (IsOK st) eqn:Est; injection Hadv as <- <-;
      (split; [reflexivity|]);
      (split; [apply (Forall_split_replace _ _ _ _ _ Hall); cbn; auto|]);
      all_counts threads_count_split; rewrite ?Est in *; cbn [negb Nat.b2n] in *;
      (split; [exact Hu|]); (split; [exact Hd|]); exact Hslot.
  - (* Handling *)
    unfold Ctx.exchange_handler in Hadv.
    destruct (Ctx.handler (Threads.ctx sh)) as [h0|] eqn:Eh;
      injection Hadv as <- <-;
      (split; [exact Hpol|]);
      (split; [apply (Forall_split_replace _ _ _ _ _ Hall); cbn; auto|]);
      all_counts threads_count_split; rewrite ?Hpc in *; cbn [negb Nat.b2n] in *;
      (split; [exact Hu|]); (split; [exact Hd|]).
    + destruct Hslot as (Hw & Hc & Hdc & Hcalls). left.
      split; [lia|]. split; [rewrite Hcalls; constructor|exact Hdc].
    + destruct Hslot as [(Hn & Hf & Hdc)|(Hn & Hz & Hf & Hc)].
      * left. auto.
      * right. auto.
  - (* Calling *)
    injection Hadv as <- <-.
    split; [exact Hpol|].
    split; [apply (Forall_split_replace _ _ _ _ _ Hall); exact I|].
    all_counts threads_count_split. split; [exact Hu|]. split; [exact Hd|].
    destruct (Ctx.handler (Threads.ctx sh)).
    + destruct Hslot as (_ & Hc & _). lia.
    + destruct Hslot as [(Hn & Hf & Hdc)|(_ & _ & _ & Hc)]; [|lia].
      left. split; [exact Hn|]. split; [|exact Hdc].
      apply Forall_app. split; [exact Hf|]. constructor; [exact Hpc|].
      constructor.
  - (* Releasing *)
    destruct (Threads.use_count sh) as [|[|n]] eqn:Eu;
      injection Hadv as <- <-;
      (split; [exact Hpol|]);
      (split; [apply (Forall_split_replace _ _ _ _ _ Hall); exact I|]);
      all_counts threads_count_split; cbn [Nat.pred].
    + lia.
    + split; [lia|]. split; [reflexivity|].
      destruct (Ctx.handler (Threads.ctx sh)).
      * exact Hslot.
      * destruct Hslot as [H|(_ & Hz & _)]; [left; exact H|discriminate Hz].
    + split; [lia|]. split; [intros H; specialize (Hd H); discriminate Hd|].
      destruct (Ctx.handler (Threads.ctx sh)).
      * exact Hslot.
      * destruct Hslot as [H|(_ & Hz & _)]; [left; exact H|discriminate Hz].
  - (* Destroying *)
    assert (H0 : Threads.use_count sh = 0%nat) by (apply Hd; all_counts threads_count_split; lia).
    unfold Ctx.exchange_handler in Hadv.
    destruct (Ctx.handler (Threads.ctx sh)) as [h0|] eqn:Eh;
      injection Hadv as <- <-;
      (split; [exact Hpol|]);
      (split; [apply (Forall_split_replace _ _ _ _ _ Hall); exact I|]).
    + assert (Hw : Threads.count wants (l1 ++ Threads.Destroying :: l2)
                   = 0%nat).
      { apply wants_owns. lia. }
      all_counts threads_count_split. split; [exact Hu|]. split; [intros _; exact H0|].
      destruct Hslot as (Hn & Hc & Hdc & Hcalls). right.
      split; [lia|]. split; [exact H0|].
      split; [rewrite Hcalls; constructor|exact Hc].
    + all_counts threads_count_split. split; [exact Hu|]. split; [intros _; exact H0|].
      destruct Hslot as [(Hn & Hf & Hdc)|(Hn & Hz & Hf & Hc)].
      * left. auto.
      * right. auto.
  - (* DestroyCalling *)
    injection Hadv as <- <-.
    split; [exact Hpol|].
    split; [apply (Forall_split_replace _ _ _ _ _ Hall); exact I|].
    all_counts threads_count_split. split; [exact Hu|]. split; [exact Hd|].
    destruct (Ctx.handler (Threads.ctx sh)).
    + destruct Hslot as (_ & _ & Hdc & _). lia.
    + destruct Hslot as [(_ & _ & Hdc)|(Hn & Hz & Hf & Hc)]; [lia|].
      right. split; [exact Hn|]. split; [exact Hz|]. split; [|exact Hc].
      apply Forall_app. split; [exact Hf|]. repeat constructor.
Qed.

Lemma all_inv_enter (op : PO.t) (h : PipelineHandler) (pipelineTimeout : Z) :
  PO.policy op = None \/ PO.policy op = Some PAll ->
  all_inv 0 (Threads.shared (Threads.enter op (Some h) pipelineTimeout))
          (Threads.threads (Threads.enter op (Some h) pipelineTimeout)).
Proof.
  intros Hp. unfold all_inv, Threads.enter, Threads.threads.
  cbn [Threads.shared Threads.main Threads.tasks Threads.ctx
       Threads.use_count Threads.calls].
  rewrite gate_of_enter, (gate_of_All op h Hp). cbn.
  repeat split; try lia. repeat constructor.
Qed.

Lemma all_inv_step (op : PO.t) (e : Threads.Event) (n : nat)
    (t t' : Threads.State) :
  all_inv n (Threads.shared t) (Threads.threads t) ->
  Threads.step op e t = Some t' ->
  all_inv (n + count_failures (finished [e])) (Threads.shared t')
          (Threads.threads t').
Proof.
  unfold Threads.threads. intros Hinv Hstep.
  destruct e as [|j st|j]; cbn [Threads.step finished count_failures filter
                                List.length] in *;
    rewrite ?Nat.add_0_r.
  - unfold Threads.main_step in Hstep.
    destruct (Threads.main t) eqn:Em;
      try (destruct (Threads.advance (Threads.main t) (Threads.shared t))
             as [[pc' sh']|] eqn:Ea; rewrite Em in Ea; rewrite Ea in Hstep;
           [|discriminate]; injection Hstep as <-;
           cbn [Threads.shared Threads.main Threads.tasks];
           exact (all_inv_advance n _ pc' _ sh' [] _ Hinv Ea)).
    assert (Hret :
      all_inv n (Threads.shared t) (Threads.Releasing :: Threads.tasks t)).
    { unfold all_inv in *. rewrite !threads_count_cons in *.
      cbn [wants calling destroy_calling Threads.owns Threads.destroys
           Nat.b2n] in *.
      destruct Hinv as (Hp & Hall & Hu & Hd & Hslot).
      split; [exact Hp|]. split; [|auto].
      inversion Hall; subst. constructor; [exact I|assumption]. }
    destruct (nth_error (PO.pipelines op) (Threads.index t)) as [p|];
      [destruct (Pipeline_Run p)|]; injection Hstep as <-;
      cbn [Threads.shared Threads.main Threads.tasks]; try exact Hret.
    unfold all_inv in *.
    rewrite !threads_count_cons, !threads_count_app in *.
    rewrite !threads_count_cons in *.
    cbn [wants calling destroy_calling Threads.owns Threads.destroys
         Nat.b2n Threads.ctx Threads.use_count Threads.calls Threads.count
         filter List.length] in *.
    destruct Hinv as (Hp & Hall & Hu & Hd & Hslot).
    split; [exact Hp|]. split.
    { inversion Hall; subst. constructor; [exact I|].
      apply Forall_app. split; [assumption|]. repeat constructor. }
    split; [lia|]. split; [intros H; lia|].
    destruct (Ctx.handler (Threads.ctx (Threads.shared t))).
    + destruct Hslot as (Hw & Hc & Hdc & Hcalls).
      repeat split; try assumption; lia.
    + destruct Hslot as [(Hn & Hf & Hdc)|(Hn & Hz & Hf & Hc)]; [|lia].
      left. repeat split; try assumption; lia.
  - unfold Threads.finish in Hstep.
    destruct (nth_error (Threads.tasks t) j) as [pc|] eqn:Ej; [|discriminate].
    destruct pc; try discriminate. injection Hstep as <-.
    cbn [Threads.shared Threads.main Threads.tasks].
    destruct (threads_set_nth_split _ j _ Ej) as (l1 & l2 & El & Hset).
    rewrite Hset. rewrite El in Hinv. unfold all_inv in *.
    destruct Hinv as (Hp & Hall & Hu & Hd & Hslot).
    split; [exact Hp|]. split.
    { apply (Forall_split_replace all_pc (Threads.main t :: l1) l2
               Threads.Running (Threads.Examining st) Hall). exact I. }
    change (Threads.main t :: l1 ++ ?x :: l2)
      with ((Threads.main t :: l1) ++ x :: l2) in *.
    all_counts threads_count_split.
    split; [exact Hu|]. split; [exact Hd|].
    destruct (Ctx.handler (Threads.ctx (Threads.shared t))).
    + destruct Hslot as (Hw & Hc & Hdc & Hcalls).
      split; [|auto]. destruct (IsOK st); cbn [negb Nat.b2n List.length]; lia.
    + destruct Hslot as [(Hn & Hf & Hdc)|(Hn & Hz & Hf & Hc)]; [|lia].
      left. split; [lia|auto].
  - unfold Threads.task_step in Hstep.
    destruct (nth_error (Threads.tasks t) j) as [pc|] eqn:Ej; [|discriminate].
    destruct (Threads.advance pc (Threads.shared t)) as [[pc' sh']|] eqn:Ea;
      [|discriminate].
    injection Hstep as <-. cbn [Threads.shared Threads.main Threads.tasks].
    destruct (threads_set_nth_split _ j _ Ej) as (l1 & l2 & El & Hset).
    rewrite Hset. rewrite El in Hinv.
    exact (all_inv_advance n pc pc' _ sh' (Threads.main t :: l1) l2 Hinv Ea).
Qed.

Lemma finished_cons (e : Threads.Event) (es : list Threads.Event) :
  count_failures (finished (e :: es)) =
    (count_failures (finished [e]) + count_failures (finished es))%nat.
Proof. destruct e; reflexivity || (cbn; destruct (negb (IsOK st)); reflexivity). Qed.

Lemma all_inv_exec (op : PO.t) (es : list Threads.Event) :
  forall (n : nat) (t t' : Threads.State),
    all_inv n (Threads.shared t) (Threads.threads t) ->
    Threads.exec op es t = Some t' ->
    all_inv (n + count_failures (finished es)) (Threads.shared t')
            (Threads.threads t').
Proof.
  induction es as [|e es IH]; intros n t t' Hinv Hexec;
    cbn [Threads.exec] in Hexec.
  - injection Hexec as <-. cbn. rewrite Nat.add_0_r. exact Hinv.
  - destruct (Threads.step op e t) as [t1|] eqn:Hstep; [|discriminate].
    rewrite finished_cons, Nat.add_assoc.
    exact (IH _ t1 t' (all_inv_step op e n t t1 Hinv Hstep) Hexec).
Qed.

Lemma count_failures_all_succeeded (sts : list XRootDStatus) :
  all_succeeded sts = Nat.eqb (count_failures sts) 0.
Proof.
  unfold all_succeeded, count_failures.
  induction sts as [|st rest IH]; cbn [forallb filter]; [reflexivity|].
  destruct (IsOK st); cbn [negb andb List.length]; [exact IH|reflexivity].
Qed.

(** X18.  Under `All`, selected or defaulted, the status the handler ends up
    with does not depend on how the threads interleave: whatever the order
    of the atomic operations of the continuations and of the thread inside
    [RunImpl], when all threads have run to their end the handler has been
    called once, with a failure if a pipeline finished with a failure, and
    with the default success status if every pipeline that finished
    succeeded. *)
Theorem AllPolicy_threads_deliver (op : PO.t) (h : PipelineHandler)
    (pipelineTimeout : Z) (es : list Threads.Event) (t : Threads.State) :
  PO.policy op = None \/ PO.policy op = Some PAll ->
  Threads.exec op es (Threads.enter op (Some h) pipelineTimeout) = Some t ->
  Threads.terminal t ->
  exists st,
    Threads.calls (Threads.shared t) = [HandleResponse h st]
    /\ IsOK st = all_succeeded (finished es)
    /\ (all_succeeded (finished es) = true -> st = XRootDStatus_default).
Proof.
  intros Hp Hexec [Hm Ht].
  pose proof (threads_exec_inv op h es _ t
                (threads_enter_inv op h pipelineTimeout) Hexec)
    as [(Hu & Hslot & Hd) _].
  pose proof (all_inv_exec op es 0 _ t (all_inv_enter op h pipelineTimeout Hp)
                Hexec) as (_ & _ & _ & _ & Hall).
  unfold Threads.threads in *.
  rewrite !threads_count_cons, Hm in *.
  rewrite !(threads_count_finished _ _ eq_refl Ht) in *.
  cbn [Nat.b2n Threads.owns Threads.holds Threads.destroys Nat.add] in *.
  rewrite count_failures_all_succeeded.
  destruct (Ctx.handler (Threads.ctx (Threads.shared t))).
  - destruct (Hd eq_refl) as [H|H]; [discriminate|lia].
  - destruct Hslot as [[H _]|[_ [st Hst]]]; [discriminate|].
    exists st. split; [exact Hst|]. rewrite Hst in Hall.
    destruct Hall as [(Hn & Hf & _)|(Hn & _ & Hf & _)].
    + inversion Hf as [|c l Hc _]; subst. cbn [response] in Hc.
      destruct (count_failures (finished es)); [lia|].
      cbn [Nat.eqb Nat.add]. split; [exact Hc|discriminate].
    + inversion Hf as [|c l Hc _]; subst. cbn [response] in Hc.
      cbn [Nat.add] in Hn. rewrite Hn. cbn [Nat.eqb].
      split; [rewrite Hc; reflexivity|intros _; exact Hc].
Qed.

Lemma all_interleaving_run :
  Threads.exec three_op all_interleaving
    (Threads.enter three_op (Some 7%nat) 10) = Some all_interleaving_final.
Proof. vm_compute. reflexivity. Qed.

Lemma all_interleaving_terminal : Threads.terminal all_interleaving_final.
Proof. split; [reflexivity|]. repeat constructor. Qed.

Lemma AllPolicy_threads_deliver_witness :
  exists st,
    Threads.calls (Threads.shared all_interleaving_final) =
      [HandleResponse 7%nat st]
    /\ IsOK st = false
    /\ (false = true -> st = XRootDStatus_default).
Proof.
  exact (AllPolicy_threads_deliver three_op 7%nat 10 all_interleaving
           all_interleaving_final (or_introl eq_refl) all_interleaving_run
           all_interleaving_terminal).
Defined.

(** ** The end of an activation whose launch loop was left early *)

(** X19.  When a pipeline throws at its launch, the policy in the gate is
    still the one made for all the pipelines of the list, and the activation
    still ends with one call of the handler.  Under `All`, if the pipelines
    started before the throw all succeed, and under `Any`, if they all fail,
    the policy never answers [true]: [RunImpl] has returned the status of
    the launch failure, and the handler receives the default success status
    from the destructor. *)
Theorem launch_fault_default_success (op : PO.t) (h : PipelineHandler)
    (pipelineTimeout : Z) (es : list PO.Event) (s : PO.RunState) :
  (first_throw (PO.pipelines op) < List.length (PO.pipelines op))%nat ->
  ((PO.policy op = None \/ PO.policy op = Some PAll)
   /\ all_succeeded (completions es) = true)
  \/ (PO.policy op = Some (PAny (AnyPolicy.new (PO.size op)))
      /\ all_fail (completions es) = true
      /\ is_size_t (PO.size op)) ->
  PO.exec op es (PO.RunImpl_enter op (Some h) pipelineTimeout) = Some s ->
  PO.quiescent s ->
  PO.returned s = Some (launch_status (PO.pipelines op))
  /\ List.length (completions es) = first_throw (PO.pipelines op)
  /\ PO.calls s = [HandleResponse h XRootDStatus_default].
Proof.
  intros Hft Hpol Hexec Hq.
  destruct (exec_launch_inv op (Some h) pipelineTimeout es s Hexec)
    as (_ & _ & _ & Hc & Hr).
  pose proof Hq as [Hret Hpend].
  destruct (PO.returned s) as [st|] eqn:Est; [|congruence].
  destruct (Hr st eq_refl) as [Hi ->].
  assert (Hlen : List.length (completions es) = first_throw (PO.pipelines op)).
  { rewrite Hpend in Hc. cbn in Hc. lia. }
  split; [reflexivity|]. split; [exact Hlen|].
  rewrite (activation_delivers op h pipelineTimeout es s Hexec Hq).
  destruct Hpol as [[Hp Hok]|(Hp & Hf & Hn)].
  - rewrite (gate_of_All op h Hp), delivered_aggregate. unfold aggregate.
    rewrite (AllPolicy_all_succeeded _ Hok). reflexivity.
  - assert (Hg : gate_of op h =
                 Ctx.mk (Some h) (PAny (AnyPolicy.mk (PO.size op)))).
    { unfold gate_of, PO.RunImpl_enter. cbn [PO.ctx]. rewrite Hp.
      reflexivity. }
    rewrite Hg, delivered_aggregate. unfold aggregate.
    rewrite first_decided_decisions; [reflexivity|].
    apply AnyPolicy_decisions_fail; [exact Hf|exact Hn|].
    unfold PO.size. lia.
Qed.

Lemma faulty_end_run :
  PO.exec faulty_op faulty_end_schedule
    (PO.RunImpl_enter faulty_op (Some 7%nat) 10) = Some faulty_end.
Proof. vm_compute. reflexivity. Qed.

Lemma launch_fault_default_success_witness :
  PO.returned faulty_end = Some (failure "no")
  /\ List.length (completions faulty_end_schedule) = 2%nat
  /\ PO.calls faulty_end = [HandleResponse 7%nat XRootDStatus_default].
Proof.
  apply (launch_fault_default_success faulty_op 7%nat 10 faulty_end_schedule
           faulty_end).
  - exact (le_n 3).
  - right. split; [reflexivity|]. split; [reflexivity|].
    apply is_size_t_intro. reflexivity.
  - exact faulty_end_run.
  - split; [discriminate|reflexivity].
Defined.
